(** * LatentSync, [scripts/inference.py]: the segmenting driver

    A shallow embedding of the command-line driver and the properties of
    its orchestration: the segment-count rule, the segment boundaries,
    the order of the external calls, and the command line.

    Conventions.
    - Python [int] is [Z]; a list is a [list]; [str] is [string], a
      string of bytes: the command line is taken to be ASCII, and a
      digit of a regular expression is an ASCII digit.
    - External calls (ffmpeg, ffprobe, torch, diffusers, the pipeline) are
      recorded as events of a trace, in program order.  Their results are
      read from an environment record, and an external call is taken to
      return.
    - [main] is embedded twice.  [Exec.main] is the function as the
      interpreter executes it: it reads the report of ffprobe and raises
      what lines 112, 113 and 120 raise on it, the duration is a float
      (IEEE 754 binary64, module [Binary64]), and [<=], [//], [%], [int],
      [min] and the [-] of the cut functions compute on it as CPython
      does.  [main] is the run once the probe has given a duration, with
      the same operations in exact arithmetic on rationals.  The two
      agree whenever the probe reads a float below 2^53 in absolute
      value (lemma [ExecFacts.main_exact]), and differ above; properties
      of the order of calls, of file names and of the values passed on
      are stated on [main], properties of the segment count, of the
      segment boundaries and of the exceptions on [Exec.main]. *)

From Stdlib Require Import ZArith QArith Qround Qminmax Qpower Qabs Lqa Lia List String Ascii.
From Stdlib Require Import DecimalString DecimalZ DecimalPos Sorted.
From stdpp Require Import base strings gmap list.

Open Scope Z_scope.

(** ** Python built-ins used by the script *)

Module Py.

(** [x // y] on floats: the floor of the quotient, as a float. *)
Definition floordiv (x y : Q) : Q := inject_Z (Qfloor (x / y)).

(** [x % y] on floats: the remainder with the sign of the divisor. *)
Definition mod_ (x y : Q) : Q := (x - y * inject_Z (Qfloor (x / y)))%Q.

(** [int(x)]: truncation toward zero. *)
Definition int (x : Q) : Z := Z.quot (Qnum x) (Z.pos (Qden x)).

(** [min(x, y)]: the first argument unless the second is smaller. *)
Definition min (x y : Q) : Q := if Qlt_le_dec y x then y else x.

(** [str(n)] and [f"{n}"] for an integer. *)
Definition str (n : Z) : string := NilZero.string_of_int (Z.to_int n).

(** [range(n)]. *)
Definition range (n : Z) : list nat := seq 0 (Z.to_nat n).

(** [os.path.join(a, b)] of posixpath. *)
Definition os_path_join (a b : string) : string :=
  if String.prefix "/" b then b
  else if (String.eqb a "" || String.prefix "/" (String.rev a))%bool then a +:+ b
  else a +:+ "/" +:+ b.

(** [s.replace(old, new)] for a non-empty [old]: every occurrence, left
    to right, without overlap.  [skip] counts the characters of a match
    still to be dropped. *)
Fixpoint replace_go (old new : string) (skip : nat) (s : string) : string :=
  match s with
  | EmptyString => EmptyString
  | String c s' =>
      match skip with
      | S k => replace_go old new k s'
      | O =>
          if String.prefix old s
          then new +:+ replace_go old new (Nat.pred (String.length old)) s'
          else String c (replace_go old new 0 s')
      end
  end.

Definition replace (s old new : string) : string := replace_go old new 0 s.

End Py.

(** ** Python floats

    A Python [float] is an IEEE 754 binary64 number: a finite number
    [m * 2^e] with [|m| < 2^53] and [-1074 <= e <= 971], an infinity, or
    a NaN.  A finite float is written here as the rational it is; the
    sign of a zero is not kept (no operation of the script reads it).  An
    arithmetic operation gives the exact result when that is a float, and
    otherwise the nearest float, ties to the even mantissa. *)

Module Binary64.

Local Open Scope Q_scope.

Inductive t :=
| Finite (x : Q)
| Infinity (negative : bool)
| NaN.

Definition pow2 (e : Z) : Q := 2 ^ e.

(** The exponent of the leading bit of [x > 0]: [2^k <= x < 2^(k+1)]. *)
Definition ilog2 (x : Q) : Z :=
  let k := (Z.log2 (Qnum x) - Z.log2 (Z.pos (Qden x)))%Z in
  if Qle_bool (pow2 k) x then k else (k - 1)%Z.

(** The exponent of the unit in the last place of [x]: 53 bits of
    mantissa, and no exponent below the one of the subnormal numbers. *)
Definition ulp_exp (x : Q) : Z := Z.max (ilog2 (Qabs x) - 52) (-1074).

(** The nearest integer, ties to even. *)
Definition rint (x : Q) : Z :=
  let n := Qfloor x in
  match Qcompare (x - inject_Z n) (1 # 2) with
  | Lt => n
  | Gt => (n + 1)%Z
  | Eq => if Z.even n then n else (n + 1)%Z
  end.

(** The nearest multiple of the unit in the last place. *)
Definition nearest (x : Q) : Q :=
  inject_Z (rint (x / pow2 (ulp_exp x))) * pow2 (ulp_exp x).

Definition Qltb (x y : Q) : bool := negb (Qle_bool y x).

(** Rounding of an exact result.  A result that is a float is kept as
    the fraction it is written as. *)
Definition round (x : Q) : t :=
  let y := nearest x in
  if Qle_bool (pow2 1024) (Qabs y) then Infinity (Qltb x 0)
  else if Qeq_bool y x then Finite x
  else Finite y.

(** [x] is a binary64 number. *)
Definition representable (x : Q) : Prop := round x = Finite x.

(** The float nearest to an integer. *)
Definition of_int (n : Z) : t := round (inject_Z n).

Definition sub (x y : t) : t :=
  match x, y with
  | NaN, _ | _, NaN => NaN
  | Infinity a, Infinity b => if Bool.eqb a b then NaN else Infinity a
  | Infinity a, Finite _ => Infinity a
  | Finite _, Infinity b => Infinity (negb b)
  | Finite x, Finite y => round (x - y)
  end.

Definition add (x y : t) : t :=
  match x, y with
  | NaN, _ | _, NaN => NaN
  | Infinity a, Infinity b => if Bool.eqb a b then Infinity a else NaN
  | Infinity a, Finite _ => Infinity a
  | Finite _, Infinity b => Infinity b
  | Finite x, Finite y => round (x + y)
  end.

Definition div (x y : t) : t :=
  match x, y with
  | NaN, _ | _, NaN => NaN
  | Infinity _, Infinity _ => NaN
  | Infinity a, Finite y => Infinity (xorb a (Qltb y 0))
  | Finite _, Infinity _ => Finite 0
  | Finite x, Finite y =>
      if Qeq_bool y 0
      then if Qeq_bool x 0 then NaN else Infinity (Qltb x 0)
      else round (x / y)
  end.

(** C's [fmod]: the remainder of the division truncated toward zero; it
    is always a float, so nothing is rounded. *)
Definition fmod (x y : t) : t :=
  match x, y with
  | Finite x, Finite y =>
      if Qeq_bool y 0 then NaN else Finite (x - inject_Z (Py.int (x / y)) * y)
  | Finite x, Infinity _ => Finite x
  | _, _ => NaN
  end.

(** C's [floor]. *)
Definition floor (x : t) : t :=
  match x with
  | Finite x => Finite (inject_Z (Qfloor x))
  | _ => x
  end.

Definition is_zero (x : t) : bool :=
  match x with Finite x => Qeq_bool x 0 | _ => false end.

Definition ltb (x y : t) : bool :=
  match x, y with
  | NaN, _ | _, NaN => false
  | Finite x, Finite y => Qltb x y
  | Finite _, Infinity b => negb b
  | Infinity a, Finite _ => a
  | Infinity a, Infinity b => (a && negb b)%bool
  end.

Definition leb (x y : t) : bool :=
  match x, y with
  | NaN, _ | _, NaN => false
  | Finite x, Finite y => Qle_bool x y
  | Finite _, Infinity b => negb b
  | Infinity a, Finite _ => a
  | Infinity a, Infinity b => (a || negb b)%bool
  end.

End Binary64.

(** ** The segment-count rule (lines 115-122 of [main])

    In exact arithmetic: [//], [%] and [int] with their meaning on
    rationals.  [Exec.total_segments] below is the same rule on floats. *)

Definition segment_duration : Z := 5.

Definition total_segments (video_duration : Q) : Z :=
  if Qle_bool video_duration (inject_Z segment_duration) then 1
  else
    let total_segments := Py.int (Py.floordiv video_duration (inject_Z segment_duration)) in
    if negb (Qeq_bool (Py.mod_ video_duration (inject_Z segment_duration)) 0)
    then total_segments + 1
    else total_segments.

(** Segment boundaries computed in the body of both cutting loops
    (lines 131-134 and 153-156). *)
Definition start_time (i : nat) : Q := inject_Z (Z.of_nat i * segment_duration).

Definition end_time (video_duration : Q) (i : nat) : Q :=
  Py.min (inject_Z ((Z.of_nat i + 1) * segment_duration)) video_duration.

(** [d] is an integer multiple of the segment duration. *)
Definition is_multiple (d : Q) : Prop :=
  exists k : Z, (d == inject_Z (k * segment_duration))%Q.

(** ** The command line (lines 240-249)

    The parser is the list of [add_argument] calls of the script.  Its
    meaning is the one of [argparse.ArgumentParser.parse_args] (CPython
    3.11) on a parser that has optional arguments only, each taking one
    value, plus the [-h]/[--help] option every parser gets.  [parse_args]
    either returns a namespace or ends the process ([SystemExit]: usage
    error or help); both ways of ending are one outcome here. *)

Module Argparse.

Inductive arg_type := type_str | type_int | type_float.

Inductive value :=
| VNone
| VStr (s : string)
| VInt (n : Z)
| VFloat (x : Q).

Record action := {
  option_string : string;
  type : arg_type;
  required : bool;
  default : value;
}.

Fixpoint lstrip_dash (s : string) : string :=
  match s with
  | String "-" s' => lstrip_dash s'
  | _ => s
  end.

(** The attribute an option is stored under: the option string without
    its leading dashes, inner dashes turned into underscores. *)
Definition dest_of (option_string : string) : string :=
  Py.replace (lstrip_dash option_string) "-" "_".

Definition dest (a : action) : string := dest_of (option_string a).

Definition add_argument (name : string) (ty : arg_type) (req : bool) (dflt : value) : action :=
  {| option_string := name; type := ty; required := req; default := dflt |}.

(** Lines 241-248. *)
Definition parser : list action :=
  [ add_argument "--unet_config_path" type_str false (VStr "configs/unet.yaml");
    add_argument "--inference_ckpt_path" type_str true VNone;
    add_argument "--video_path" type_str true VNone;
    add_argument "--audio_path" type_str true VNone;
    add_argument "--video_out_path" type_str true VNone;
    add_argument "--inference_steps" type_int false (VInt 20);
    add_argument "--guidance_scale" type_float false (VFloat 1);
    add_argument "--seed" type_int false (VInt 1247) ].

(** The options declared with [required=True]. *)
Definition required_options : list string :=
  map option_string (List.filter required parser).

Inductive registered :=
| Help
| Store (a : action).

(** [parser._option_string_actions], in insertion order. *)
Definition option_string_actions : list (string * registered) :=
  ("-h", Help) :: ("--help", Help) :: map (fun a => (option_string a, Store a)) parser.

Definition option_strings : list string := map fst option_string_actions.

Definition is_registered (o : string) : bool := existsb (String.eqb o) option_strings.

Fixpoint find_action (o : string) (l : list (string * registered)) : option registered :=
  match l with
  | [] => None
  | (o', r) :: l' => if String.eqb o o' then Some r else find_action o l'
  end.

(** [s.split('=', 1)] when ['=' in s]. *)
Fixpoint split_eq (s : string) : option (string * string) :=
  match s with
  | EmptyString => None
  | String c s' =>
      if Ascii.eqb c "="%char then Some (EmptyString, s')
      else match split_eq s' with
           | Some (a, b) => Some (String c a, b)
           | None => None
           end
  end.

(** [\d] on an ASCII string.  (On a [str], [\d] also matches the decimal
    digits of other scripts; such a command line is not modelled, and the
    parser here takes no string for a negative number that argparse does
    not.) *)
Definition is_digit (c : ascii) : bool :=
  let n := nat_of_ascii c in ((48 <=? n)%nat && (n <=? 57)%nat)%bool.

Fixpoint all_digits (s : string) : bool :=
  match s with
  | EmptyString => true
  | String c s' => (is_digit c && all_digits s')%bool
  end.

(** digits, at least one *)
Definition digits1 (s : string) : bool :=
  match s with
  | EmptyString => false
  | _ => all_digits s
  end.

(** digits (maybe none), a dot, digits (at least one) *)
Fixpoint digits_dot_digits1 (s : string) : bool :=
  match s with
  | EmptyString => false
  | String c s' =>
      if Ascii.eqb c "."%char then digits1 s'
      else (is_digit c && digits_dot_digits1 s')%bool
  end.

(** the [$] of a regular expression also matches before a final newline *)
Fixpoint strip_final_newline (s : string) : string :=
  match s with
  | EmptyString => EmptyString
  | String c EmptyString => if Ascii.eqb c "010"%char then EmptyString else s
  | String c s' => String c (strip_final_newline s')
  end.

(** [parser._negative_number_matcher]: [^-\d+$|^-\d*\.\d+$]. *)
Definition negative_number (s : string) : bool :=
  match s with
  | String "-" r =>
      let r := strip_final_newline r in
      (digits1 r || digits_dot_digits1 r)%bool
  | _ => false
  end.

Fixpoint contains_space (s : string) : bool :=
  match s with
  | EmptyString => false
  | String c s' => (Ascii.eqb c " "%char || contains_space s')%bool
  end.

(** [parser._get_option_tuples], for a string of two characters or more
    that starts with a dash: the registered options the string may
    abbreviate, each with the explicit argument it would carry. *)
Definition get_option_tuples (arg_string : string) : list (string * option string) :=
  match arg_string with
  | String "-" (String "-" _) =>
      let '(option_prefix, explicit_arg) :=
        match split_eq arg_string with
        | Some (p, e) => (p, Some e)
        | None => (arg_string, None)
        end in
      omap
        (fun o => if String.prefix option_prefix o then Some (o, explicit_arg) else None)
        option_strings
  | String "-" (String c r) =>
      let short_option_prefix := String "-" (String c EmptyString) in
      let short_explicit_arg := r in
      omap
        (fun o =>
           if String.eqb o short_option_prefix then Some (o, Some short_explicit_arg)
           else if String.prefix arg_string o then Some (o, None)
           else None)
        option_strings
  | _ => []
  end.

Inductive parsed_optional :=
| Positional
| Optional (o : string) (explicit_arg : option string)
| Ambiguous
| Unknown.

(** [parser._parse_optional]. *)
Definition parse_optional (arg_string : string) : parsed_optional :=
  match arg_string with
  | EmptyString => Positional
  | String c _ =>
      if negb (Ascii.eqb c "-"%char) then Positional
      else if is_registered arg_string then Optional arg_string None
      else if (String.length arg_string =? 1)%nat then Positional
      else
        match
          match split_eq arg_string with
          | Some (o, e) => if is_registered o then Some (o, e) else None
          | None => None
          end
        with
        | Some (o, e) => Optional o (Some e)
        | None =>
            match get_option_tuples arg_string with
            | _ :: _ :: _ => Ambiguous
            | [(o, e)] => Optional o e
            | [] =>
                if negative_number arg_string then Positional
                else if contains_space arg_string then Positional
                else Unknown
            end
        end
  end.

(** The option an argument string stands for, if any. *)
Definition option_of (arg_string : string) : option string :=
  match parse_optional arg_string with
  | Optional o _ => Some o
  | _ => None
  end.

(** A string that may serve as the value of an option: an ['A'] of the
    argument pattern. *)
Definition is_argument (arg_string : string) : bool :=
  (negb (String.eqb arg_string "--") &&
   match parse_optional arg_string with Positional => true | _ => false end)%bool.

Inductive outcome :=
| Parsed (namespace : gmap string value)
| SystemExit.

Record state := {
  namespace : gmap string value;
  seen_actions : list string;
  pending : option action;
}.

Definition initial : state :=
  {| namespace := foldl (fun ns a => <[dest a := default a]> ns) ∅ parser;
     seen_actions := [];
     pending := None |}.

Section Conversions.

(** [int(s)] and [float(s)] on a string; [None] is [ValueError]. *)
Variable int_of_str : string -> option Z.
Variable float_of_str : string -> option Q.

(** [parser._get_value]. *)
Definition get_value (a : action) (arg_string : string) : option value :=
  match type a with
  | type_str => Some (VStr arg_string)
  | type_int => VInt <$> int_of_str arg_string
  | type_float => VFloat <$> float_of_str arg_string
  end.

(** The store action: convert, set the attribute, note the action as seen. *)
Definition store (a : action) (arg_string : string) (st : state) : option state :=
  match get_value a arg_string with
  | Some v =>
      Some {| namespace := <[dest a := v]> (namespace st);
              seen_actions := option_string a :: seen_actions st;
              pending := None |}
  | None => None
  end.

(** One argument string; [None] ends the process. *)
Definition step (st : state) (arg_string : string) : option state :=
  match pending st with
  | Some a => if is_argument arg_string then store a arg_string st else None
  | None =>
      if String.eqb arg_string "--" then None
      else
        match parse_optional arg_string with
        | Optional o explicit_arg =>
            match find_action o option_string_actions with
            | Some (Store a) =>
                match explicit_arg with
                | Some v => store a v st
                | None =>
                    Some {| namespace := namespace st;
                            seen_actions := seen_actions st;
                            pending := Some a |}
                end
            | _ => None
            end
        | _ => None
        end
  end.

Definition missing_required (seen : list string) : list string :=
  List.filter (fun o => negb (existsb (String.eqb o) seen)) required_options.

Fixpoint consume (st : state) (argv : list string) : outcome :=
  match argv with
  | [] =>
      match pending st with
      | Some _ => SystemExit
      | None =>
          match missing_required (seen_actions st) with
          | [] => Parsed (namespace st)
          | _ :: _ => SystemExit
          end
      end
  | arg_string :: argv' =>
      match step st arg_string with
      | Some st' => consume st' argv'
      | None => SystemExit
      end
  end.

Definition parse_args (argv : list string) : outcome := consume initial argv.

End Conversions.

(** The state once a required option was given with a value. *)
Definition give (st : state) (given : string * string) : state :=
  {| namespace := <[dest_of (fst given) := VStr (snd given)]> (namespace st);
     seen_actions := fst given :: seen_actions st;
     pending := None |}.

(** A command line that gives options in the form [--option value]. *)
Definition command_line (given : list (string * string)) : list string :=
  flat_map (fun '(o, v) => [o; v]) given.

(** The value the last occurrence of an option carries. *)
Fixpoint last_value (o : string) (given : list (string * string)) : option string :=
  match given with
  | [] => None
  | (o', v) :: given' =>
      match last_value o given' with
      | Some v' => Some v'
      | None => if String.eqb o o' then Some v else None
      end
  end.

End Argparse.

(** ** Data of the script *)

Module Args.
(** The namespace [parse_args] returns, with the attributes typed. *)
Record t := {
  unet_config_path : string;
  inference_ckpt_path : string;
  video_path : string;
  audio_path : string;
  video_out_path : string;
  inference_steps : Z;
  guidance_scale : Q;
  seed : Z;
}.
End Args.

Module Config.
Record model_t := { cross_attention_dim : Z }.
Record data_t := { num_frames : Z; resolution : Z }.
(** The configuration tree [OmegaConf.load] returns, as far as the
    script reads it. *)
Record t := { model : model_t; data : data_t }.
End Config.

Inductive dtype := float16 | float32.

Module Ffmpeg.
(** [ffmpeg.input(input, ss=ss).output(output, t=t, **kwargs).run()]. *)
Record job := {
  input : string;
  ss : Q;
  output : string;
  t : Q;
  kwargs : list (string * option string);
}.
End Ffmpeg.

Module Pipeline.
(** The keyword arguments of one pipeline call (lines 218-229). *)
Record kwargs := {
  video_path : string;
  audio_path : string;
  video_out_path : string;
  video_mask_path : string;
  num_frames : Z;
  num_inference_steps : Z;
  guidance_scale : Q;
  weight_dtype : dtype;
  width : Z;
  height : Z;
}.
End Pipeline.

(** How the random number generators were last seeded: not by the script,
    by [set_seed(seed)], or by [torch.seed()] from a value drawn outside. *)
Inductive rng :=
| Unseeded
| Seeded (seed : Z)
| Reseeded (drawn : Z).

(** What the script observes of the outside world. *)
Record Env := {
  cuda_is_available : bool;
  cuda_get_device_capability : Z * Z;
  (* float(video_info["duration"]) for the first video stream of the
     report on a file *)
  ffprobe_video_duration : string -> Q;
  is_xformers_available : bool;
  (* the seed torch.seed() draws *)
  torch_seed : Z;
  (* torch.initial_seed(), given how the generators were last seeded *)
  torch_initial_seed : rng -> Z;
  OmegaConf_load : string -> Config.t;
}.

(** External calls with an effect, and prints. *)
Inductive event :=
| Print (s : string)
| Ffmpeg_probe (path cmd : string)
| Ffmpeg_run (j : Ffmpeg.job)
| DDIMScheduler_from_pretrained (name : string)
| Audio2Feature_init (model_path device : string) (num_frames : Z)
| AutoencoderKL_from_pretrained (name : string) (torch_dtype : dtype)
| Vae_config_set (attr : string) (x : Q)
| UNet3D_from_pretrained (model_config : Config.model_t) (ckpt device : string)
| UNet_to (d : dtype)
| UNet_enable_xformers
| LipsyncPipeline_to (device : string)
| Set_seed (seed : Z)
| Torch_seed
| Pipeline_call (kw : Pipeline.kwargs)
| Subprocess_run (cmd : list string) (check : bool).

Inductive exn :=
| NotImplementedError (msg : string)
| AttributeError
| SystemExit
| StopIteration
| KeyError (key : string)
| ValueError
| OverflowError
| ZeroDivisionError.

Inductive result (A : Type) :=
| Return (a : A)
| Raise (e : exn).

Arguments Return {A} a.
Arguments Raise {A} e.

(** A computation: the events it performed, and how it ended. *)
Definition M (A : Type) : Type := (list event * result A)%type.

Definition M_ret {A} (a : A) : M A := ([], Return a).

Definition M_bind {A B} (f : A -> M B) (m : M A) : M B :=
  match m with
  | (tr, Return a) => let '(tr', r) := f a in (tr ++ tr', r)
  | (tr, Raise e) => (tr, Raise e)
  end.

#[export] Instance M_mret : MRet M := @M_ret.
#[export] Instance M_mbind : MBind M := @M_bind.

Definition emit (e : event) : M unit := ([e], Return tt).
Definition raise {A} (e : exn) : M A := ([], Raise e).
Definition print (s : string) : M unit := emit (Print s).

Definition trace {A} (m : M A) : list event := fst m.
Definition outcome {A} (m : M A) : result A := snd m.

(** [for x in l: ys.append(body(x))]. *)
Fixpoint for_ {A B} (l : list A) (body : A -> M B) : M (list B) :=
  match l with
  | [] => mret []
  | x :: l' => y ← body x; ys ← for_ l' body; mret (y :: ys)
  end.

(** [enumerate(l)]. *)
Definition enumerate {A} (l : list A) : list (nat * A) := combine (seq 0 (length l)) l.

(** ** Helper functions of the script *)

(** Lines 30-47.  [video_job] is the stream specification
    [ffmpeg.input(..).output(..)] builds; [cut_video] runs it.  The
    length [t] is the exact difference; [Exec.cut_video] below computes
    it as Python does. *)
Definition video_job (input_path output_path : string) (start_time end_time : Q) : Ffmpeg.job :=
  {| Ffmpeg.input := input_path;
     Ffmpeg.ss := start_time;
     Ffmpeg.output := output_path;
     Ffmpeg.t := (end_time - start_time)%Q;
     Ffmpeg.kwargs :=
       [ ("y", Some "-y");
         ("crf", Some "28");
         ("c:v", Some "libx264");
         ("preset", Some "ultrafast");
         ("vf", Some "fps=30,format=yuv420p");
         ("c:a", Some "aac");
         ("strict", Some "experimental");
         ("hide_banner", None);
         ("loglevel", Some "error") ] |}.

Definition cut_video (input_path output_path : string) (start_time end_time : Q) : M string :=
  emit (Ffmpeg_run (video_job input_path output_path start_time end_time));;
  mret output_path.

(** Lines 49-63. *)
Definition audio_job (input_path output_path : string) (start_time end_time : Q) : Ffmpeg.job :=
  {| Ffmpeg.input := input_path;
     Ffmpeg.ss := start_time;
     Ffmpeg.output := output_path;
     Ffmpeg.t := (end_time - start_time)%Q;
     Ffmpeg.kwargs :=
       [ ("format", Some "mp3");
         ("acodec", Some "libmp3lame");
         ("audio_bitrate", Some "128k");
         ("y", Some "-y");
         ("hide_banner", None);
         ("loglevel", Some "error") ] |}.

Definition cut_audio (input_path output_path : string) (start_time end_time : Q) : M string :=
  emit (Ffmpeg_run (audio_job input_path output_path start_time end_time));;
  mret output_path.

(** Lines 65-100. *)
Definition concatenate_videos (video_paths : list string) (output_path : string) : M string :=
  let n := Z.of_nat (length video_paths) in
  let filter_args :=
    String.concat ""
      (map (fun i : nat =>
              let i := Py.str (Z.of_nat i) in
              "[" +:+ i +:+ ":v:0][" +:+ i +:+ ":a:0]")
           (Py.range n)) in
  let filter_args := filter_args +:+ "concat=n=" +:+ Py.str n +:+ ":v=1:a=1[v][a]" in
  let ffmpeg_cmd := ["ffmpeg"; "-y"] in
  let ffmpeg_cmd := foldl (fun cmd path => cmd ++ ["-i"; path]) ffmpeg_cmd video_paths in
  let ffmpeg_cmd :=
    ffmpeg_cmd ++
      [ "-filter_complex"; filter_args; "-hide_banner"; "-loglevel"; "error";
        "-map"; "[v]"; "-map"; "[a]"; "-c:v"; "libx264"; "-preset"; "ultrafast";
        "-crf"; "28"; "-r"; "30"; "-y"; output_path ] in
  emit (Subprocess_run ffmpeg_cmd true);;
  mret output_path.

(** ** [main] (lines 102-237)

    The run once the probe of lines 111-113 has given the duration
    [ffprobe_video_duration env path], in exact arithmetic. *)

Definition output_folder_path : string := "assets".

(** The float the literal [0.18215] of line 182 denotes. *)
Definition scaling_factor : Q := 6562645377004287 # 36028797018963968.

Definition main (env : Env) (config : Config.t) (args : Args.t) : M unit :=
  (* Check if the GPU supports float16 *)
  let is_fp16_supported :=
    (cuda_is_available env && (7 <? fst (cuda_get_device_capability env)))%bool in
  let dtype := if is_fp16_supported then float16 else float32 in
  print ("Input video path: " +:+ Args.video_path args);;
  print ("Input audio path: " +:+ Args.audio_path args);;
  print ("Loaded checkpoint path: " +:+ Args.inference_ckpt_path args);;
  emit (Ffmpeg_probe (Args.video_path args) "ffprobe");;
  let video_duration := ffprobe_video_duration env (Args.video_path args) in
  let total_segments := total_segments video_duration in
  cut_videos ←
    for_ (Py.range total_segments)
      (fun i =>
         let part := Py.str (Z.of_nat i + 1) in
         segment_video_output_path ←
           cut_video (Args.video_path args)
             (Py.os_path_join output_folder_path (part +:+ ".mp4"))
             (start_time i) (end_time video_duration i);
         mret segment_video_output_path);
  cut_audios ←
    for_ (Py.range total_segments)
      (fun i =>
         let part := Py.str (Z.of_nat i + 1) in
         segment_video_output_path ←
           cut_audio (Args.audio_path args)
             (Py.os_path_join output_folder_path (part +:+ ".mp3"))
             (start_time i) (end_time video_duration i);
         mret segment_video_output_path);
  emit (DDIMScheduler_from_pretrained "configs");;
  whisper_model_path ←
    (if Config.cross_attention_dim (Config.model config) =? 768
     then mret "checkpoints/whisper/small.pt"
     else if Config.cross_attention_dim (Config.model config) =? 384
     then mret "checkpoints/whisper/tiny.pt"
     else raise (NotImplementedError "cross_attention_dim must be 768 or 384"));
  emit (Audio2Feature_init whisper_model_path "cuda" (Config.num_frames (Config.data config)));;
  emit (AutoencoderKL_from_pretrained "stabilityai/sd-vae-ft-mse" dtype);;
  emit (Vae_config_set "scaling_factor" scaling_factor);;
  emit (Vae_config_set "shift_factor" 0);;
  emit (UNet3D_from_pretrained (Config.model config) (Args.inference_ckpt_path args) "cpu");;
  emit (UNet_to dtype);;
  (* set xformers *)
  (if is_xformers_available env then emit UNet_enable_xformers else mret tt);;
  emit (LipsyncPipeline_to "cuda");;
  generator ←
    (if negb (Args.seed args =? -1)
     then emit (Set_seed (Args.seed args));; mret (Seeded (Args.seed args))
     else emit Torch_seed;; mret (Reseeded (torch_seed env)));
  print ("Initial seed: " +:+ Py.str (torch_initial_seed env generator));;
  outputs ←
    for_ (enumerate (combine cut_videos cut_audios))
      (fun '(i, (video_path, audio_path)) =>
         print ("Processing segment " +:+ Py.str (Z.of_nat i + 1) +:+ "/" +:+ Py.str total_segments);;
         let video_out_path := "output_" +:+ Py.str (Z.of_nat i + 1) +:+ ".mp4" in
         emit (Pipeline_call
                 {| Pipeline.video_path := video_path;
                    Pipeline.audio_path := audio_path;
                    Pipeline.video_out_path := video_out_path;
                    Pipeline.video_mask_path := Py.replace video_out_path ".mp4" "_mask.mp4";
                    Pipeline.num_frames := Config.num_frames (Config.data config);
                    Pipeline.num_inference_steps := Args.inference_steps args;
                    Pipeline.guidance_scale := Args.guidance_scale args;
                    Pipeline.weight_dtype := dtype;
                    Pipeline.width := Config.resolution (Config.data config);
                    Pipeline.height := Config.resolution (Config.data config) |});;
         mret video_out_path);
  print "Combining segments...";;
  concatenate_videos outputs (Args.video_out_path args);;
  print (Args.video_out_path args).

(** ** The script body (lines 239-253) *)

Definition attr_str (ns : gmap string Argparse.value) (name : string) : option string :=
  match ns !! name with Some (Argparse.VStr s) => Some s | _ => None end.

Definition attr_int (ns : gmap string Argparse.value) (name : string) : option Z :=
  match ns !! name with Some (Argparse.VInt n) => Some n | _ => None end.

Definition attr_float (ns : gmap string Argparse.value) (name : string) : option Q :=
  match ns !! name with Some (Argparse.VFloat x) => Some x | _ => None end.

(** The attributes [main] and the script body read from [args]. *)
Definition args_of_namespace (ns : gmap string Argparse.value) : option Args.t :=
  unet_config_path ← attr_str ns "unet_config_path";
  inference_ckpt_path ← attr_str ns "inference_ckpt_path";
  video_path ← attr_str ns "video_path";
  audio_path ← attr_str ns "audio_path";
  video_out_path ← attr_str ns "video_out_path";
  inference_steps ← attr_int ns "inference_steps";
  guidance_scale ← attr_float ns "guidance_scale";
  seed ← attr_int ns "seed";
  Some {| Args.unet_config_path := unet_config_path;
          Args.inference_ckpt_path := inference_ckpt_path;
          Args.video_path := video_path;
          Args.audio_path := audio_path;
          Args.video_out_path := video_out_path;
          Args.inference_steps := inference_steps;
          Args.guidance_scale := guidance_scale;
          Args.seed := seed |}.

Definition script (int_of_str : string -> option Z) (float_of_str : string -> option Q)
    (env : Env) (argv : list string) : M unit :=
  match Argparse.parse_args int_of_str float_of_str argv with
  | Argparse.SystemExit => raise SystemExit
  | Argparse.Parsed ns =>
      match args_of_namespace ns with
      | None => raise AttributeError
      | Some args =>
          let config := OmegaConf_load env (Args.unet_config_path args) in
          main env config args
      end
  end.

(** ** Reading a run *)

(** Lines 104-105. *)
Definition is_fp16_supported (env : Env) : bool :=
  (cuda_is_available env && (7 <? fst (cuda_get_device_capability env)))%bool.

Definition weight_dtype (env : Env) : dtype :=
  if is_fp16_supported env then float16 else float32.

(** The configurations the test of lines 172-177 lets through. *)
Definition supported (config : Config.t) : bool :=
  ((Config.cross_attention_dim (Config.model config) =? 768)
   || (Config.cross_attention_dim (Config.model config) =? 384))%bool.

(** The files of segment [i] (counted from 0): the clips the cutting
    loops write and the output the pipeline is asked for. *)
Definition video_clip (i : nat) : string :=
  Py.os_path_join output_folder_path (Py.str (Z.of_nat i + 1) +:+ ".mp4").

Definition audio_clip (i : nat) : string :=
  Py.os_path_join output_folder_path (Py.str (Z.of_nat i + 1) +:+ ".mp3").

Definition output_name (i : nat) : string :=
  "output_" +:+ Py.str (Z.of_nat i + 1) +:+ ".mp4".

Definition pipeline_calls (tr : list event) : list Pipeline.kwargs :=
  omap (fun e => match e with Pipeline_call kw => Some kw | _ => None end) tr.

Definition ffmpeg_jobs (tr : list event) : list Ffmpeg.job :=
  omap (fun e => match e with Ffmpeg_run j => Some j | _ => None end) tr.

Definition subprocess_runs (tr : list event) : list (list string) :=
  omap (fun e => match e with Subprocess_run cmd _ => Some cmd | _ => None end) tr.

Definition is_set_seed (e : event) : bool :=
  match e with Set_seed _ => true | _ => false end.

Definition is_torch_seed (e : event) : bool :=
  match e with Torch_seed => true | _ => false end.

Definition is_pipeline_call (e : event) : bool :=
  match e with Pipeline_call _ => true | _ => false end.

(** The steps that handle a segment: a cut or a pipeline call. *)
Definition is_segment_step (e : event) : bool :=
  match e with Ffmpeg_run _ | Pipeline_call _ => true | _ => false end.

Definition count (p : event -> bool) (tr : list event) : nat :=
  length (List.filter p tr).


(** The phase of a top-level step: probe, cut, pipeline, concatenate. *)
Definition phase (e : event) : option nat :=
  match e with
  | Ffmpeg_probe _ _ => Some 0%nat
  | Ffmpeg_run _ => Some 1%nat
  | Pipeline_call _ => Some 2%nat
  | Subprocess_run _ _ => Some 3%nat
  | _ => None
  end.

Definition phases (tr : list event) : list nat := omap phase tr.




(** How the generators are seeded once an event has happened. *)
Definition reseed (drawn : Z) (g : rng) (e : event) : rng :=
  match e with
  | Set_seed seed => Seeded seed
  | Torch_seed => Reseeded drawn
  | _ => g
  end.

(** An event that neither seeds the generators nor calls the pipeline. *)
Definition quiet (e : event) : bool :=
  match e with
  | Set_seed _ | Torch_seed | Pipeline_call _ => false
  | _ => true
  end.

(** The seeding in force when the first pipeline call starts. *)
Fixpoint rng_at_first_call (drawn : Z) (g : rng) (tr : list event) : option rng :=
  match tr with
  | [] => None
  | Pipeline_call _ :: _ => Some g
  | e :: tr' => rng_at_first_call drawn (reseed drawn g e) tr'
  end.

(** The ffmpeg command line [concatenate_videos] runs, in closed form. *)
Definition concat_command (video_paths : list string) (output_path : string) : list string :=
  ["ffmpeg"; "-y"] ++ flat_map (fun path => ["-i"; path]) video_paths ++
  [ "-filter_complex";
    String.concat ""
      (map (fun i : nat => "[" +:+ Py.str (Z.of_nat i) +:+ ":v:0][" +:+ Py.str (Z.of_nat i) +:+ ":a:0]")
           (seq 0 (length video_paths)))
    +:+ "concat=n=" +:+ Py.str (Z.of_nat (length video_paths)) +:+ ":v=1:a=1[v][a]";
    "-hide_banner"; "-loglevel"; "error";
    "-map"; "[v]"; "-map"; "[a]"; "-c:v"; "libx264"; "-preset"; "ultrafast";
    "-crf"; "28"; "-r"; "30"; "-y"; output_path ].

(** The keyword arguments of the pipeline call of segment [i]. *)
Definition pipeline_kwargs (env : Env) (config : Config.t) (args : Args.t) (i : nat)
  : Pipeline.kwargs :=
  {| Pipeline.video_path := video_clip i;
     Pipeline.audio_path := audio_clip i;
     Pipeline.video_out_path := output_name i;
     Pipeline.video_mask_path := Py.replace (output_name i) ".mp4" "_mask.mp4";
     Pipeline.num_frames := Config.num_frames (Config.data config);
     Pipeline.num_inference_steps := Args.inference_steps args;
     Pipeline.guidance_scale := Args.guidance_scale args;
     Pipeline.weight_dtype := weight_dtype env;
     Pipeline.width := Config.resolution (Config.data config);
     Pipeline.height := Config.resolution (Config.data config) |}.

(** The steps of a run, phase by phase, in closed form. *)

Definition probe_steps (args : Args.t) : list event :=
  [ Print ("Input video path: " +:+ Args.video_path args);
    Print ("Input audio path: " +:+ Args.audio_path args);
    Print ("Loaded checkpoint path: " +:+ Args.inference_ckpt_path args);
    Ffmpeg_probe (Args.video_path args) "ffprobe" ].

Definition video_cut_steps (args : Args.t) (d : Q) : list event :=
  map
    (fun i => Ffmpeg_run (video_job (Args.video_path args) (video_clip i) (start_time i) (end_time d i)))
    (Py.range (total_segments d)).

Definition audio_cut_steps (args : Args.t) (d : Q) : list event :=
  map
    (fun i => Ffmpeg_run (audio_job (Args.audio_path args) (audio_clip i) (start_time i) (end_time d i)))
    (Py.range (total_segments d)).

Definition whisper_model_path (config : Config.t) : string :=
  if Config.cross_attention_dim (Config.model config) =? 768
  then "checkpoints/whisper/small.pt"
  else "checkpoints/whisper/tiny.pt".

Definition load_steps (env : Env) (config : Config.t) (args : Args.t) : list event :=
  [ Audio2Feature_init (whisper_model_path config) "cuda" (Config.num_frames (Config.data config));
    AutoencoderKL_from_pretrained "stabilityai/sd-vae-ft-mse" (weight_dtype env);
    Vae_config_set "scaling_factor" scaling_factor;
    Vae_config_set "shift_factor" 0;
    UNet3D_from_pretrained (Config.model config) (Args.inference_ckpt_path args) "cpu";
    UNet_to (weight_dtype env) ] ++
  (if is_xformers_available env then [UNet_enable_xformers] else []) ++
  [ LipsyncPipeline_to "cuda" ].

Definition seeded (env : Env) (args : Args.t) : rng :=
  if negb (Args.seed args =? -1) then Seeded (Args.seed args) else Reseeded (torch_seed env).

Definition seed_steps (env : Env) (args : Args.t) : list event :=
  (if negb (Args.seed args =? -1) then [Set_seed (Args.seed args)] else [Torch_seed]) ++
  [ Print ("Initial seed: " +:+ Py.str (torch_initial_seed env (seeded env args))) ].

Definition pipeline_steps (env : Env) (config : Config.t) (args : Args.t) (d : Q) : list event :=
  flat_map
    (fun i =>
       [ Print ("Processing segment " +:+ Py.str (Z.of_nat i + 1) +:+ "/" +:+ Py.str (total_segments d));
         Pipeline_call (pipeline_kwargs env config args i) ])
    (Py.range (total_segments d)).

Definition concat_steps (args : Args.t) (d : Q) : list event :=
  [ Print "Combining segments...";
    Subprocess_run
      (concat_command (map output_name (Py.range (total_segments d))) (Args.video_out_path args))
      true;
    Print (Args.video_out_path args) ].

(** The exception of line 177. *)
Definition NotImplemented : exn := NotImplementedError "cross_attention_dim must be 768 or 384".

(** ** Sample inputs *)

Definition env_of (d : Q) : Env :=
  {| cuda_is_available := true;
     cuda_get_device_capability := (8, 6);
     ffprobe_video_duration := fun _ => d;
     is_xformers_available := false;
     torch_seed := 42;
     torch_initial_seed := fun g => match g with Seeded s => s | Reseeded s => s | Unseeded => 0 end;
     OmegaConf_load := fun _ =>
       {| Config.model := {| Config.cross_attention_dim := 384 |};
          Config.data := {| Config.num_frames := 16; Config.resolution := 256 |} |} |}.

Definition config_of (dim : Z) : Config.t :=
  {| Config.model := {| Config.cross_attention_dim := dim |};
     Config.data := {| Config.num_frames := 16; Config.resolution := 256 |} |}.

Definition args_of (seed : Z) : Args.t :=
  {| Args.unet_config_path := "configs/unet.yaml";
     Args.inference_ckpt_path := "latentsync_unet.pt";
     Args.video_path := "demo.mp4";
     Args.audio_path := "demo.wav";
     Args.video_out_path := "video_out.mp4";
     Args.inference_steps := 20;
     Args.guidance_scale := 1;
     Args.seed := seed |}.

(** ** Further readings of a run *)

(** The sum of a list of lengths. *)
Definition Qsum (l : list Q) : Q := fold_right Qplus 0%Q l.

(** The length of the clip of segment [i]: the [t] both cut functions
    compute from the boundaries. *)
Definition clip_length (video_duration : Q) (i : nat) : Q :=
  (end_time video_duration i - start_time i)%Q.

(** The files an ffmpeg command line names as inputs: the operands of the
    [-i] options that follow the two leading words. *)
Fixpoint read_inputs (cmd : list string) : list string :=
  match cmd with
  | flag :: path :: cmd' =>
      if String.eqb flag "-i" then path :: read_inputs cmd' else []
  | _ => []
  end.

Definition inputs_of (cmd : list string) : list string := read_inputs (skipn 2 cmd).

(** ** Well-formed parser states *)

Module ArgparseTypes.
Import Argparse.

(** A value of the type an option declares. *)
Definition typed (ty : arg_type) (v : value) : bool :=
  match ty, v with
  | type_str, VStr _ => true
  | type_int, VInt _ => true
  | type_float, VFloat _ => true
  | _, _ => false
  end.

(** Every attribute of the parser is set; it holds a value of the declared
    type, or still the default while its option was not seen; an option
    that waits for its value is one of the parser. *)
Definition well_formed (st : state) : Prop :=
  (forall a, In a parser ->
     exists v, namespace st !! dest a = Some v /\
               (typed (type a) v = true \/
                v = default a /\ ~ In (option_string a) (seen_actions st))) /\
  (forall a, pending st = Some a -> In a parser).

End ArgparseTypes.

(** ** What a run prints *)



(** * The run as the interpreter executes it

    [main] above is the run in exact arithmetic, from a duration the
    probe is taken to have given.  [Exec.main] is the whole function:
    lines 111-113 read the report of ffprobe and can fail, the duration is
    a float, and lines 117-122 and the [end_time - start_time] of the
    cut functions compute on it as CPython does.  The properties below
    relate the two. *)

Module Probe.
(** A stream of the report, as far as lines 112 and 113 read it:
    [s["codec_type"]] (ffprobe gives it for every stream), and
    [s["duration"]] when the stream has the key. *)
Record stream := {
  codec_type : string;
  duration : option string;
}.
End Probe.

Module Exec.

(** A Python number: an [int] or a [float]. *)
Inductive number :=
| Int (n : Z)
| Float (x : Binary64.t).

(** [ffmpeg.input(input, ss=ss).output(output, t=t, **kwargs).run()],
    with the numbers as Python passes them. *)
Record job := {
  input : string;
  ss : number;
  output : string;
  t : number;
  kwargs : list (string * option string);
}.

Inductive step :=
| Cut (j : job)
| Step (e : event).

(** A computation: its steps, and how it ended. *)
Definition run (A : Type) : Type := (list step * result A)%type.

Definition run_ret {A} (a : A) : run A := ([], Return a).

Definition run_bind {A B} (f : A -> run B) (m : run A) : run B :=
  match m with
  | (tr, Return a) => let '(tr', r) := f a in (tr ++ tr', r)
  | (tr, Raise e) => (tr, Raise e)
  end.

#[global] Instance run_mret : MRet run := @run_ret.
#[global] Instance run_mbind : MBind run := @run_bind.

Definition emit (e : event) : run unit := ([Step e], Return tt).
Definition ffmpeg_run (j : job) : run unit := ([Cut j], Return tt).
Definition raise {A} (e : exn) : run A := ([], Raise e).
Definition print (s : string) : run unit := emit (Print s).

(** A helper that computes on no number. *)
Definition lift {A} (m : M A) : run A := (map Step (fst m), snd m).

Definition trace {A} (m : run A) : list step := fst m.
Definition outcome {A} (m : run A) : result A := snd m.

Fixpoint for_ {A B} (l : list A) (body : A -> run B) : run (list B) :=
  match l with
  | [] => mret []
  | x :: l' => y ← body x; ys ← for_ l' body; mret (y :: ys)
  end.

(** [next(iterator)]. *)
Definition next {A} (l : list A) : run A :=
  match l with
  | x :: _ => mret x
  | [] => raise StopIteration
  end.

(** [float(n)] for an [int], as the arithmetic of a float with an int
    converts the int ([PyLong_AsDouble]). *)
Definition float_of_int (n : Z) : run Binary64.t :=
  match Binary64.of_int n with
  | Binary64.Infinity _ => raise OverflowError
  | x => mret x
  end.

(** [_float_div_mod] of CPython's [floatobject.c], for [wx] not zero. *)
Definition float_div_mod (vx wx : Binary64.t) : Binary64.t * Binary64.t :=
  let mod_ := Binary64.fmod vx wx in
  let div := Binary64.div (Binary64.sub vx mod_) wx in
  let '(mod_, div) :=
    if negb (Binary64.is_zero mod_)
    then
      (* ensure the remainder has the same sign as the denominator *)
      if negb (Bool.eqb (Binary64.ltb wx (Binary64.Finite 0))
                        (Binary64.ltb mod_ (Binary64.Finite 0)))
      then (Binary64.add mod_ wx, Binary64.sub div (Binary64.Finite 1))
      else (mod_, div)
    else (Binary64.Finite 0, div) in
  (* snap quotient to nearest integral value *)
  let floordiv :=
    if negb (Binary64.is_zero div)
    then
      let floordiv := Binary64.floor div in
      if Binary64.ltb (Binary64.Finite (1 # 2)) (Binary64.sub div floordiv)
      then Binary64.add floordiv (Binary64.Finite 1)
      else floordiv
    else Binary64.Finite 0 in
  (floordiv, mod_).

(** [v // w] on floats ([float_floor_div]). *)
Definition float_floor_div (v w : Binary64.t) : run Binary64.t :=
  if Binary64.is_zero w then raise ZeroDivisionError
  else mret (fst (float_div_mod v w)).

(** [v % w] on floats ([float_rem]). *)
Definition float_rem (v w : Binary64.t) : run Binary64.t :=
  if Binary64.is_zero w then raise ZeroDivisionError
  else
    let mod_ := Binary64.fmod v w in
    mret
      (if negb (Binary64.is_zero mod_)
       then
         if negb (Bool.eqb (Binary64.ltb w (Binary64.Finite 0))
                           (Binary64.ltb mod_ (Binary64.Finite 0)))
         then Binary64.add mod_ w
         else mod_
       else Binary64.Finite 0).

(** [int(x)] for a float. *)
Definition int (x : Binary64.t) : run Z :=
  match x with
  | Binary64.Finite x => mret (Py.int x)
  | Binary64.Infinity _ => raise OverflowError
  | Binary64.NaN => raise ValueError
  end.

(** [min(n, x)] for an int and a float: the int unless the float is
    smaller.  Python compares an int with a float exactly. *)
Definition min (n : Z) (x : Binary64.t) : number :=
  if Binary64.ltb x (Binary64.Finite (inject_Z n)) then Float x else Int n.

(** [a - n] for a number and an int. *)
Definition sub (a : number) (n : Z) : run number :=
  match a with
  | Int m => mret (Int (m - n))
  | Float x => y ← float_of_int n; mret (Float (Binary64.sub x y))
  end.

(** Lines 117-122. *)
Definition total_segments (video_duration : Binary64.t) : run Z :=
  if Binary64.leb video_duration (Binary64.Finite (inject_Z segment_duration))
  then mret 1
  else
    w ← float_of_int segment_duration;
    q ← float_floor_div video_duration w;
    total_segments ← int q;
    w ← float_of_int segment_duration;
    r ← float_rem video_duration w;
    if negb (Binary64.is_zero r) then mret (total_segments + 1) else mret total_segments.

(** Lines 131-134 and 153-156. *)
Definition start_time (i : nat) : Z := Z.of_nat i * segment_duration.

Definition end_time (video_duration : Binary64.t) (i : nat) : number :=
  min ((Z.of_nat i + 1) * segment_duration) video_duration.

(** Lines 30-47. *)
Definition video_job (input_path output_path : string) (start_time : Z) (t : number) : job :=
  {| input := input_path;
     ss := Int start_time;
     output := output_path;
     t := t;
     kwargs :=
       [ ("y", Some "-y");
         ("crf", Some "28");
         ("c:v", Some "libx264");
         ("preset", Some "ultrafast");
         ("vf", Some "fps=30,format=yuv420p");
         ("c:a", Some "aac");
         ("strict", Some "experimental");
         ("hide_banner", None);
         ("loglevel", Some "error") ] |}.

Definition cut_video (input_path output_path : string) (start_time : Z) (end_time : number)
  : run string :=
  t ← sub end_time start_time;
  ffmpeg_run (video_job input_path output_path start_time t);;
  mret output_path.

(** Lines 49-63. *)
Definition audio_job (input_path output_path : string) (start_time : Z) (t : number) : job :=
  {| input := input_path;
     ss := Int start_time;
     output := output_path;
     t := t;
     kwargs :=
       [ ("format", Some "mp3");
         ("acodec", Some "libmp3lame");
         ("audio_bitrate", Some "128k");
         ("y", Some "-y");
         ("hide_banner", None);
         ("loglevel", Some "error") ] |}.

Definition cut_audio (input_path output_path : string) (start_time : Z) (end_time : number)
  : run string :=
  t ← sub end_time start_time;
  ffmpeg_run (audio_job input_path output_path start_time t);;
  mret output_path.

(** Lines 102-237.  [float_of_str] is [float] on a string ([None]: a
    [ValueError]); [ffprobe] gives the streams of the report on a file. *)
Definition main (float_of_str : string -> option Binary64.t)
    (ffprobe : string -> list Probe.stream)
    (env : Env) (config : Config.t) (args : Args.t) : run unit :=
  (* Check if the GPU supports float16 *)
  let is_fp16_supported :=
    (cuda_is_available env && (7 <? fst (cuda_get_device_capability env)))%bool in
  let dtype := if is_fp16_supported then float16 else float32 in
  print ("Input video path: " +:+ Args.video_path args);;
  print ("Input audio path: " +:+ Args.audio_path args);;
  print ("Loaded checkpoint path: " +:+ Args.inference_ckpt_path args);;
  emit (Ffmpeg_probe (Args.video_path args) "ffprobe");;
  let video_probe := ffprobe (Args.video_path args) in
  video_info ←
    next (List.filter (fun s => String.eqb (Probe.codec_type s) "video") video_probe);
  duration ←
    match Probe.duration video_info with
    | Some duration => mret duration
    | None => raise (KeyError "duration")
    end;
  video_duration ←
    match float_of_str duration with
    | Some x => mret x
    | None => raise ValueError
    end;
  total_segments ← total_segments video_duration;
  cut_videos ←
    for_ (Py.range total_segments)
      (fun i =>
         let part := Py.str (Z.of_nat i + 1) in
         segment_video_output_path ←
           cut_video (Args.video_path args)
             (Py.os_path_join output_folder_path (part +:+ ".mp4"))
             (start_time i) (end_time video_duration i);
         mret segment_video_output_path);
  cut_audios ←
    for_ (Py.range total_segments)
      (fun i =>
         let part := Py.str (Z.of_nat i + 1) in
         segment_video_output_path ←
           cut_audio (Args.audio_path args)
             (Py.os_path_join output_folder_path (part +:+ ".mp3"))
             (start_time i) (end_time video_duration i);
         mret segment_video_output_path);
  emit (DDIMScheduler_from_pretrained "configs");;
  whisper_model_path ←
    (if Config.cross_attention_dim (Config.model config) =? 768
     then mret "checkpoints/whisper/small.pt"
     else if Config.cross_attention_dim (Config.model config) =? 384
     then mret "checkpoints/whisper/tiny.pt"
     else raise (NotImplementedError "cross_attention_dim must be 768 or 384"));
  emit (Audio2Feature_init whisper_model_path "cuda" (Config.num_frames (Config.data config)));;
  emit (AutoencoderKL_from_pretrained "stabilityai/sd-vae-ft-mse" dtype);;
  emit (Vae_config_set "scaling_factor" scaling_factor);;
  emit (Vae_config_set "shift_factor" 0);;
  emit (UNet3D_from_pretrained (Config.model config) (Args.inference_ckpt_path args) "cpu");;
  emit (UNet_to dtype);;
  (* set xformers *)
  (if is_xformers_available env then emit UNet_enable_xformers else mret tt);;
  emit (LipsyncPipeline_to "cuda");;
  generator ←
    (if negb (Args.seed args =? -1)
     then emit (Set_seed (Args.seed args));; mret (Seeded (Args.seed args))
     else emit Torch_seed;; mret (Reseeded (torch_seed env)));
  print ("Initial seed: " +:+ Py.str (torch_initial_seed env generator));;
  outputs ←
    for_ (enumerate (combine cut_videos cut_audios))
      (fun '(i, (video_path, audio_path)) =>
         print ("Processing segment " +:+ Py.str (Z.of_nat i + 1) +:+ "/" +:+ Py.str total_segments);;
         let video_out_path := "output_" +:+ Py.str (Z.of_nat i + 1) +:+ ".mp4" in
         emit (Pipeline_call
                 {| Pipeline.video_path := video_path;
                    Pipeline.audio_path := audio_path;
                    Pipeline.video_out_path := video_out_path;
                    Pipeline.video_mask_path := Py.replace video_out_path ".mp4" "_mask.mp4";
                    Pipeline.num_frames := Config.num_frames (Config.data config);
                    Pipeline.num_inference_steps := Args.inference_steps args;
                    Pipeline.guidance_scale := Args.guidance_scale args;
                    Pipeline.weight_dtype := dtype;
                    Pipeline.width := Config.resolution (Config.data config);
                    Pipeline.height := Config.resolution (Config.data config) |});;
         mret video_out_path);
  print "Combining segments...";;
  lift (concatenate_videos outputs (Args.video_out_path args));;
  print (Args.video_out_path args).

(** ** Reading a run by the values of its numbers *)

(** The rational a finite number is. *)
Definition value (x : number) : option Q :=
  match x with
  | Int n => Some (inject_Z n)
  | Float (Binary64.Finite x) => Some x
  | Float _ => None
  end.

Definition value_job (j : job) : option Ffmpeg.job :=
  ss ← value (ss j);
  t ← value (t j);
  Some {| Ffmpeg.input := input j;
          Ffmpeg.ss := ss;
          Ffmpeg.output := output j;
          Ffmpeg.t := t;
          Ffmpeg.kwargs := kwargs j |}.

Definition value_step (s : step) : option event :=
  match s with
  | Step e => Some e
  | Cut j => j' ← value_job j; Some (Ffmpeg_run j')
  end.

(** The run with every number replaced by its value; there is none when
    a cut was given an infinity or a NaN. *)
Definition values {A} (m : run A) : option (M A) :=
  tr ← mapM value_step (trace m);
  Some (tr, outcome m).

(** The cuts of a run, and its other steps. *)
Definition cuts (tr : list step) : list job :=
  omap (fun s => match s with Cut j => Some j | Step _ => None end) tr.

Definition steps (tr : list step) : list event :=
  omap (fun s => match s with Step e => Some e | Cut _ => None end) tr.

(** The probe of lines 111-113 reads the duration [x]: the report on the
    file has a video stream, the first one has a duration, and [float]
    reads it as [x]. *)
Definition reads (float_of_str : string -> option Binary64.t)
    (ffprobe : string -> list Probe.stream) (path : string) (x : Binary64.t) : Prop :=
  exists video_info rest duration,
    List.filter (fun s => String.eqb (Probe.codec_type s) "video") (ffprobe path) =
      video_info :: rest /\
    Probe.duration video_info = Some duration /\
    float_of_str duration = Some x.

End Exec.

(** The environment in which the probe gave the duration [d]. *)
Definition with_duration (env : Env) (d : Q) : Env :=
  {| cuda_is_available := cuda_is_available env;
     cuda_get_device_capability := cuda_get_device_capability env;
     ffprobe_video_duration := fun _ => d;
     is_xformers_available := is_xformers_available env;
     torch_seed := torch_seed env;
     torch_initial_seed := torch_initial_seed env;
     OmegaConf_load := OmegaConf_load env |}.

(** Sample reports: an audio stream, and a video stream with the given
    duration; an audio stream only. *)
Definition report_of (duration : string) : string -> list Probe.stream :=
  fun _ =>
    [ {| Probe.codec_type := "audio"; Probe.duration := Some "12.010000" |};
      {| Probe.codec_type := "video"; Probe.duration := Some duration |} ].

Definition audio_only : string -> list Probe.stream :=
  fun _ => [ {| Probe.codec_type := "audio"; Probe.duration := Some "12.010000" |} ].

(** [float] on the one string [s]. *)
Definition float_of (s : string) (x : Binary64.t) : string -> option Binary64.t :=
  fun s' => if String.eqb s' s then Some x else None.

(** * Properties *)

(** ** The definitions at work *)

Example total_segments_12 : total_segments (12 # 1) = 3.
Proof. reflexivity. Qed.

Example total_segments_10 : total_segments (10 # 1) = 2.
Proof. reflexivity. Qed.

Example total_segments_short_clip : total_segments (7 # 2) = 1.
Proof. reflexivity. Qed.

Example total_segments_just_over : total_segments (51 # 10) = 2.
Proof. reflexivity. Qed.

Example replace_mask :
  Py.replace "output_3.mp4" ".mp4" "_mask.mp4" = "output_3_mask.mp4".
Proof. reflexivity. Qed.

Example video_clip_2 : video_clip 2 = "assets/3.mp4".
Proof. reflexivity. Qed.

Example parse_optional_exact :
  Argparse.parse_optional "--seed" = Argparse.Optional "--seed" None.
Proof. reflexivity. Qed.

Example parse_optional_abbreviation :
  Argparse.parse_optional "--video_p=in.mp4" =
  Argparse.Optional "--video_path" (Some "in.mp4").
Proof. reflexivity. Qed.

Example parse_optional_ambiguous :
  Argparse.parse_optional "--inference" = Argparse.Ambiguous.
Proof. reflexivity. Qed.

Example parse_optional_negative_number :
  Argparse.parse_optional "-1" = Argparse.Positional.
Proof. reflexivity. Qed.

Example parse_args_four_options :
  match
    Argparse.parse_args (fun _ => None) (fun _ => None)
      [ "--video_out_path"; "video_out.mp4"; "--inference_ckpt_path"; "latentsync_unet.pt";
        "--audio_path"; "demo.wav"; "--video_path"; "demo.mp4" ]
  with
  | Argparse.Parsed ns => args_of_namespace ns
  | Argparse.SystemExit => None
  end = Some (args_of 1247).
Proof. reflexivity. Qed.

Example parse_args_help :
  Argparse.parse_args (fun _ => None) (fun _ => None) ["--help"] = Argparse.SystemExit.
Proof. reflexivity. Qed.

Example run_phases :
  phases (trace (main (env_of (12 # 1)) (config_of 384) (args_of 1247))) =
  [0; 1; 1; 1; 1; 1; 1; 2; 2; 2; 3]%nat.
Proof. reflexivity. Qed.

Example run_concatenation :
  subprocess_runs (trace (main (env_of (12 # 1)) (config_of 384) (args_of 1247))) =
  [ [ "ffmpeg"; "-y"; "-i"; "output_1.mp4"; "-i"; "output_2.mp4"; "-i"; "output_3.mp4";
      "-filter_complex";
      "[0:v:0][0:a:0][1:v:0][1:a:0][2:v:0][2:a:0]concat=n=3:v=1:a=1[v][a]";
      "-hide_banner"; "-loglevel"; "error"; "-map"; "[v]"; "-map"; "[a]";
      "-c:v"; "libx264"; "-preset"; "ultrafast"; "-crf"; "28"; "-r"; "30"; "-y";
      "video_out.mp4" ] ].
Proof. reflexivity. Qed.

Example run_unsupported :
  outcome (main (env_of (12 # 1)) (config_of 512) (args_of 1247)) = Raise NotImplemented.
Proof. reflexivity. Qed.

(** ** The segment-count rule *)

Section SegmentCount.

Local Open Scope Q_scope.

Lemma inject_Z_lt_inv (a b : Z) : inject_Z a < inject_Z b -> (a < b)%Z.
Proof. rewrite <- Zlt_Qlt. trivial. Qed.

(** An integer is the ceiling of [x] when [x] lies in the unit interval below it. *)
Lemma Qceiling_unique (x : Q) (c : Z) :
inject_Z (c - 1) < x -> x <= inject_Z c -> Qceiling x = c.
Proof.
intros Hlo Hhi.
pose proof (Qle_ceiling x) as H1.
pose proof (Qceiling_lt x) as H2.
assert (c - 1 < Qceiling x)%Z by (apply inject_Z_lt_inv; eapply Qlt_le_trans; eauto).
assert (Qceiling x - 1 < c)%Z by (apply inject_Z_lt_inv; eapply Qlt_le_trans; eauto).
lia.
Qed.

Lemma Qfloor_unique (x : Q) (c : Z) :
inject_Z c <= x -> x < inject_Z (c + 1) -> Qfloor x = c.
Proof.
intros Hlo Hhi.
pose proof (Qfloor_le x) as H1.
pose proof (Qlt_floor x) as H2.
assert (c < Qfloor x + 1)%Z by (apply inject_Z_lt_inv; eapply Qle_lt_trans; eauto).
assert (Qfloor x < c + 1)%Z by (apply inject_Z_lt_inv; eapply Qle_lt_trans; eauto).
lia.
Qed.

Lemma int_inject_Z (z : Z) : Py.int (inject_Z z) = z.
Proof. unfold Py.int. simpl. apply Z.quot_1_r. Qed.

Lemma div5 (d : Q) : d == 5 * (d / 5).
Proof. field. Qed.

Lemma is_multiple_iff (d : Q) :
is_multiple d <-> d / 5 == inject_Z (Qfloor (d / 5)).
Proof.
unfold is_multiple, segment_duration. split.
- intros [k Hk].
  assert (Hd : d / 5 == inject_Z k).
  { rewrite Hk, inject_Z_mult. field. }
  rewrite Hd, Qfloor_Z. reflexivity.
- intros H. exists (Qfloor (d / 5)).
  rewrite inject_Z_mult, <- H. change (inject_Z 5) with 5. field.
Qed.

Lemma mod_zero_iff (d : Q) :
Qeq_bool (Py.mod_ d (inject_Z segment_duration)) 0 = true <-> is_multiple d.
Proof.
rewrite Qeq_bool_iff, is_multiple_iff. unfold Py.mod_, segment_duration.
change (inject_Z 5) with 5.
split; intros H.
- pose proof (div5 d). lra.
- pose proof (div5 d). lra.
Qed.


Lemma total_segments_short (d : Q) : d <= 5 -> total_segments d = 1%Z.
Proof.
intros H. unfold total_segments, segment_duration.
apply Qle_bool_iff in H. change (inject_Z 5) with 5. now rewrite H.
Qed.

Lemma total_segments_long (d : Q) :
5 < d ->
total_segments d =
  if Qeq_bool (Py.mod_ d (inject_Z segment_duration)) 0
  then Qfloor (d / 5) else (Qfloor (d / 5) + 1)%Z.
Proof.
intros H. unfold total_segments.
destruct (Qle_bool d (inject_Z segment_duration)) eqn:E.
- apply Qle_bool_iff in E. unfold segment_duration in E.
  change (inject_Z 5) with 5 in E. lra.
- unfold Py.floordiv. rewrite int_inject_Z.
  unfold segment_duration. change (inject_Z 5) with 5.
  now destruct (Qeq_bool _ 0).
Qed.

Lemma total_segments_is_ceiling (d : Q) :
0 < d -> total_segments d = Qceiling (d / 5).
Proof.
intros Hpos. destruct (Qlt_le_dec 5 d) as [Hlong | Hshort].
- rewrite total_segments_long by assumption.
  pose proof (Qfloor_le (d / 5)) as Hlo.
  pose proof (Qlt_floor (d / 5)) as Hhi.
  destruct (Qeq_bool _ 0) eqn:E.
  + apply mod_zero_iff, is_multiple_iff in E.
    rewrite (Qceiling_comp _ _ E) at 1. now rewrite Qceiling_Z.
  + symmetry. apply Qceiling_unique.
    * replace (Qfloor (d / 5) + 1 - 1)%Z with (Qfloor (d / 5)) by lia.
      apply Qle_lteq in Hlo. destruct Hlo as [Hlo | Heq]; [assumption |].
      exfalso. symmetry in Heq.
      apply is_multiple_iff, mod_zero_iff in Heq. congruence.
    * now apply Qlt_le_weak.
- rewrite total_segments_short by assumption.
  symmetry. apply Qceiling_unique; simpl.
  + apply Qlt_shift_div_l; [reflexivity |]. change (inject_Z (1 - 1)) with 0. lra.
  + apply Qle_shift_div_r; [reflexivity |]. change (inject_Z 1) with 1. lra.
Qed.

(** The rule in exact arithmetic: for every positive duration [d],
    [total_segments d] is the ceiling of [d / 5]; it is 1 whenever [d <= 5]; and for [d > 5] it is
    [floor (d / 5) + 1] exactly when [d] is not an integer multiple of 5,
    and [floor (d / 5)] exactly when it is. *)
Theorem total_segments_rule (d : Q) :
0 < d ->
total_segments d = Qceiling (d / inject_Z segment_duration) /\
(d <= inject_Z segment_duration -> total_segments d = 1%Z) /\
(inject_Z segment_duration < d ->
 (total_segments d = (Qfloor (d / inject_Z segment_duration) + 1)%Z <-> ~ is_multiple d) /\
 (total_segments d = Qfloor (d / inject_Z segment_duration) <-> is_multiple d)).
Proof.
unfold segment_duration at 1 2 3 4 5. change (inject_Z 5) with 5.
intros Hpos. split; [| split].
- now apply total_segments_is_ceiling.
- apply total_segments_short.
- intros Hlong. rewrite total_segments_long by assumption.
  destruct (Qeq_bool _ 0) eqn:E.
  + assert (Hm : is_multiple d) by now apply mod_zero_iff.
    split; split; intros; try tauto; try lia.
  + assert (Hm : ~ is_multiple d).
    { intros Hm. apply mod_zero_iff in Hm. congruence. }
    split; split; intros; try tauto; try lia.
Qed.

(** A duration of 5.1 seconds: two segments. *)
Lemma total_segments_rule_witness :
0 < 51 # 10 /\ total_segments (51 # 10) = Qceiling ((51 # 10) / inject_Z segment_duration).
Proof.
split; [reflexivity |].
exact (proj1 (total_segments_rule (51 # 10) eq_refl)).
Defined.

End SegmentCount.

(** ** Runs of [main] *)

Ltac unfold_M :=
  cbv beta iota zeta delta [mbind mret M_mbind M_mret M_bind M_ret emit print raise].

Lemma flat_map_singleton {A B} (h : A -> B) (l : list A) :
  flat_map (fun x => [h x]) l = map h l.
Proof. induction l; cbn; congruence. Qed.

Lemma for_returns {A B} (body : A -> M B) (ev : A -> list event) (val : A -> B) (l : list A) :
  (forall x, body x = (ev x, Return (val x))) ->
  for_ l body = (flat_map ev l, Return (map val l)).
Proof.
  intros Hbody. induction l as [| x l IH]; [reflexivity |].
  cbn [for_ flat_map map]. rewrite Hbody, IH. unfold_M.
  now rewrite app_nil_r.
Qed.

Lemma for_map {A B C} (h : A -> B) (body : B -> M C) (l : list A) :
  for_ (map h l) body = for_ l (fun x => body (h x)).
Proof.
  induction l as [| x l IH]; [reflexivity |].
  cbn [for_ map]. now rewrite IH.
Qed.

Lemma combine_map_seq {A B} (f : nat -> A) (g : nat -> B) (l : list nat) :
  combine (map f l) (map g l) = map (fun i => (f i, g i)) l.
Proof. induction l; cbn; congruence. Qed.

Lemma combine_seq_map {A} (f : nat -> A) (s n : nat) :
  combine (seq s n) (map f (seq s n)) = map (fun i => (i, f i)) (seq s n).
Proof. revert s. induction n; intros s; cbn; [reflexivity | now rewrite IHn]. Qed.

Lemma enumerate_clips (n : nat) :
  enumerate (combine (map video_clip (seq 0 n)) (map audio_clip (seq 0 n))) =
  map (fun i => (i, (video_clip i, audio_clip i))) (seq 0 n).
Proof.
  unfold enumerate. rewrite combine_map_seq, length_map, length_seq.
  apply (combine_seq_map (fun i => (video_clip i, audio_clip i))).
Qed.

Lemma foldl_inputs (paths : list string) (cmd : list string) :
  foldl (fun cmd path => cmd ++ ["-i"; path]) cmd paths =
  cmd ++ flat_map (fun path => ["-i"; path]) paths.
Proof.
  revert cmd. induction paths as [| p paths IH]; intros cmd; cbn.
  - now rewrite app_nil_r.
  - rewrite IH, <- app_assoc. reflexivity.
Qed.

Lemma concatenate_videos_run (video_paths : list string) (output_path : string) :
  concatenate_videos video_paths output_path =
  ([Subprocess_run (concat_command video_paths output_path) true], Return output_path).
Proof.
  unfold concatenate_videos, concat_command, Py.range. unfold_M.
  rewrite foldl_inputs, Nat2Z.id, <- app_assoc. reflexivity.
Qed.

Lemma main_run (env : Env) (config : Config.t) (args : Args.t) :
  let d := ffprobe_video_duration env (Args.video_path args) in
  main env config args =
  if supported config
  then (probe_steps args ++ video_cut_steps args d ++ audio_cut_steps args d ++
        [DDIMScheduler_from_pretrained "configs"] ++
        load_steps env config args ++ seed_steps env args ++
        pipeline_steps env config args d ++ concat_steps args d,
        Return tt)
  else (probe_steps args ++ video_cut_steps args d ++ audio_cut_steps args d ++
        [DDIMScheduler_from_pretrained "configs"],
        Raise NotImplemented).
Proof.
  intros d. unfold main. fold d.
  rewrite (for_returns _
             (fun i => [Ffmpeg_run (audio_job (Args.audio_path args) (audio_clip i) (start_time i) (end_time d i))])
             audio_clip) by reflexivity.
  rewrite (for_returns _
             (fun i => [Ffmpeg_run (video_job (Args.video_path args) (video_clip i) (start_time i) (end_time d i))])
             video_clip) by reflexivity.
  rewrite !flat_map_singleton.
  unfold supported, load_steps, seed_steps, seeded, whisper_model_path.
  unfold probe_steps, video_cut_steps, audio_cut_steps, pipeline_steps, concat_steps, Py.range.
  destruct (Config.cross_attention_dim (Config.model config) =? 768) eqn:E1;
    [| destruct (Config.cross_attention_dim (Config.model config) =? 384) eqn:E2];
    destruct (is_xformers_available env);
    destruct (negb (Args.seed args =? -1));
    unfold_M; cbn [orb app]; try reflexivity.
  all: rewrite enumerate_clips, for_map.
  all: rewrite (for_returns _
               (fun i =>
                  [ Print ("Processing segment " +:+ Py.str (Z.of_nat i + 1) +:+ "/" +:+ Py.str (total_segments d));
                    Pipeline_call (pipeline_kwargs env config args i) ])
               output_name) by reflexivity.
  all: rewrite concatenate_videos_run; unfold_M.
  all: cbn [app]; rewrite ?app_nil_r, <- ?app_assoc; cbn [app].
  all: try reflexivity.
Qed.

Lemma omap_flat_map {A B C} (f : B -> option C) (g : A -> list B) (l : list A) :
  omap f (flat_map g l) = flat_map (fun x => omap f (g x)) l.
Proof.
  induction l as [| x l IH]; [reflexivity |].
  cbn [flat_map]. now rewrite omap_app, IH.
Qed.

Lemma flat_map_nil {A B} (l : list A) : flat_map (fun _ => @nil B) l = [].
Proof. induction l; cbn; congruence. Qed.

Lemma flat_map_const {A B} (b : B) (l : list A) :
  flat_map (fun _ => [b]) l = repeat b (length l).
Proof. induction l; cbn; congruence. Qed.

Lemma omap_map {A B C} (f : B -> option C) (g : A -> B) (l : list A) :
  omap f (map g l) = omap (fun x => f (g x)) l.
Proof. induction l as [| x l IH]; cbn; [reflexivity |]. now rewrite IH. Qed.

Lemma omap_Some {A B} (h : A -> B) (l : list A) :
  omap (fun x => Some (h x)) l = map h l.
Proof. induction l as [| x l IH]; cbn; [reflexivity |]. now rewrite IH. Qed.

Lemma omap_None {A B} (l : list A) :
  omap (fun _ => @None B) l = [].
Proof. induction l as [| x l IH]; cbn; [reflexivity |]. now rewrite IH. Qed.

Lemma filter_omap {A} (p : A -> bool) (l : list A) :
  List.filter p l = omap (fun x => if p x then Some x else None) l.
Proof.
  induction l as [| x l IH]; [reflexivity |].
  cbn. rewrite IH. now destruct (p x).
Qed.

(** Reads one kind of event off the closed form of a trace. *)
Ltac project env config args :=
  rewrite ?filter_omap;
  unfold probe_steps, video_cut_steps, audio_cut_steps, load_steps, seed_steps,
    pipeline_steps, concat_steps, Py.range;
  destruct (supported config);
  rewrite ?omap_app, ?omap_flat_map, ?omap_map;
  destruct (is_xformers_available env);
  destruct (Args.seed args =? -1);
  cbn [negb omap list_omap app phase is_segment_step is_set_seed is_torch_seed is_pipeline_call];
  rewrite ?omap_Some, ?omap_None, ?flat_map_singleton, ?flat_map_nil, ?flat_map_const,
    ?map_const, ?length_seq, ?app_nil_r;
  cbn [app]; try reflexivity.

Section Runs.

Variables (env : Env) (config : Config.t) (args : Args.t).

Let d := ffprobe_video_duration env (Args.video_path args).
Let n := Z.to_nat (total_segments d).
Let tr := trace (main env config args).

Lemma main_trace :
  tr =
  probe_steps args ++ video_cut_steps args d ++ audio_cut_steps args d ++
  [DDIMScheduler_from_pretrained "configs"] ++
  if supported config
  then load_steps env config args ++ seed_steps env args ++
       pipeline_steps env config args d ++ concat_steps args d
  else [].
Proof.
  unfold tr. rewrite main_run. fold d.
  destruct (supported config); [reflexivity |].
  cbn [trace fst]. reflexivity.
Qed.

Lemma main_outcome :
  outcome (main env config args) =
  if supported config then Return tt else Raise NotImplemented.
Proof. rewrite main_run. now destruct (supported config). Qed.

Lemma main_ffmpeg_jobs :
  ffmpeg_jobs tr =
  map (fun i => video_job (Args.video_path args) (video_clip i) (start_time i) (end_time d i))
      (seq 0 n) ++
  map (fun i => audio_job (Args.audio_path args) (audio_clip i) (start_time i) (end_time d i))
      (seq 0 n).
Proof. rewrite main_trace. unfold ffmpeg_jobs. fold n. project env config args. Qed.

Lemma main_pipeline_calls :
  pipeline_calls tr =
  if supported config then map (pipeline_kwargs env config args) (seq 0 n) else [].
Proof. rewrite main_trace. unfold pipeline_calls. fold n. project env config args. Qed.

Lemma main_subprocess_runs :
  subprocess_runs tr =
  if supported config
  then [concat_command (map output_name (seq 0 n)) (Args.video_out_path args)]
  else [].
Proof. rewrite main_trace. unfold subprocess_runs. fold n. project env config args. Qed.


End Runs.

Lemma supported_iff (config : Config.t) :
  supported config = true <->
  Config.cross_attention_dim (Config.model config) = 768 \/
  Config.cross_attention_dim (Config.model config) = 384.
Proof. unfold supported. rewrite orb_true_iff, !Z.eqb_eq. reflexivity. Qed.

Lemma supported_false_iff (config : Config.t) :
  supported config = false <->
  Config.cross_attention_dim (Config.model config) <> 768 /\
  Config.cross_attention_dim (Config.model config) <> 384.
Proof. unfold supported. rewrite orb_false_iff, !Z.eqb_neq. reflexivity. Qed.

(** Once the probe has given a duration, [main] ends with
    [NotImplementedError] if and only if
    [config.model.cross_attention_dim] is neither 768 nor 384; with 768 or
    384 the run ends normally, and the audio encoder is created from the
    whisper model chosen for that dimension. *)
Theorem main_raises_iff (env : Env) (config : Config.t) (args : Args.t) :
  let dim := Config.cross_attention_dim (Config.model config) in
  ((exists msg, outcome (main env config args) = Raise (NotImplementedError msg)) <->
   dim <> 768 /\ dim <> 384) /\
  (dim = 768 \/ dim = 384 ->
   outcome (main env config args) = Return tt /\
   In (Audio2Feature_init
         (if dim =? 768 then "checkpoints/whisper/small.pt" else "checkpoints/whisper/tiny.pt")
         "cuda" (Config.num_frames (Config.data config)))
      (trace (main env config args))).
Proof.
  intros dim. subst dim. rewrite main_outcome, main_trace. split.
  - rewrite <- supported_false_iff.
    destruct (supported config); split.
    + intros [msg H]. discriminate H.
    + discriminate.
    + reflexivity.
    + intros _. now eexists.
  - intros H. apply supported_iff in H. rewrite H. split; [reflexivity |].
    rewrite !in_app_iff. do 4 right. left. left. reflexivity.
Qed.

(** A run with dimension 384 on a 12 second video. *)
Lemma main_raises_iff_witness :
  outcome (main (env_of (12 # 1)) (config_of 384) (args_of 1247)) = Return tt.
Proof.
  apply (main_raises_iff (env_of (12 # 1)) (config_of 384) (args_of 1247)).
  right. reflexivity.
Defined.

Ltac split_in H :=
  repeat match type of H with
    | In _ (_ ++ _) => apply in_app_or in H; destruct H as [H | H]
    | In _ (if ?b then _ else _) => destruct b
    | In _ (map _ _) => apply in_map_iff in H; destruct H as (? & H & ?)
    | In _ (flat_map _ _) => apply in_flat_map in H; destruct H as (? & ? & H)
    | In _ (_ :: _) => destruct H as [H | H]
    | In _ [] => destruct H
    end.

Ltac in_trace H :=
  rewrite ?main_trace in H;
  unfold probe_steps, video_cut_steps, audio_cut_steps, load_steps, seed_steps,
    pipeline_steps, concat_steps in H;
  split_in H; try discriminate H.


Lemma total_segments_pos (d : Q) : 1 <= total_segments d.
Proof.
  destruct (Qlt_le_dec 5 d) as [Hlong | Hshort].
  - rewrite total_segments_long by assumption.
    assert (1 <= Qfloor (d / 5)).
    { rewrite <- (Qfloor_Z 1). apply Qfloor_resp_le.
      apply Qle_shift_div_l; [reflexivity |]. change (inject_Z 1) with 1%Q. lra. }
    destruct (Qeq_bool _ 0); lia.
  - rewrite total_segments_short by assumption. lia.
Qed.











Lemma rng_skip (drawn : Z) (g : rng) (l tr : list event) :
  forallb quiet l = true ->
  rng_at_first_call drawn g (l ++ tr) = rng_at_first_call drawn g tr.
Proof.
  induction l as [| e l IH]; [reflexivity |].
  cbn [forallb app]. intros H. apply andb_true_iff in H. destruct H as [He Hl].
  destruct e; try discriminate He; cbn; now apply IH.
Qed.

Lemma forallb_map_true {A B} (p : B -> bool) (f : A -> B) (l : list A) :
  (forall x, p (f x) = true) -> forallb p (map f l) = true.
Proof. intros H. induction l; cbn; [reflexivity |]. now rewrite H. Qed.

Lemma pipeline_steps_first (env : Env) (config : Config.t) (args : Args.t) (d : Q) :
  exists s rest,
    pipeline_steps env config args d =
    Print s :: Pipeline_call (pipeline_kwargs env config args 0) :: rest.
Proof.
  unfold pipeline_steps, Py.range.
  pose proof (total_segments_pos d) as Hn.
  destruct (Z.to_nat (total_segments d)) eqn:E; [lia |].
  cbn [seq flat_map app]. eauto.
Qed.

Lemma main_rng_at_first_call (env : Env) (config : Config.t) (args : Args.t) (drawn : Z) :
  supported config = true ->
  rng_at_first_call drawn Unseeded (trace (main env config args)) =
  Some (if negb (Args.seed args =? -1) then Seeded (Args.seed args) else Reseeded drawn).
Proof.
  intros Hs. rewrite main_trace, Hs.
  destruct (pipeline_steps_first env config args
              (ffprobe_video_duration env (Args.video_path args))) as (s & rest & ->).
  rewrite (rng_skip _ _ (probe_steps args)) by reflexivity.
  rewrite (rng_skip _ _ (video_cut_steps args _)) by (now apply forallb_map_true).
  rewrite (rng_skip _ _ (audio_cut_steps args _)) by (now apply forallb_map_true).
  rewrite (rng_skip _ _ [_]) by reflexivity.
  rewrite (rng_skip _ _ (load_steps env config args))
    by (unfold load_steps; now destruct (is_xformers_available env)).
  unfold seed_steps. now destruct (negb (Args.seed args =? -1)).
Qed.


Lemma count_set_seed (env : Env) (config : Config.t) (args : Args.t) :
  count is_set_seed (trace (main env config args)) =
  if (supported config && negb (Args.seed args =? -1))%bool then 1%nat else 0%nat.
Proof.
  unfold count. rewrite main_trace.
  project env config args.
Qed.

Lemma count_torch_seed (env : Env) (config : Config.t) (args : Args.t) :
  count is_torch_seed (trace (main env config args)) =
  if (supported config && (Args.seed args =? -1))%bool then 1%nat else 0%nat.
Proof.
  unfold count. rewrite main_trace.
  project env config args.
Qed.












Lemma args_of_namespace_attrs (ns : gmap string Argparse.value) (args : Args.t) :
  args_of_namespace ns = Some args ->
  attr_str ns "unet_config_path" = Some (Args.unet_config_path args) /\
  attr_str ns "inference_ckpt_path" = Some (Args.inference_ckpt_path args) /\
  attr_str ns "video_path" = Some (Args.video_path args) /\
  attr_str ns "audio_path" = Some (Args.audio_path args) /\
  attr_str ns "video_out_path" = Some (Args.video_out_path args) /\
  attr_int ns "inference_steps" = Some (Args.inference_steps args) /\
  attr_float ns "guidance_scale" = Some (Args.guidance_scale args) /\
  attr_int ns "seed" = Some (Args.seed args).
Proof.
  unfold args_of_namespace. intros H.
  destruct (attr_str ns "unet_config_path"); [| discriminate H].
  destruct (attr_str ns "inference_ckpt_path"); [| discriminate H].
  destruct (attr_str ns "video_path"); [| discriminate H].
  destruct (attr_str ns "audio_path"); [| discriminate H].
  destruct (attr_str ns "video_out_path"); [| discriminate H].
  destruct (attr_int ns "inference_steps"); [| discriminate H].
  destruct (attr_float ns "guidance_scale"); [| discriminate H].
  destruct (attr_int ns "seed"); [| discriminate H].
  cbn in H. injection H as <-. cbn. repeat split.
Qed.


Section Tiling.

Local Open Scope Q_scope.

Lemma py_min_Qmin (x y : Q) : Py.min x y == Qmin x y.
Proof.
  unfold Py.min. destruct (Qlt_le_dec y x) as [H | H].
  - symmetry. apply Q.min_r. now apply Qlt_le_weak.
  - symmetry. now apply Q.min_l.
Qed.

(** The last segment is the one the duration falls in. *)
Lemma total_segments_bounds (d : Q) :
  0 < d ->
  inject_Z ((total_segments d - 1) * 5) < d /\ d <= inject_Z (total_segments d * 5).
Proof.
  intros Hpos. rewrite total_segments_is_ceiling by assumption.
  pose proof (Qceiling_lt (d / 5)) as Hlo.
  pose proof (Qle_ceiling (d / 5)) as Hhi.
  pose proof (div5 d) as Hd.
  rewrite !inject_Z_mult. change (inject_Z 5) with 5.
  split; lra.
Qed.

Lemma end_time_inner (d : Q) (i : nat) :
  0 < d -> (Z.of_nat (S i) < total_segments d)%Z ->
  end_time d i == start_time (S i).
Proof.
  intros Hpos Hi. destruct (total_segments_bounds d Hpos) as [Hlo _].
  unfold end_time, start_time, Py.min, segment_duration.
  replace (Z.of_nat i + 1)%Z with (Z.of_nat (S i)) by lia.
  destruct (Qlt_le_dec d _) as [H | H]; [| reflexivity].
  exfalso.
  assert (inject_Z (Z.of_nat (S i) * 5) <= inject_Z ((total_segments d - 1) * 5)).
  { rewrite <- Zle_Qle. lia. }
  lra.
Qed.

Lemma end_time_last (d : Q) (i : nat) :
  0 < d -> (Z.of_nat i + 1)%Z = total_segments d ->
  end_time d i == d.
Proof.
  intros Hpos Hi. destruct (total_segments_bounds d Hpos) as [_ Hhi].
  unfold end_time, Py.min, segment_duration. rewrite Hi.
  destruct (Qlt_le_dec d _) as [H | H]; [reflexivity |].
  now apply Qle_antisym.
Qed.

Lemma segment_nonempty (d : Q) (i : nat) :
  0 < d -> (Z.of_nat i < total_segments d)%Z ->
  start_time i < end_time d i.
Proof.
  intros Hpos Hi. destruct (total_segments_bounds d Hpos) as [Hlo _].
  unfold end_time, start_time, Py.min, segment_duration.
  assert (inject_Z (Z.of_nat i * 5) <= inject_Z ((total_segments d - 1) * 5)).
  { rewrite <- Zle_Qle. lia. }
  destruct (Qlt_le_dec d _) as [H' | H'].
  - lra.
  - rewrite <- Zlt_Qlt. lia.
Qed.

End Tiling.

Lemma main_video_job (env : Env) (config : Config.t) (args : Args.t) (i : nat) :
  let d := ffprobe_video_duration env (Args.video_path args) in
  let n := Z.to_nat (total_segments d) in
  (i < n)%nat ->
  ffmpeg_jobs (trace (main env config args)) !! i =
  Some (video_job (Args.video_path args) (video_clip i) (start_time i) (end_time d i)).
Proof.
  intros d n Hi. rewrite main_ffmpeg_jobs. fold d n.
  rewrite lookup_app_l by (now rewrite length_map, length_seq).
  change (map ?f ?l) with (f <$> l). rewrite list_lookup_fmap.
  now rewrite lookup_seq_lt.
Qed.

Lemma main_audio_job (env : Env) (config : Config.t) (args : Args.t) (i : nat) :
  let d := ffprobe_video_duration env (Args.video_path args) in
  let n := Z.to_nat (total_segments d) in
  (i < n)%nat ->
  ffmpeg_jobs (trace (main env config args)) !! (n + i)%nat =
  Some (audio_job (Args.audio_path args) (audio_clip i) (start_time i) (end_time d i)).
Proof.
  intros d n Hi. rewrite main_ffmpeg_jobs. fold d n.
  rewrite lookup_app_r by (rewrite length_map, length_seq; lia).
  rewrite length_map, length_seq.
  replace (n + i - n)%nat with i by lia.
  change (map ?f ?l) with (f <$> l). rewrite list_lookup_fmap.
  now rewrite lookup_seq_lt.
Qed.

Lemma main_pipeline_call (env : Env) (config : Config.t) (args : Args.t) (i : nat)
    (kw : Pipeline.kwargs) :
  pipeline_calls (trace (main env config args)) !! i = Some kw ->
  kw = pipeline_kwargs env config args i.
Proof.
  rewrite main_pipeline_calls. destruct (supported config); [| discriminate].
  change (map ?f ?l) with (f <$> l). rewrite list_lookup_fmap.
  destruct (seq 0 _ !! i) as [j |] eqn:Hj; [| discriminate].
  apply lookup_seq in Hj. destruct Hj as [-> _]. cbn. congruence.
Qed.

(** In exact arithmetic: segment [i] starts at [i * 5] and ends at
    [min ((i + 1) * 5, video_duration)]; for every [i] below
    [total_segments] the [i]-th video cut and the [i]-th audio cut read
    the two input files with the same start and the same length, and the
    [i]-th pipeline call, when there is one, receives the two files they
    wrote; there are as many cuts of each kind as segments, and with a
    supported configuration as many pipeline calls; for a positive
    duration the segments tile [0, video_duration]: the first starts at 0,
    each ends where the next starts, the last ends at the duration, and
    none is empty. *)
Theorem segment_boundaries (env : Env) (config : Config.t) (args : Args.t) :
  let d := ffprobe_video_duration env (Args.video_path args) in
  let n := Z.to_nat (total_segments d) in
  let tr := trace (main env config args) in
  (forall i,
     start_time i = inject_Z (Z.of_nat i * 5) /\
     (end_time d i == Qmin (inject_Z ((Z.of_nat i + 1) * 5)) d)%Q) /\
  (forall i, (i < n)%nat ->
     exists jv ja,
       ffmpeg_jobs tr !! i = Some jv /\
       ffmpeg_jobs tr !! (n + i)%nat = Some ja /\
       Ffmpeg.input jv = Args.video_path args /\
       Ffmpeg.input ja = Args.audio_path args /\
       Ffmpeg.ss jv = start_time i /\
       Ffmpeg.ss ja = start_time i /\
       Ffmpeg.t jv = (end_time d i - start_time i)%Q /\
       Ffmpeg.t ja = (end_time d i - start_time i)%Q /\
       (forall kw, pipeline_calls tr !! i = Some kw ->
          Pipeline.video_path kw = Ffmpeg.output jv /\
          Pipeline.audio_path kw = Ffmpeg.output ja)) /\
  length (ffmpeg_jobs tr) = (n + n)%nat /\
  (supported config = true -> length (pipeline_calls tr) = n) /\
  ((0 < d)%Q ->
   (1 <= n)%nat /\
   (start_time 0 == 0)%Q /\
   (forall i, (S i < n)%nat -> (end_time d i == start_time (S i))%Q) /\
   (end_time d (n - 1) == d)%Q /\
   (forall i, (i < n)%nat -> (start_time i < end_time d i)%Q)).
Proof.
  intros d n tr. subst tr.
  pose proof (total_segments_pos d) as Hn.
  split; [| split; [| split; [| split]]].
  - intros i. split; [reflexivity |]. apply py_min_Qmin.
  - intros i Hi.
    exists (video_job (Args.video_path args) (video_clip i) (start_time i) (end_time d i)),
           (audio_job (Args.audio_path args) (audio_clip i) (start_time i) (end_time d i)).
    split; [now apply main_video_job |].
    split; [now apply main_audio_job |].
    repeat (split; [reflexivity |]).
    intros kw Hkw. apply main_pipeline_call in Hkw. subst kw. now split.
  - rewrite main_ffmpeg_jobs, length_app, !length_map, !length_seq. reflexivity.
  - intros Hs. rewrite main_pipeline_calls, Hs, length_map, length_seq. reflexivity.
  - intros Hpos. split; [subst n; lia |]. split; [reflexivity |]. split; [| split].
    + intros i Hi. apply end_time_inner; [assumption | subst n; lia].
    + apply end_time_last; [assumption | subst n; lia].
    + intros i Hi. apply segment_nonempty; [assumption | subst n; lia].
Qed.

(** A 12 second video: the third segment ends at 12. *)
Lemma segment_boundaries_witness :
  (0 < 12 # 1)%Q /\ (end_time (12 # 1) 2 == 12 # 1)%Q.
Proof.
  split; [reflexivity |].
  apply (segment_boundaries (env_of (12 # 1)) (config_of 384) (args_of 1247)).
  reflexivity.
Defined.



(** ** The command line *)

Module ArgparseFacts.
Import Argparse.

Section Facts.

Variable int_of_str : string -> option Z.
Variable float_of_str : string -> option Q.

Abbreviation step := (step int_of_str float_of_str).
Abbreviation consume := (consume int_of_str float_of_str).
Abbreviation store := (store int_of_str float_of_str).

Lemma find_action_store (o : string) (a : action) :
  find_action o option_string_actions = Some (Store a) -> option_string a = o.
Proof.
  unfold option_string_actions, parser. cbn [map find_action fst snd option_string add_argument].
  repeat match goal with
    | |- context [String.eqb o ?s] =>
        destruct (String.eqb_spec o s) as [-> | _];
        [intros H; try discriminate H; injection H as <-; reflexivity |]
    end.
  discriminate.
Qed.

Lemma missing_required_nil (seen : list string) (o : string) :
  missing_required seen = [] -> In o required_options -> In o seen.
Proof.
  unfold missing_required. intros H Ho.
  destruct (existsb (String.eqb o) seen) eqn:E.
  - apply existsb_exists in E. destruct E as (x & Hx & Heq).
    apply String.eqb_eq in Heq. now subst.
  - assert (Hin : In o (List.filter (fun o => negb (existsb (String.eqb o) seen)) required_options)).
    { apply filter_In. split; [assumption |]. now rewrite E. }
    rewrite H in Hin. destruct Hin.
Qed.

Lemma store_seen (a : action) (v : string) (st st' : state) :
  store a v st = Some st' ->
  seen_actions st' = option_string a :: seen_actions st /\ pending st' = None.
Proof.
  unfold Argparse.store.
  destruct (get_value int_of_str float_of_str a v); [| discriminate].
  intros H. injection H as <-. now split.
Qed.

(** A required option that is seen at the end was seen before, is
    waiting for its value, or is one of the argument strings left. *)
Lemma consume_seen (argv : list string) (st : state) (ns : gmap string value) (o : string) :
  consume st argv = Parsed ns ->
  In o required_options ->
  In o (seen_actions st) \/
  (exists a, pending st = Some a /\ option_string a = o) \/
  (exists arg_string, In arg_string argv /\ option_of arg_string = Some o).
Proof.
  revert st. induction argv as [| tok argv IH]; intros st H Ho.
  - cbn [Argparse.consume] in H. destruct (pending st); [discriminate |].
    destruct (missing_required (seen_actions st)) eqn:E; [| discriminate].
    left. eapply missing_required_nil; eassumption.
  - cbn [Argparse.consume] in H.
    destruct (step st tok) as [st' |] eqn:Hstep; [| discriminate].
    specialize (IH st' H Ho).
    unfold Argparse.step in Hstep.
    destruct (pending st) as [a |] eqn:Hp.
    + destruct (is_argument tok); [| discriminate].
      apply store_seen in Hstep. destruct Hstep as [Hseen Hpend].
      rewrite Hseen, Hpend in IH.
      destruct IH as [[<- | IH] | [(a' & Ha' & _) | (t & Ht & Hopt)]].
      * right. left. now exists a.
      * now left.
      * discriminate.
      * right. right. exists t. split; [now right | assumption].
    + destruct (String.eqb tok "--"); [discriminate |].
      destruct (parse_optional tok) as [| o' explicit | |] eqn:Hparse; try discriminate.
      destruct (find_action o' option_string_actions) as [[| a] |] eqn:Hfind; try discriminate.
      apply find_action_store in Hfind.
      assert (Htok : option_of tok = Some o') by (unfold option_of; now rewrite Hparse).
      destruct explicit as [v |].
      * apply store_seen in Hstep. destruct Hstep as [Hseen Hpend].
        rewrite Hseen, Hpend in IH.
        destruct IH as [[<- | IH] | [(a' & Ha' & _) | (t & Ht & Hopt)]].
        -- right. right. exists tok. split; [now left | congruence].
        -- now left.
        -- discriminate.
        -- right. right. exists t. split; [now right | assumption].
      * injection Hstep as <-. cbn in IH.
        destruct IH as [IH | [(a' & Ha' & <-) | (t & Ht & Hopt)]].
        -- now left.
        -- injection Ha' as <-. right. right. exists tok. split; [now left | congruence].
        -- right. right. exists t. split; [now right | assumption].
Qed.

Lemma parse_args_needs_required (argv : list string) (o : string) :
  In o required_options ->
  (forall arg_string, In arg_string argv -> option_of arg_string <> Some o) ->
  parse_args int_of_str float_of_str argv = SystemExit.
Proof.
  intros Ho Habsent. unfold parse_args.
  destruct (consume initial argv) as [ns |] eqn:E; [| reflexivity].
  exfalso. destruct (consume_seen _ _ _ _ E Ho) as [H | [(a & H & _) | (t & Ht & Hopt)]].
  - destruct H.
  - discriminate H.
  - now apply (Habsent t).
Qed.


Lemma required_options_eq :
  required_options =
  ["--inference_ckpt_path"; "--video_path"; "--audio_path"; "--video_out_path"].
Proof. reflexivity. Qed.

Ltac required_cases H :=
  rewrite required_options_eq in H;
  destruct H as [<- | [<- | [<- | [<- | []]]]].

Lemma step_option (st : state) (o : string) :
  In o required_options -> pending st = None ->
  step st o =
  Some {| namespace := namespace st;
          seen_actions := seen_actions st;
          pending := Some (add_argument o type_str true VNone) |}.
Proof.
  intros Ho Hp. unfold Argparse.step. rewrite Hp.
  required_cases Ho; reflexivity.
Qed.

Lemma step_value (st : state) (o v : string) :
  pending st = Some (add_argument o type_str true VNone) ->
  is_argument v = true ->
  step st v = Some (give st (o, v)).
Proof.
  intros Hp Hv. unfold Argparse.step. rewrite Hp, Hv. reflexivity.
Qed.

Lemma consume_given (given : list (string * string)) (st : state) :
  pending st = None ->
  (forall o v, In (o, v) given -> In o required_options /\ is_argument v = true) ->
  consume st (command_line given) = consume (foldl give st given) [].
Proof.
  revert st. induction given as [| [o v] given IH]; intros st Hp Hok; [reflexivity |].
  destruct (Hok o v (or_introl eq_refl)) as [Ho Hv].
  cbn [command_line flat_map app Argparse.consume foldl].
  rewrite step_option by assumption.
  rewrite (step_value _ o v) by (assumption || reflexivity).
  apply IH; [reflexivity |].
  intros o' v' H. apply Hok. now right.
Qed.

Lemma give_pending (given : list (string * string)) (st : state) :
  pending st = None -> pending (foldl give st given) = None.
Proof.
  revert st. induction given as [| g given IH]; intros st Hp; [assumption |].
  cbn [foldl]. now apply IH.
Qed.

Lemma give_seen (given : list (string * string)) (st : state) (o : string) :
  In o (seen_actions st) \/ In o (map fst given) ->
  In o (seen_actions (foldl give st given)).
Proof.
  revert st. induction given as [| g given IH]; intros st H.
  - destruct H as [H | []]. assumption.
  - cbn [foldl]. apply IH. cbn [give seen_actions map In] in *. tauto.
Qed.

Lemma missing_required_none (seen : list string) :
  (forall o, In o required_options -> In o seen) -> missing_required seen = [].
Proof.
  intros H. unfold missing_required.
  induction required_options as [| o l IH]; [reflexivity |].
  cbn [List.filter].
  assert (E : existsb (String.eqb o) seen = true).
  { apply existsb_exists. exists o. split; [apply H; now left | apply String.eqb_refl]. }
  rewrite E. cbn [negb]. apply IH. intros o' Ho'. apply H. now right.
Qed.

Lemma dest_of_injective (o o' : string) :
  In o required_options -> In o' required_options -> dest_of o = dest_of o' -> o = o'.
Proof.
  intros Ho Ho' H. required_cases Ho; required_cases Ho';
    try reflexivity; vm_compute in H; discriminate H.
Qed.

Lemma dest_of_required (o : string) :
  In o required_options ->
  ~ In (dest_of o) ["unet_config_path"; "inference_steps"; "guidance_scale"; "seed"].
Proof.
  intros Ho H. required_cases Ho; vm_compute in H; intuition discriminate.
Qed.

Lemma give_other (given : list (string * string)) (st : state) (k : string) :
  (forall o v, In (o, v) given -> dest_of o <> k) ->
  namespace (foldl give st given) !! k = namespace st !! k.
Proof.
  revert st. induction given as [| [o v] given IH]; intros st H; [reflexivity |].
  cbn [foldl]. rewrite IH by (intros o' v' Hin; apply (H o' v'); now right).
  cbn [give namespace fst snd]. apply lookup_insert_ne. apply (H o v). now left.
Qed.

Lemma give_last (given : list (string * string)) (st : state) (o : string) :
  In o required_options ->
  (forall o' v, In (o', v) given -> In o' required_options) ->
  namespace (foldl give st given) !! dest_of o =
  match last_value o given with
  | Some v => Some (VStr v)
  | None => namespace st !! dest_of o
  end.
Proof.
  intros Ho. revert st. induction given as [| [o' v] given IH]; intros st H; [reflexivity |].
  cbn [foldl last_value].
  rewrite IH by (intros o'' v' Hin; apply (H o'' v'); now right).
  destruct (last_value o given); [reflexivity |].
  cbn [give namespace fst snd].
  destruct (String.eqb_spec o o') as [<- | Hne].
  - apply lookup_insert_eq.
  - apply lookup_insert_ne. intros E. apply Hne. symmetry.
    apply dest_of_injective; [apply (H o' v); now left | assumption | assumption].
Qed.

Lemma last_value_given (given : list (string * string)) (o : string) :
  In o (map fst given) -> exists v, last_value o given = Some v.
Proof.
  induction given as [| [o' v] given IH]; [intros [] |].
  cbn [map fst In last_value]. intros H.
  destruct (last_value o given) as [v' |] eqn:E; [eauto |].
  destruct H as [-> | H].
  - rewrite String.eqb_refl. eauto.
  - destruct (IH H) as [v' Hv']. discriminate.
Qed.

Lemma parse_args_given (given : list (string * string)) :
  (forall o v, In (o, v) given -> In o required_options /\ is_argument v = true) ->
  (forall o, In o required_options -> In o (map fst given)) ->
  exists ckpt video audio out,
    last_value "--inference_ckpt_path" given = Some ckpt /\
    last_value "--video_path" given = Some video /\
    last_value "--audio_path" given = Some audio /\
    last_value "--video_out_path" given = Some out /\
    exists ns,
      parse_args int_of_str float_of_str (command_line given) = Parsed ns /\
      args_of_namespace ns =
      Some {| Args.unet_config_path := "configs/unet.yaml";
              Args.inference_ckpt_path := ckpt;
              Args.video_path := video;
              Args.audio_path := audio;
              Args.video_out_path := out;
              Args.inference_steps := 20;
              Args.guidance_scale := 1;
              Args.seed := 1247 |}.
Proof.
  intros Hok Hall.
  assert (Hreq : forall o v, In (o, v) given -> In o required_options)
    by (intros o v H; now apply (Hok o v)).
  destruct (last_value_given given "--inference_ckpt_path") as [ckpt Hckpt];
    [apply Hall; rewrite required_options_eq; cbn; tauto |].
  destruct (last_value_given given "--video_path") as [video Hvideo];
    [apply Hall; rewrite required_options_eq; cbn; tauto |].
  destruct (last_value_given given "--audio_path") as [audio Haudio];
    [apply Hall; rewrite required_options_eq; cbn; tauto |].
  destruct (last_value_given given "--video_out_path") as [out Hout];
    [apply Hall; rewrite required_options_eq; cbn; tauto |].
  exists ckpt, video, audio, out. repeat (split; [assumption |]).
  exists (namespace (foldl give initial given)). split.
  - unfold parse_args. rewrite consume_given by (reflexivity || assumption).
    cbn [Argparse.consume]. rewrite give_pending by reflexivity.
    rewrite missing_required_none; [reflexivity |].
    intros o Ho. apply give_seen. right. now apply Hall.
  - assert (Hother : forall k,
              In k ["unet_config_path"; "inference_steps"; "guidance_scale"; "seed"] ->
              namespace (foldl give initial given) !! k = namespace initial !! k).
    { intros k Hk. apply give_other. intros o v Hin E. subst k.
      now apply (dest_of_required o (Hreq o v Hin)). }
    assert (Hlast : forall o v,
              In o required_options -> last_value o given = Some v ->
              namespace (foldl give initial given) !! dest_of o = Some (VStr v)).
    { intros o v Ho Hv. rewrite give_last by assumption. now rewrite Hv. }
    unfold args_of_namespace, attr_str, attr_int, attr_float.
    rewrite (Hother "unet_config_path"), (Hother "inference_steps"),
      (Hother "guidance_scale"), (Hother "seed") by (cbn; tauto).
    assert (Hin : forall o,
              In o ["--inference_ckpt_path"; "--video_path"; "--audio_path"; "--video_out_path"] ->
              In o required_options) by (now rewrite required_options_eq).
    pose proof (Hlast "--inference_ckpt_path" _ (Hin "--inference_ckpt_path" ltac:(cbn; tauto)) Hckpt) as H1.
    pose proof (Hlast "--video_path" _ (Hin "--video_path" ltac:(cbn; tauto)) Hvideo) as H2.
    pose proof (Hlast "--audio_path" _ (Hin "--audio_path" ltac:(cbn; tauto)) Haudio) as H3.
    pose proof (Hlast "--video_out_path" _ (Hin "--video_out_path" ltac:(cbn; tauto)) Hout) as H4.
    change (dest_of "--inference_ckpt_path") with "inference_ckpt_path" in H1.
    change (dest_of "--video_path") with "video_path" in H2.
    change (dest_of "--audio_path") with "audio_path" in H3.
    change (dest_of "--video_out_path") with "video_out_path" in H4.
    rewrite H1, H2, H3, H4. reflexivity.
Qed.


End Facts.

(** C3, as stated, fails: the command line gives the four required
    options and nothing else, each followed by a value, and parsing ends
    the process: [-clip.mp4] begins with a dash and is no number, so
    argparse does not take it as the value of [--video_path]. *)
Lemma dash_value_exits :
  map fst
    [ ("--inference_ckpt_path", "unet.pt"); ("--video_path", "-clip.mp4");
      ("--audio_path", "demo.wav"); ("--video_out_path", "out.mp4") ] = required_options /\
  parse_args (fun _ => None) (fun _ => None)
    (command_line
       [ ("--inference_ckpt_path", "unet.pt"); ("--video_path", "-clip.mp4");
         ("--audio_path", "demo.wav"); ("--video_out_path", "out.mp4") ]) = SystemExit.
Proof. split; reflexivity. Qed.

(** C3, amended: the options declared required are exactly
    [--inference_ckpt_path], [--video_path], [--audio_path] and
    [--video_out_path]; the others are optional, with defaults 20 for
    [--inference_steps], 1.0 for [--guidance_scale] and 1247 for [--seed];
    parsing ends the process whenever no argument string stands for one
    of the four required options (in full, abbreviated, or with
    [=value]); and parsing succeeds when only the four are given, in any
    order, each followed by a value that argparse takes as an argument (a
    string it does not read as an option, for instance one that does not
    begin with a dash): the namespace then holds the last value given for
    each and the defaults for the rest. *)
Theorem command_line_contract (int_of_str : string -> option Z)
    (float_of_str : string -> option Q) :
  required_options =
    ["--inference_ckpt_path"; "--video_path"; "--audio_path"; "--video_out_path"] /\
  map (fun a => (option_string a, default a))
      (List.filter (fun a => negb (required a)) parser) =
    [ ("--unet_config_path", VStr "configs/unet.yaml");
      ("--inference_steps", VInt 20);
      ("--guidance_scale", VFloat 1);
      ("--seed", VInt 1247) ] /\
  (forall argv o,
     In o required_options ->
     (forall arg_string, In arg_string argv -> option_of arg_string <> Some o) ->
     parse_args int_of_str float_of_str argv = SystemExit) /\
  (forall given,
     (forall o v, In (o, v) given -> In o required_options /\ is_argument v = true) ->
     (forall o, In o required_options -> In o (map fst given)) ->
     exists ckpt video audio out,
       last_value "--inference_ckpt_path" given = Some ckpt /\
       last_value "--video_path" given = Some video /\
       last_value "--audio_path" given = Some audio /\
       last_value "--video_out_path" given = Some out /\
       exists ns,
         parse_args int_of_str float_of_str (command_line given) = Parsed ns /\
         args_of_namespace ns =
         Some {| Args.unet_config_path := "configs/unet.yaml";
                 Args.inference_ckpt_path := ckpt;
                 Args.video_path := video;
                 Args.audio_path := audio;
                 Args.video_out_path := out;
                 Args.inference_steps := 20;
                 Args.guidance_scale := 1;
                 Args.seed := 1247 |}).
Proof.
  split; [reflexivity |]. split; [reflexivity |]. split.
  - intros argv o. apply parse_args_needs_required.
  - apply parse_args_given.
Qed.

(** A command line without [--video_out_path] (and without
    [--inference_ckpt_path]). *)
Lemma command_line_contract_witness :
  parse_args (fun _ => None) (fun _ => None)
    ["--video_path"; "demo.mp4"; "--audio_p=demo.wav"; "--seed"; "7"] = SystemExit.
Proof.
  apply (proj1 (proj2 (proj2 (command_line_contract (fun _ => None) (fun _ => None))))
           _ "--video_out_path").
  - rewrite required_options_eq. cbn. tauto.
  - intros s Hs. cbn in Hs.
    destruct Hs as [<- | [<- | [<- | [<- | [<- | []]]]]]; vm_compute; discriminate.
Defined.

End ArgparseFacts.

(** * Further properties *)

(** ** File names *)

Lemma to_int_proper (n : Z) :
  Z.to_int n <> Decimal.Pos Decimal.Nil /\ Z.to_int n <> Decimal.Neg Decimal.Nil.
Proof.
  destruct n as [| p | p]; cbn; split; try discriminate;
    intros H; injection H as H; now apply Unsigned.to_uint_nonnil in H.
Qed.

Lemma str_injective (n n' : Z) : Py.str n = Py.str n' -> n = n'.
Proof.
  unfold Py.str. intros H.
  apply to_int_inj.
  destruct (to_int_proper n) as [Hp Hn], (to_int_proper n') as [Hp' Hn'].
  pose proof (NilZero.isi _ Hp Hn) as E. pose proof (NilZero.isi _ Hp' Hn') as E'.
  rewrite H, E' in E. now injection E.
Qed.

Lemma string_app_cons (c : ascii) (s t : string) :
  String c s +:+ t = String c (s +:+ t).
Proof. reflexivity. Qed.

Lemma string_app_length (s t : string) :
  String.length (s +:+ t) = (String.length s + String.length t)%nat.
Proof.
  induction s as [| c s IH]; [reflexivity |].
  rewrite string_app_cons. cbn. now rewrite IH.
Qed.

Lemma string_app_inv_tail (s s' t : string) : s +:+ t = s' +:+ t -> s = s'.
Proof.
  revert s'. induction s as [| c s IH]; intros [| c' s'] H.
  - reflexivity.
  - apply (f_equal String.length) in H. rewrite !string_app_length in H. cbn in H. lia.
  - apply (f_equal String.length) in H. rewrite !string_app_length in H. cbn in H. lia.
  - rewrite !string_app_cons in H. injection H as -> H. f_equal. now apply IH.
Qed.

Lemma os_path_join_assets (b : string) :
  Py.os_path_join output_folder_path b =
  if String.prefix "/" b then b else "assets/" +:+ b.
Proof. reflexivity. Qed.

Lemma prefix_slash (b : string) :
  String.prefix "/" b = true -> exists r, b = String "/" r.
Proof.
  destruct b as [| c b]; [discriminate |]. cbn [String.prefix].
  destruct (ascii_dec "/" c) as [<- | _]; [eauto | discriminate].
Qed.

Lemma os_path_join_injective (b b' : string) :
  Py.os_path_join output_folder_path b = Py.os_path_join output_folder_path b' -> b = b'.
Proof.
  rewrite !os_path_join_assets.
  destruct (String.prefix "/" b) eqn:E, (String.prefix "/" b') eqn:E'; intros H.
  - assumption.
  - apply prefix_slash in E. destruct E as [r ->]. discriminate H.
  - apply prefix_slash in E'. destruct E' as [r ->]. discriminate H.
  - now apply (inj (String.app "assets/")) in H.
Qed.

Lemma video_clip_injective (i j : nat) : video_clip i = video_clip j -> i = j.
Proof.
  unfold video_clip. intros H.
  apply os_path_join_injective, string_app_inv_tail, str_injective in H. lia.
Qed.

Lemma audio_clip_injective (i j : nat) : audio_clip i = audio_clip j -> i = j.
Proof.
  unfold audio_clip. intros H.
  apply os_path_join_injective, string_app_inv_tail, str_injective in H. lia.
Qed.

Lemma output_name_injective (i j : nat) : output_name i = output_name j -> i = j.
Proof.
  unfold output_name. intros H.
  apply (inj (String.app "output_")), string_app_inv_tail, str_injective in H. lia.
Qed.

Lemma string_app_split (s s' t t' : string) :
  String.length t = String.length t' -> s +:+ t = s' +:+ t' -> s = s' /\ t = t'.
Proof.
  intros Hlen. revert s'. induction s as [| c s IH]; intros [| c' s'] H.
  - now split.
  - apply (f_equal String.length) in H. rewrite !string_app_length in H. cbn in H. lia.
  - apply (f_equal String.length) in H. rewrite !string_app_length in H. cbn in H. lia.
  - rewrite !string_app_cons in H. injection H as -> H.
    destruct (IH _ H) as [-> ->]. now split.
Qed.

Lemma video_clip_not_audio_clip (i j : nat) : video_clip i <> audio_clip j.
Proof.
  unfold video_clip, audio_clip. intros H.
  apply os_path_join_injective, string_app_split in H; [| reflexivity].
  destruct H as [_ H]. discriminate H.
Qed.

Lemma NoDup_map_injective {A B} (f : A -> B) (l : list A) :
  (forall x y, f x = f y -> x = y) -> List.NoDup l -> List.NoDup (map f l).
Proof.
  intros Hf H. induction H as [| x l Hx H IH]; cbn; constructor; [| assumption].
  intros Hin. apply in_map_iff in Hin. destruct Hin as (y & Hy & Hin).
  apply Hf in Hy. now subst.
Qed.

(** X1: in every run the files the cuts write ([assets/i.mp4] and
    [assets/i.mp3]) are pairwise distinct, and the files the pipeline
    calls are asked to write ([output_i.mp4]) are pairwise distinct.
    (Nothing is said of the file the concatenation writes: it is named
    on the command line, and may be one of them.) *)
Theorem run_writes_distinct_files (env : Env) (config : Config.t) (args : Args.t) :
  let tr := trace (main env config args) in
  List.NoDup (map Ffmpeg.output (ffmpeg_jobs tr)) /\
  List.NoDup (map Pipeline.video_out_path (pipeline_calls tr)).
Proof.
  intros tr. subst tr. split.
  - rewrite main_ffmpeg_jobs, map_app, !map_map. cbn [Ffmpeg.output video_job audio_job].
    apply List.NoDup_app.
    + apply (NoDup_map_injective video_clip);
        [apply video_clip_injective | apply List.seq_NoDup].
    + apply (NoDup_map_injective audio_clip);
        [apply audio_clip_injective | apply List.seq_NoDup].
    + intros x Hx Hx'. apply in_map_iff in Hx, Hx'.
      destruct Hx as (i & <- & _), Hx' as (j & Hj & _).
      now apply (video_clip_not_audio_clip i j).
  - rewrite main_pipeline_calls. destruct (supported config); [| constructor].
    rewrite map_map. cbn [Pipeline.video_out_path pipeline_kwargs].
    apply (NoDup_map_injective output_name);
      [apply output_name_injective | apply List.seq_NoDup].
Qed.

(** ** The mask path *)

Lemma string_app_assoc (s t u : string) : (s +:+ t) +:+ u = s +:+ (t +:+ u).
Proof.
  induction s as [| c s IH]; [reflexivity |].
  rewrite !string_app_cons. now rewrite IH.
Qed.

Lemma uint_digits (d : Decimal.uint) :
  Argparse.all_digits (NilEmpty.string_of_uint d) = true.
Proof. induction d; cbn; try reflexivity; assumption. Qed.

Lemma str_digits (n : Z) : 0 <= n -> Argparse.all_digits (Py.str n) = true.
Proof.
  intros Hn. unfold Py.str. destruct n as [| p | p]; [reflexivity | | lia].
  cbn [Z.to_int NilZero.string_of_int]. unfold NilZero.string_of_uint.
  destruct (Pos.to_uint p) eqn:E; try (rewrite <- E; apply uint_digits).
  reflexivity.
Qed.

Lemma all_digits_app (s t : string) :
  Argparse.all_digits (s +:+ t) = (Argparse.all_digits s && Argparse.all_digits t)%bool.
Proof.
  induction s as [| c s IH]; [reflexivity |].
  rewrite string_app_cons. cbn [Argparse.all_digits]. rewrite IH. now rewrite andb_assoc.
Qed.

Lemma replace_mp4_step (new : string) (c : ascii) (s : string) :
  c <> "."%char ->
  Py.replace_go ".mp4" new 0 (String c s) = String c (Py.replace_go ".mp4" new 0 s).
Proof.
  intros Hc. cbn [Py.replace_go String.prefix].
  destruct (ascii_dec "." c) as [E | _]; [now subst | reflexivity].
Qed.

Lemma digit_not_dot (c : ascii) : Argparse.is_digit c = true -> c <> "."%char.
Proof. intros H ->. discriminate H. Qed.

Lemma replace_mp4_digits (s : string) :
  Argparse.all_digits s = true ->
  Py.replace_go ".mp4" "_mask.mp4" 0 (s +:+ ".mp4") = s +:+ "_mask.mp4".
Proof.
  induction s as [| c s IH]; [reflexivity |].
  cbn [Argparse.all_digits]. intros H. apply andb_true_iff in H. destruct H as [Hc Hs].
  rewrite !string_app_cons, replace_mp4_step by now apply digit_not_dot.
  now rewrite IH.
Qed.

Lemma mask_path_closed_form (i : nat) :
  Py.replace (output_name i) ".mp4" "_mask.mp4" =
  "output_" +:+ Py.str (Z.of_nat i + 1) +:+ "_mask.mp4".
Proof.
  unfold Py.replace, output_name.
  rewrite !string_app_cons. change ("" +:+ ?x) with x.
  rewrite !replace_mp4_step by discriminate.
  rewrite replace_mp4_digits by (apply str_digits; lia).
  reflexivity.
Qed.

Lemma mask_path_not_output (i j : nat) :
  Py.replace (output_name i) ".mp4" "_mask.mp4" <> output_name j.
Proof.
  rewrite mask_path_closed_form. unfold output_name. intros H.
  apply (inj (String.app "output_")) in H.
  change "_mask.mp4" with ("_mask" +:+ ".mp4") in H.
  rewrite <- string_app_assoc in H. apply string_app_inv_tail in H.
  apply (f_equal Argparse.all_digits) in H.
  rewrite all_digits_app, (str_digits (Z.of_nat j + 1)) in H by lia.
  rewrite andb_comm in H. discriminate H.
Qed.

(** X2: the mask path of the [i]-th pipeline call (0-based) is
    [output_<i+1>_mask.mp4]: [replace] rewrites the extension only, and
    no mask path is the output path of any pipeline call of the run. *)
Theorem mask_paths (env : Env) (config : Config.t) (args : Args.t) (i : nat)
    (kw : Pipeline.kwargs) :
  pipeline_calls (trace (main env config args)) !! i = Some kw ->
  Pipeline.video_mask_path kw = "output_" +:+ Py.str (Z.of_nat i + 1) +:+ "_mask.mp4" /\
  (forall kw', In kw' (pipeline_calls (trace (main env config args))) ->
     Pipeline.video_mask_path kw <> Pipeline.video_out_path kw').
Proof.
  intros H. apply main_pipeline_call in H. subst kw.
  cbn [Pipeline.video_mask_path pipeline_kwargs]. split; [apply mask_path_closed_form |].
  intros kw' Hin. rewrite main_pipeline_calls in Hin.
  destruct (supported config); [| destruct Hin].
  apply in_map_iff in Hin. destruct Hin as (j & <- & _).
  apply mask_path_not_output.
Qed.

Lemma mask_paths_witness :
  Pipeline.video_mask_path
    (pipeline_kwargs (env_of (12 # 1)) (config_of 384) (args_of 1247) 2) =
  "output_3_mask.mp4".
Proof.
  apply (mask_paths (env_of (12 # 1)) (config_of 384) (args_of 1247) 2).
  reflexivity.
Defined.

(** ** Segments and clips *)

Section MoreSegments.

Local Open Scope Q_scope.

(** Python's division identity for the two operations of lines 120-121. *)
Lemma floordiv_mod_identity (d : Q) :
  d == inject_Z segment_duration * Py.floordiv d (inject_Z segment_duration) +
       Py.mod_ d (inject_Z segment_duration) /\
  0 <= Py.mod_ d (inject_Z segment_duration) /\
  Py.mod_ d (inject_Z segment_duration) < inject_Z segment_duration.
Proof.
  unfold Py.floordiv, Py.mod_, segment_duration. change (inject_Z 5) with 5.
  pose proof (Qfloor_le (d / 5)) as Hlo.
  pose proof (Qlt_floor (d / 5)) as Hhi.
  rewrite inject_Z_plus in Hhi. change (inject_Z 1) with 1 in Hhi.
  pose proof (div5 d) as Hd.
  split; [ring |]. split; lra.
Qed.



Lemma end_time_short (d : Q) : d <= 5 -> end_time d 0 == d.
Proof.
  intros H. unfold end_time, Py.min, segment_duration.
  change (inject_Z ((Z.of_nat 0 + 1) * 5)) with 5.
  destruct (Qlt_le_dec d 5) as [_ | H']; [reflexivity |].
  now apply Qle_antisym.
Qed.

End MoreSegments.

(** X4: a duration that is zero or negative still gives one segment, and the
    one clip is cut with a length that is not positive. *)
Theorem nonpositive_duration (env : Env) (config : Config.t) (args : Args.t) :
  let d := ffprobe_video_duration env (Args.video_path args) in
  (d <= 0)%Q ->
  total_segments d = 1 /\
  exists jv ja,
    ffmpeg_jobs (trace (main env config args)) = [jv; ja] /\
    Ffmpeg.ss jv = start_time 0 /\ Ffmpeg.ss ja = start_time 0 /\
    (Ffmpeg.t jv == d)%Q /\ (Ffmpeg.t ja == d)%Q /\
    (Ffmpeg.t jv <= 0)%Q.
Proof.
  intros d Hd.
  assert (Hshort : (d <= 5)%Q) by lra.
  assert (Hn : total_segments d = 1) by now apply total_segments_short.
  split; [assumption |].
  exists (video_job (Args.video_path args) (video_clip 0) (start_time 0) (end_time d 0)),
         (audio_job (Args.audio_path args) (audio_clip 0) (start_time 0) (end_time d 0)).
  split.
  - rewrite main_ffmpeg_jobs. fold d. now rewrite Hn.
  - cbn [Ffmpeg.ss Ffmpeg.t video_job audio_job].
    assert (Ht : (end_time d 0 - start_time 0 == d)%Q).
    { rewrite (end_time_short d Hshort). unfold start_time, segment_duration.
      change (inject_Z (Z.of_nat 0 * 5)) with 0%Q. unfold d. ring. }
    repeat split; try assumption. now rewrite Ht.
Qed.

Lemma nonpositive_duration_witness :
  total_segments (ffprobe_video_duration (env_of 0) (Args.video_path (args_of 1247))) = 1.
Proof.
  apply (nonpositive_duration (env_of 0) (config_of 384) (args_of 1247)).
  vm_compute. discriminate.
Defined.

Section ClipLengths.

Local Open Scope Q_scope.

Lemma Qsum_app (l l' : list Q) : Qsum (l ++ l') == Qsum l + Qsum l'.
Proof.
  unfold Qsum. induction l as [| x l IH]; cbn [fold_right app].
  - now rewrite Qplus_0_l.
  - rewrite IH. now rewrite Qplus_assoc.
Qed.

Lemma clip_length_inner (d : Q) (i : nat) :
  0 < d -> (Z.of_nat (S i) < total_segments d)%Z ->
  clip_length d i == inject_Z segment_duration.
Proof.
  intros Hpos Hi. unfold clip_length. rewrite end_time_inner by assumption.
  unfold start_time, segment_duration. rewrite Nat2Z.inj_succ.
  rewrite !inject_Z_mult, <- Z.add_1_r, inject_Z_plus. ring.
Qed.

(** The clips before segment [k] cover the video up to the start of [k]. *)
Lemma clip_lengths_prefix (d : Q) (k : nat) :
  0 < d -> (Z.of_nat k < total_segments d)%Z ->
  Qsum (map (clip_length d) (seq 0 k)) == start_time k.
Proof.
  intros Hpos. induction k as [| k IH]; intros Hk; [reflexivity |].
  rewrite seq_S, map_app, Qsum_app, IH by lia.
  cbn [map Nat.add Qsum fold_right].
  rewrite clip_length_inner by assumption.
  unfold start_time, segment_duration. rewrite Nat2Z.inj_succ.
  rewrite !inject_Z_mult, <- Z.add_1_r, inject_Z_plus. ring.
Qed.

Lemma clip_lengths_total (d : Q) :
  0 < d ->
  Qsum (map (clip_length d) (seq 0 (Z.to_nat (total_segments d)))) == d.
Proof.
  intros Hpos. pose proof (total_segments_pos d) as Hn.
  destruct (Z.to_nat (total_segments d)) as [| k] eqn:E; [lia |].
  rewrite seq_S, map_app, Qsum_app, clip_lengths_prefix by (assumption || lia).
  cbn [map Nat.add Qsum fold_right]. unfold clip_length.
  rewrite end_time_last by (assumption || lia). ring.
Qed.

End ClipLengths.

(** In exact arithmetic, for a positive duration: no clip is empty or longer than the segment
    duration, every clip but the last is exactly one segment duration
    long, and the lengths of the video clips (and of the audio clips) add
    up to the duration. *)
Theorem clip_lengths (env : Env) (config : Config.t) (args : Args.t) :
  let d := ffprobe_video_duration env (Args.video_path args) in
  let n := Z.to_nat (total_segments d) in
  (0 < d)%Q ->
  map Ffmpeg.t (ffmpeg_jobs (trace (main env config args))) =
    map (clip_length d) (seq 0 n) ++ map (clip_length d) (seq 0 n) /\
  (forall i, (i < n)%nat ->
     (0 < clip_length d i)%Q /\ (clip_length d i <= inject_Z segment_duration)%Q) /\
  (forall i, (S i < n)%nat -> (clip_length d i == inject_Z segment_duration)%Q) /\
  (Qsum (map (clip_length d) (seq 0 n)) == d)%Q.
Proof.
  intros d n Hpos. split; [| split; [| split]].
  - rewrite main_ffmpeg_jobs, map_app, !map_map. reflexivity.
  - intros i Hi. unfold clip_length.
    pose proof (segment_nonempty d i Hpos ltac:(subst n; lia)) as Hlt.
    split; [lra |].
    assert (Hend : (end_time d i <= inject_Z ((Z.of_nat i + 1) * segment_duration))%Q).
    { unfold end_time. rewrite py_min_Qmin. apply Q.le_min_l. }
    unfold start_time in *. rewrite !inject_Z_mult, inject_Z_plus in *.
    change (inject_Z 1) with 1%Q in *. lra.
  - intros i Hi. apply clip_length_inner; [assumption | subst n; lia].
  - now apply clip_lengths_total.
Qed.

Lemma clip_lengths_witness :
  (Qsum (map (clip_length (12 # 1)) (seq 0 3)) == 12 # 1)%Q.
Proof.
  apply (clip_lengths (env_of (12 # 1)) (config_of 384) (args_of 1247)).
  reflexivity.
Defined.

(** Once the probe has given a duration, an unsupported
    [cross_attention_dim] is found only after every clip
    has been cut: the run probes, runs all 2N cuts, loads the scheduler
    and raises; nothing else is loaded, seeded, processed or written. *)
Theorem unsupported_fails_after_cutting (env : Env) (config : Config.t) (args : Args.t) :
  let d := ffprobe_video_duration env (Args.video_path args) in
  let n := Z.to_nat (total_segments d) in
  supported config = false ->
  main env config args =
    (probe_steps args ++ video_cut_steps args d ++ audio_cut_steps args d ++
     [DDIMScheduler_from_pretrained "configs"],
     Raise NotImplemented) /\
  length (ffmpeg_jobs (trace (main env config args))) = (n + n)%nat /\
  (2 <= n + n)%nat /\
  pipeline_calls (trace (main env config args)) = [] /\
  subprocess_runs (trace (main env config args)) = [] /\
  count is_set_seed (trace (main env config args)) = 0%nat /\
  count is_torch_seed (trace (main env config args)) = 0%nat.
Proof.
  intros d n Hs. split; [| split; [| split; [| split; [| split; [| split]]]]].
  - rewrite main_run, Hs. reflexivity.
  - rewrite main_ffmpeg_jobs, length_app, !length_map, !length_seq. reflexivity.
  - pose proof (total_segments_pos d). subst n. lia.
  - now rewrite main_pipeline_calls, Hs.
  - now rewrite main_subprocess_runs, Hs.
  - now rewrite count_set_seed, Hs.
  - now rewrite count_torch_seed, Hs.
Qed.

Lemma unsupported_fails_after_cutting_witness :
  length (ffmpeg_jobs (trace (main (env_of (12 # 1)) (config_of 512) (args_of 1247)))) = 6%nat.
Proof.
  apply (unsupported_fails_after_cutting (env_of (12 # 1)) (config_of 512) (args_of 1247)).
  reflexivity.
Defined.



(** X8: every clip that is cut is processed: in a complete run the files the
    cuts wrote are the files the pipeline calls read, video clips and
    audio clips in segment order. *)
Theorem cut_clips_are_processed (env : Env) (config : Config.t) (args : Args.t) :
  let tr := trace (main env config args) in
  supported config = true ->
  map Ffmpeg.output (ffmpeg_jobs tr) =
  map Pipeline.video_path (pipeline_calls tr) ++ map Pipeline.audio_path (pipeline_calls tr).
Proof.
  intros tr Hs. subst tr.
  rewrite main_ffmpeg_jobs, main_pipeline_calls, Hs, map_app, !map_map. reflexivity.
Qed.

Lemma cut_clips_are_processed_witness :
  map Ffmpeg.output
      (ffmpeg_jobs (trace (main (env_of (7 # 1)) (config_of 768) (args_of 1247)))) =
  ["assets/1.mp4"; "assets/2.mp4"; "assets/1.mp3"; "assets/2.mp3"].
Proof.
  rewrite (cut_clips_are_processed (env_of (7 # 1)) (config_of 768) (args_of 1247));
    reflexivity.
Defined.

(** ** [concatenate_videos] on any list of paths *)

Lemma read_inputs_flat_map (paths rest : list string) :
  (forall flag path rest', rest = flag :: path :: rest' -> String.eqb flag "-i" = false) ->
  read_inputs (flat_map (fun path => ["-i"; path]) paths ++ rest) = paths ++ read_inputs rest.
Proof.
  intros Hrest. induction paths as [| p paths IH]; [reflexivity |].
  cbn [flat_map app read_inputs]. cbn [String.eqb Ascii.eqb Bool.eqb]. now rewrite IH.
Qed.

Lemma inputs_of_concat_command (video_paths : list string) (output_path : string) :
  inputs_of (concat_command video_paths output_path) = video_paths.
Proof.
  unfold inputs_of, concat_command.
  change (skipn 2 (["ffmpeg"; "-y"] ++ ?x)) with x. rewrite read_inputs_flat_map.
  - cbn. apply app_nil_r.
  - intros flag path rest' H. injection H as <- _ _. reflexivity.
Qed.

(** X9: for every list of paths, the empty one included, [concatenate_videos]
    runs one command, checked, and returns the output path; the command
    names exactly the given paths as inputs, in order, announces their
    number to the concat filter, and ends with the output path. *)
Theorem concatenate_videos_command (video_paths : list string) (output_path : string) :
  exists cmd,
    concatenate_videos video_paths output_path = ([Subprocess_run cmd true], Return output_path) /\
    inputs_of cmd = video_paths /\
    length cmd = (21 + 2 * length video_paths)%nat /\
    List.last cmd "" = output_path /\
    cmd !! (2 + 2 * length video_paths)%nat = Some "-filter_complex" /\
    cmd !! (3 + 2 * length video_paths)%nat =
      Some (String.concat ""
              (map (fun i : nat =>
                      "[" +:+ Py.str (Z.of_nat i) +:+ ":v:0][" +:+ Py.str (Z.of_nat i) +:+ ":a:0]")
                   (seq 0 (length video_paths)))
            +:+ "concat=n=" +:+ Py.str (Z.of_nat (length video_paths)) +:+ ":v=1:a=1[v][a]").
Proof.
  exists (concat_command video_paths output_path).
  split; [apply concatenate_videos_run |].
  assert (Hlen : length (flat_map (fun path : string => ["-i"; path]) video_paths) =
                 (2 * length video_paths)%nat).
  { induction video_paths as [| p l IH]; cbn [flat_map app length]; lia. }
  split; [apply inputs_of_concat_command |].
  unfold concat_command. split; [| split; [| split]].
  - rewrite !length_app, Hlen. cbn [length]. lia.
  - rewrite !app_assoc.
    match goal with
    | |- List.last (?pre ++ ?l) _ = _ =>
        change l with ((List.removelast l) ++ [output_path])
    end.
    rewrite app_assoc. apply List.last_last.
  - rewrite app_assoc, lookup_app_r by (rewrite length_app, Hlen; cbn [length]; lia).
    rewrite length_app, Hlen. cbn [length].
    replace (2 + 2 * length video_paths - (2 + 2 * length video_paths))%nat with 0%nat by lia.
    reflexivity.
  - rewrite app_assoc, lookup_app_r by (rewrite length_app, Hlen; cbn [length]; lia).
    rewrite length_app, Hlen. cbn [length].
    replace (3 + 2 * length video_paths - (2 + 2 * length video_paths))%nat with 1%nat by lia.
    reflexivity.
Qed.



(** ** The parser on any command line *)

Module ArgparseMore.
Import Argparse ArgparseTypes ArgparseFacts.

Ltac parser_cases H :=
  unfold parser in H; cbn [In] in H;
  destruct H as [<- | [<- | [<- | [<- | [<- | [<- | [<- | [<- | []]]]]]]]].

Lemma find_action_parser (o : string) (a : action) :
  find_action o option_string_actions = Some (Store a) -> In a parser.
Proof.
  unfold option_string_actions, parser. cbn [map find_action fst snd option_string add_argument].
  repeat match goal with
    | |- context [String.eqb o ?s] =>
        destruct (String.eqb_spec o s) as [-> | _];
        [intros H; try discriminate H; injection H as <-; cbn [In]; tauto |]
    end.
  discriminate.
Qed.

Lemma dest_injective (a a' : action) :
  In a parser -> In a' parser -> dest a = dest a' -> a = a'.
Proof.
  intros Ha Ha' H. parser_cases Ha; parser_cases Ha';
    try reflexivity; vm_compute in H; discriminate H.
Qed.

Lemma option_string_injective (a a' : action) :
  In a parser -> In a' parser -> option_string a = option_string a' -> a = a'.
Proof.
  intros Ha Ha' H. apply dest_injective; try assumption.
  unfold dest. now rewrite H.
Qed.

Lemma initial_well_formed : well_formed initial.
Proof.
  split; [| discriminate].
  intros a Ha. exists (default a). split; [| right; split; [reflexivity | intros []]].
  parser_cases Ha; reflexivity.
Qed.

Section Invariant.

Variable int_of_str : string -> option Z.
Variable float_of_str : string -> option Q.

Lemma get_value_typed (a : action) (s : string) (v : value) :
  get_value int_of_str float_of_str a s = Some v -> typed (type a) v = true.
Proof.
  unfold get_value. destruct (type a).
  - intros H. now injection H as <-.
  - destruct (int_of_str s); [| discriminate]. intros H. now injection H as <-.
  - destruct (float_of_str s); [| discriminate]. intros H. now injection H as <-.
Qed.

Lemma store_well_formed (a : action) (s : string) (st st' : state) :
  In a parser -> well_formed st ->
  store int_of_str float_of_str a s st = Some st' -> well_formed st'.
Proof.
  intros Ha [Hns _]. unfold store.
  destruct (get_value int_of_str float_of_str a s) as [v |] eqn:Hv; [| discriminate].
  intros H. injection H as <-. split; [| discriminate].
  intros a' Ha'. cbn [namespace seen_actions].
  destruct (decide (dest a = dest a')) as [E | E].
  - apply dest_injective in E; [| assumption | assumption]. subst a'.
    exists v. split; [apply lookup_insert_eq |]. left. eapply get_value_typed, Hv.
  - destruct (Hns a' Ha') as (v' & Hv' & Ht).
    exists v'. split; [now rewrite lookup_insert_ne |].
    destruct Ht as [Ht | [Hd Ht]]; [now left | right].
    split; [assumption |].
    intros [Heq | Hin]; [| contradiction].
    apply E. unfold dest. now rewrite Heq.
Qed.

Lemma step_well_formed (st st' : state) (arg_string : string) :
  well_formed st -> step int_of_str float_of_str st arg_string = Some st' -> well_formed st'.
Proof.
  intros Hwf. unfold step.
  destruct (pending st) as [a |] eqn:Hp.
  - destruct (is_argument arg_string); [| discriminate].
    apply store_well_formed; [| assumption]. now apply (proj2 Hwf).
  - destruct (String.eqb arg_string "--"); [discriminate |].
    destruct (parse_optional arg_string) as [| o explicit | |]; try discriminate.
    destruct (find_action o option_string_actions) as [[| a] |] eqn:Hfind; try discriminate.
    apply find_action_parser in Hfind.
    destruct explicit as [v |].
    + now apply store_well_formed.
    + intros H. injection H as <-. destruct Hwf as [Hns _]. split.
      * exact Hns.
      * cbn [pending]. intros a' H. now injection H as <-.
Qed.

Lemma consume_well_formed (argv : list string) (st : state) (ns : gmap string value) :
  well_formed st -> consume int_of_str float_of_str st argv = Parsed ns ->
  exists st', namespace st' = ns /\ well_formed st' /\
              missing_required (seen_actions st') = [].
Proof.
  revert st. induction argv as [| tok argv IH]; intros st Hwf H; cbn [consume] in H.
  - destruct (pending st); [discriminate |].
    destruct (missing_required (seen_actions st)) eqn:E; [| discriminate].
    injection H as <-. now exists st.
  - destruct (step int_of_str float_of_str st tok) as [st' |] eqn:Hstep; [| discriminate].
    apply (IH st'); [| assumption]. eapply step_well_formed; eassumption.
Qed.

Lemma parsed_attributes (argv : list string) (ns : gmap string value) (a : action) :
  parse_args int_of_str float_of_str argv = Parsed ns ->
  In a parser ->
  exists v, ns !! dest a = Some v /\ typed (type a) v = true.
Proof.
  unfold parse_args. intros H Ha.
  apply consume_well_formed in H; [| apply initial_well_formed].
  destruct H as (st & <- & [Hns _] & Hmiss).
  destruct (Hns a Ha) as (v & Hv & [Ht | [Hd Hnot]]); [eauto |].
  exists v. split; [assumption |]. subst v.
  destruct (required a) eqn:Hreq.
  - exfalso. apply Hnot. apply (missing_required_nil _ _ Hmiss).
    unfold required_options. apply in_map, filter_In. now split.
  - parser_cases Ha; try discriminate Hreq; reflexivity.
Qed.

(** Whenever [parse_args] returns, the namespace has the eight attributes
    with the types the script relies on; the four required ones are
    strings, not [None]. *)
Lemma parsed_namespace_typed (argv : list string) (ns : gmap string value) :
  parse_args int_of_str float_of_str argv = Parsed ns ->
  exists args, args_of_namespace ns = Some args.
Proof.
  intros H.
  assert (Hin : forall o ty r d, In (add_argument o ty r d) parser ->
            exists v, ns !! dest_of o = Some v /\ typed ty v = true).
  { intros o ty r d Hin. apply (parsed_attributes _ _ _ H Hin). }
  destruct (Hin "--unet_config_path" _ _ _ ltac:(cbn; tauto)) as (v1 & H1 & T1).
  destruct (Hin "--inference_ckpt_path" _ _ _ ltac:(cbn; tauto)) as (v2 & H2 & T2).
  destruct (Hin "--video_path" _ _ _ ltac:(cbn; tauto)) as (v3 & H3 & T3).
  destruct (Hin "--audio_path" _ _ _ ltac:(cbn; tauto)) as (v4 & H4 & T4).
  destruct (Hin "--video_out_path" _ _ _ ltac:(cbn; tauto)) as (v5 & H5 & T5).
  destruct (Hin "--inference_steps" _ _ _ ltac:(cbn; tauto)) as (v6 & H6 & T6).
  destruct (Hin "--guidance_scale" _ _ _ ltac:(cbn; tauto)) as (v7 & H7 & T7).
  destruct (Hin "--seed" _ _ _ ltac:(cbn; tauto)) as (v8 & H8 & T8).
  change (dest_of "--unet_config_path") with "unet_config_path" in H1.
  change (dest_of "--inference_ckpt_path") with "inference_ckpt_path" in H2.
  change (dest_of "--video_path") with "video_path" in H3.
  change (dest_of "--audio_path") with "audio_path" in H4.
  change (dest_of "--video_out_path") with "video_out_path" in H5.
  change (dest_of "--inference_steps") with "inference_steps" in H6.
  change (dest_of "--guidance_scale") with "guidance_scale" in H7.
  change (dest_of "--seed") with "seed" in H8.
  unfold args_of_namespace, attr_str, attr_int, attr_float.
  rewrite H1, H2, H3, H4, H5, H6, H7, H8.
  destruct v1; try discriminate T1. destruct v2; try discriminate T2.
  destruct v3; try discriminate T3. destruct v4; try discriminate T4.
  destruct v5; try discriminate T5. destruct v6; try discriminate T6.
  destruct v7; try discriminate T7. destruct v8; try discriminate T8.
  cbn. eauto.
Qed.


Lemma consume_untouched (argv : list string) (st : state) (ns : gmap string value)
    (a : action) :
  well_formed st ->
  consume int_of_str float_of_str st argv = Parsed ns ->
  In a parser -> pending st <> Some a ->
  (forall arg_string, In arg_string argv -> option_of arg_string <> Some (option_string a)) ->
  ns !! dest a = namespace st !! dest a.
Proof.
  intros Hwf H Ha. revert st Hwf H.
  induction argv as [| tok argv IH]; intros st Hwf H Hp Habsent; cbn [consume] in H.
  - destruct (pending st); [discriminate |].
    destruct (missing_required (seen_actions st)); [| discriminate].
    now injection H as <-.
  - destruct (step int_of_str float_of_str st tok) as [st' |] eqn:Hstep; [| discriminate].
    pose proof (step_well_formed _ _ _ Hwf Hstep) as Hwf'.
    assert (Hrest : forall arg_string,
              In arg_string argv -> option_of arg_string <> Some (option_string a))
      by (intros t Ht; apply Habsent; now right).
    assert (Hstore : forall a' v st'',
              In a' parser -> a' <> a ->
              store int_of_str float_of_str a' v st = Some st'' ->
              pending st'' <> Some a /\ namespace st'' !! dest a = namespace st !! dest a).
    { intros a' v st'' Ha' Hne Hs. unfold store in Hs.
      destruct (get_value int_of_str float_of_str a' v); [| discriminate].
      injection Hs as <-. split; [discriminate |]. cbn [namespace].
      apply lookup_insert_ne. intros E. apply Hne. now apply dest_injective. }
    unfold step in Hstep. destruct (pending st) as [a' |] eqn:Hpend.
    + destruct (is_argument tok); [| discriminate].
      destruct (Hstore a' tok st' (proj2 Hwf a' Hpend) ltac:(congruence) Hstep) as [Hp' E].
      rewrite <- E. now apply IH.
    + destruct (String.eqb tok "--"); [discriminate |].
      destruct (parse_optional tok) as [| o explicit | |] eqn:Hparse; try discriminate.
      destruct (find_action o option_string_actions) as [[| a'] |] eqn:Hfind; try discriminate.
      pose proof (find_action_parser _ _ Hfind) as Ha'.
      apply find_action_store in Hfind.
      assert (Hne : a' <> a).
      { intros ->. apply (Habsent tok); [now left |].
        unfold option_of. rewrite Hparse. now rewrite Hfind. }
      destruct explicit as [v |].
      * destruct (Hstore a' v st' Ha' Hne Hstep) as [Hp' E].
        rewrite <- E. now apply IH.
      * injection Hstep as Hst'. subst st'. rewrite (IH _ Hwf' H); [reflexivity | | exact Hrest].
        cbn [pending]. congruence.
Qed.

Lemma absent_keeps_default (argv : list string) (ns : gmap string value) (a : action) :
  parse_args int_of_str float_of_str argv = Parsed ns ->
  In a parser ->
  (forall arg_string, In arg_string argv -> option_of arg_string <> Some (option_string a)) ->
  ns !! dest a = Some (default a).
Proof.
  intros H Ha Habsent. unfold parse_args in H.
  rewrite (consume_untouched argv initial ns a initial_well_formed H Ha ltac:(discriminate) Habsent).
  parser_cases Ha; reflexivity.
Qed.

End Invariant.

(** X11: an option that no argument string stands for keeps its default in
    every namespace [parse_args] returns, whatever else the command line
    holds: 20 inference steps, guidance scale 1.0, seed 1247 and
    [configs/unet.yaml]. *)
Theorem absent_option_keeps_default (int_of_str : string -> option Z)
    (float_of_str : string -> option Q) (argv : list string) (ns : gmap string value) :
  parse_args int_of_str float_of_str argv = Parsed ns ->
  (forall a, In a parser ->
     (forall arg_string, In arg_string argv -> option_of arg_string <> Some (option_string a)) ->
     ns !! dest a = Some (default a)) /\
  ((forall arg_string, In arg_string argv -> option_of arg_string <> Some "--inference_steps") ->
   attr_int ns "inference_steps" = Some 20) /\
  ((forall arg_string, In arg_string argv -> option_of arg_string <> Some "--guidance_scale") ->
   attr_float ns "guidance_scale" = Some 1%Q) /\
  ((forall arg_string, In arg_string argv -> option_of arg_string <> Some "--seed") ->
   attr_int ns "seed" = Some 1247) /\
  ((forall arg_string, In arg_string argv -> option_of arg_string <> Some "--unet_config_path") ->
   attr_str ns "unet_config_path" = Some "configs/unet.yaml").
Proof.
  intros H.
  assert (Hd : forall o ty r d,
            In (add_argument o ty r d) parser ->
            (forall arg_string, In arg_string argv -> option_of arg_string <> Some o) ->
            ns !! dest_of o = Some d).
  { intros o ty r d Hin Habs.
    apply (absent_keeps_default _ _ _ _ (add_argument o ty r d) H Hin Habs). }
  split; [| split; [| split; [| split]]].
  - intros a Ha. now apply (absent_keeps_default int_of_str float_of_str).
  - intros Habs. unfold attr_int.
    change "inference_steps" with (dest_of "--inference_steps").
    now rewrite (Hd "--inference_steps" type_int false (VInt 20) ltac:(cbn; tauto) Habs).
  - intros Habs. unfold attr_float.
    change "guidance_scale" with (dest_of "--guidance_scale").
    now rewrite (Hd "--guidance_scale" type_float false (VFloat 1) ltac:(cbn; tauto) Habs).
  - intros Habs. unfold attr_int.
    change "seed" with (dest_of "--seed").
    now rewrite (Hd "--seed" type_int false (VInt 1247) ltac:(cbn; tauto) Habs).
  - intros Habs. unfold attr_str.
    change "unet_config_path" with (dest_of "--unet_config_path").
    now rewrite (Hd "--unet_config_path" type_str false (VStr "configs/unet.yaml")
                   ltac:(cbn; tauto) Habs).
Qed.

Lemma absent_option_keeps_default_witness :
  exists ns,
    parse_args (fun _ => None) (fun _ => None)
      [ "--inference_ckpt_path"; "unet.pt"; "--video_path"; "demo.mp4";
        "--audio_path"; "demo.wav"; "--video_out_path"; "out.mp4" ] = Parsed ns /\
    attr_int ns "seed" = Some 1247.
Proof.
  destruct (parse_args (fun _ => None) (fun _ => None)
      [ "--inference_ckpt_path"; "unet.pt"; "--video_path"; "demo.mp4";
        "--audio_path"; "demo.wav"; "--video_out_path"; "out.mp4" ]) as [ns |] eqn:E;
    [| vm_compute in E; discriminate E].
  exists ns. split; [reflexivity |].
  apply (absent_option_keeps_default (fun _ => None) (fun _ => None) _ ns E).
  intros s Hs. cbn in Hs.
  destruct Hs as [<- | [<- | [<- | [<- | [<- | [<- | [<- | [<- | []]]]]]]]];
    vm_compute; discriminate.
Defined.

End ArgparseMore.

(** ** The script as a whole *)

Lemma main_seed_events (env : Env) (config : Config.t) (args : Args.t) :
  (In Torch_seed (trace (main env config args)) -> Args.seed args = -1) /\
  (forall seed, In (Set_seed seed) (trace (main env config args)) ->
     seed = Args.seed args /\ seed <> -1).
Proof.
  split.
  - intros H. destruct (Z.eqb_spec (Args.seed args) (-1)) as [E | E]; [assumption |].
    apply Z.eqb_neq in E. rewrite main_trace in H. unfold seed_steps in H.
    rewrite E in H. cbn [negb] in H. in_trace H.
  - intros seed H. destruct (Z.eqb_spec (Args.seed args) (-1)) as [E | E].
    + apply Z.eqb_eq in E. rewrite main_trace in H. unfold seed_steps in H.
      rewrite E in H. cbn [negb] in H. in_trace H.
    + pose proof E as E'. apply Z.eqb_neq in E'. rewrite main_trace in H.
      unfold seed_steps in H. rewrite E' in H. cbn [negb] in H. in_trace H.
      injection H as <-. now split.
Qed.


(** X13: a command line that lacks a required option stops the script before
    anything is probed, cut, loaded or written. *)
Theorem missing_required_runs_nothing (int_of_str : string -> option Z)
    (float_of_str : string -> option Q) (env : Env) (argv : list string) (o : string) :
  In o Argparse.required_options ->
  (forall arg_string, In arg_string argv -> Argparse.option_of arg_string <> Some o) ->
  script int_of_str float_of_str env argv = ([], Raise SystemExit).
Proof.
  intros Ho Habs. unfold script.
  now rewrite (ArgparseFacts.parse_args_needs_required _ _ argv o Ho Habs).
Qed.

Lemma missing_required_runs_nothing_witness :
  script (fun _ => None) (fun _ => None) (env_of (12 # 1))
    ["--video_path"; "demo.mp4"; "--audio_path"; "demo.wav"; "--video_out_path"; "out.mp4"] =
  ([], Raise SystemExit).
Proof.
  apply (missing_required_runs_nothing _ _ _ _ "--inference_ckpt_path").
  - rewrite ArgparseFacts.required_options_eq. cbn. tauto.
  - intros s Hs. cbn in Hs.
    destruct Hs as [<- | [<- | [<- | [<- | [<- | [<- | []]]]]]]; vm_compute; discriminate.
Defined.

(** X14: without a [--seed] on the command line a run of the script never
    calls [torch.seed()], and seeds only with 1247. *)
Theorem default_seed_is_deterministic (int_of_str : string -> option Z)
    (float_of_str : string -> option Q) (env : Env) (argv : list string) :
  (forall arg_string, In arg_string argv -> Argparse.option_of arg_string <> Some "--seed") ->
  let tr := trace (script int_of_str float_of_str env argv) in
  ~ In Torch_seed tr /\
  (forall seed, In (Set_seed seed) tr -> seed = 1247) /\
  (forall g, rng_at_first_call (torch_seed env) Unseeded tr = Some g -> g = Seeded 1247).
Proof.
  intros Habs tr. subst tr. unfold script.
  destruct (Argparse.parse_args int_of_str float_of_str argv) as [ns |] eqn:Hparse;
    [| cbn; split; [tauto |]; split; [intros seed [] | discriminate]].
  destruct (ArgparseMore.parsed_namespace_typed _ _ _ _ Hparse) as [args Hargs].
  rewrite Hargs.
  - pose proof (ArgparseMore.absent_keeps_default _ _ _ _
                  (Argparse.add_argument "--seed" Argparse.type_int false (Argparse.VInt 1247))
                  Hparse ltac:(cbn; tauto) Habs) as Hseed.
    change (Argparse.dest _) with "seed" in Hseed. cbn [Argparse.default Argparse.add_argument] in Hseed.
    apply args_of_namespace_attrs in Hargs.
    assert (E : Args.seed args = 1247).
    { destruct Hargs as (_ & _ & _ & _ & _ & _ & _ & H).
      unfold attr_int in H. rewrite Hseed in H. congruence. }
    destruct (main_seed_events env (OmegaConf_load env (Args.unet_config_path args)) args)
      as [Ht Hs].
    split; [| split].
    + intros H. apply Ht in H. lia.
    + intros seed H. apply Hs in H. lia.
    + intros g Hg.
      destruct (supported (OmegaConf_load env (Args.unet_config_path args))) eqn:Hsup.
      * rewrite main_rng_at_first_call, E in Hg by assumption. cbn in Hg. congruence.
      * exfalso. rewrite main_trace, Hsup in Hg.
        rewrite (rng_skip _ _ (probe_steps args)) in Hg by reflexivity.
        rewrite (rng_skip _ _ (video_cut_steps args _)) in Hg by (now apply forallb_map_true).
        rewrite (rng_skip _ _ (audio_cut_steps args _)) in Hg by (now apply forallb_map_true).
        discriminate Hg.
Qed.

Lemma default_seed_is_deterministic_witness :
  ~ In Torch_seed
      (trace (script (fun _ => None) (fun _ => None) (env_of (12 # 1))
                [ "--video_path"; "demo.mp4"; "--audio_path"; "demo.wav";
                  "--video_out_path"; "out.mp4"; "--inference_ckpt_path"; "unet.pt" ])) /\
  (forall seed,
     In (Set_seed seed)
        (trace (script (fun _ => None) (fun _ => None) (env_of (12 # 1))
                  [ "--video_path"; "demo.mp4"; "--audio_path"; "demo.wav";
                    "--video_out_path"; "out.mp4"; "--inference_ckpt_path"; "unet.pt" ])) ->
     seed = 1247).
Proof.
  assert (Habs : forall arg_string,
            In arg_string
               [ "--video_path"; "demo.mp4"; "--audio_path"; "demo.wav";
                 "--video_out_path"; "out.mp4"; "--inference_ckpt_path"; "unet.pt" ] ->
            Argparse.option_of arg_string <> Some "--seed").
  { intros s Hs. cbn in Hs.
    destruct Hs as [<- | [<- | [<- | [<- | [<- | [<- | [<- | [<- | []]]]]]]]];
      vm_compute; discriminate. }
  destruct (default_seed_is_deterministic (fun _ => None) (fun _ => None) (env_of (12 # 1)) _ Habs)
    as (H1 & H2 & _).
  split; [exact H1 | exact H2].
Defined.

(** ** Values of options *)

Module ArgparseValues.
Import Argparse.

Lemma strip_final_newline_dash (s : string) :
  exists r, strip_final_newline (String "-" s) = String "-" r.
Proof. destruct s; cbn; eauto. Qed.

Lemma negative_number_double_dash (s : string) :
  negative_number (String "-" (String "-" s)) = false.
Proof.
  unfold negative_number. destruct (strip_final_newline_dash s) as [r ->]. reflexivity.
Qed.

Lemma not_dash_is_argument (s : string) :
  String.prefix "-" s = false -> is_argument s = true.
Proof.
  destruct s as [| c s]; [reflexivity |]. cbn [String.prefix].
  destruct (ascii_dec "-" c) as [<- | Hc]; [destruct s; discriminate |]. intros _.
  assert (E : Ascii.eqb c "-" = false) by (apply Ascii.eqb_neq; congruence).
  unfold is_argument, parse_optional. rewrite E. cbn [negb String.eqb]. now rewrite E.
Qed.

Lemma double_dash_not_argument (s : string) :
  contains_space s = false -> is_argument ("--" +:+ s) = false.
Proof.
  intros Hs. change ("--" +:+ s) with (String "-" (String "-" s)).
  unfold is_argument. apply andb_false_iff. right.
  unfold parse_optional. cbn [Ascii.eqb Bool.eqb negb].
  destruct (is_registered _); [reflexivity |].
  cbn [String.length Nat.eqb].
  destruct (match split_eq _ with Some _ => _ | None => None end) as [[o e] |]; [reflexivity |].
  destruct (get_option_tuples _) as [| [o e] [| ? ?]]; try reflexivity.
  rewrite negative_number_double_dash.
  cbn [contains_space Ascii.eqb Bool.eqb orb]. now rewrite Hs.
Qed.

Lemma all_digits_no_eq (s : string) : all_digits s = true -> split_eq s = None.
Proof.
  induction s as [| c s IH]; [reflexivity |]. cbn [all_digits split_eq].
  intros H. apply andb_true_iff in H. destruct H as [Hc Hs].
  destruct (Ascii.eqb_spec c "=") as [-> | _]; [discriminate Hc |].
  now rewrite IH.
Qed.

Lemma all_digits_no_newline (s : string) : all_digits s = true -> strip_final_newline s = s.
Proof.
  induction s as [| c s IH]; [reflexivity |]. cbn [all_digits].
  intros H. apply andb_true_iff in H. destruct H as [Hc Hs].
  cbn [strip_final_newline]. destruct s as [| c' s].
  - destruct (Ascii.eqb_spec c "010") as [-> | _]; [discriminate Hc | reflexivity].
  - now rewrite IH.
Qed.

Lemma negative_number_is_argument (s : string) :
  digits1 s = true -> is_argument ("-" +:+ s) = true.
Proof.
  destruct s as [| c s]; [discriminate |]. cbn [digits1 all_digits].
  intros H. pose proof H as Hall. apply andb_true_iff in H. destruct H as [Hc Hs].
  change ("-" +:+ String c s) with (String "-" (String c s)).
  assert (Hneg : negative_number (String "-" (String c s)) = true).
  { unfold negative_number. rewrite all_digits_no_newline by exact Hall.
    cbn [digits1 all_digits]. now rewrite Hall. }
  assert (Hsplit : split_eq (String "-" (String c s)) = None).
  { cbn [split_eq Ascii.eqb Bool.eqb].
    destruct (Ascii.eqb_spec c "=") as [-> | _]; [discriminate Hc |].
    now rewrite (all_digits_no_eq s Hs). }
  unfold is_argument, parse_optional. rewrite Hsplit, Hneg.
  destruct c as [[] [] [] [] [] [] [] []]; try discriminate Hc; reflexivity.
Qed.

(** X15: what may stand as the value of an option: every string that does not
    begin with a dash, the empty string included; a dash followed by
    digits, so that [--seed -1] can be written; but no string that begins
    with two dashes and holds no space. *)
Theorem option_values :
  (forall s, String.prefix "-" s = false -> is_argument s = true) /\
  (forall s, digits1 s = true -> is_argument ("-" +:+ s) = true) /\
  (forall s, contains_space s = false -> is_argument ("--" +:+ s) = false).
Proof.
  split; [exact not_dash_is_argument |].
  split; [exact negative_number_is_argument | exact double_dash_not_argument].
Qed.

Lemma option_values_witness :
  is_argument "demo.mp4" = true /\ is_argument "-1" = true /\ is_argument "--video" = false.
Proof.
  destruct option_values as (H1 & H2 & H3).
  split; [apply H1; reflexivity |].
  split; [apply (H2 "1"); reflexivity | apply (H3 "video"); reflexivity].
Defined.

End ArgparseValues.

(** ** The seed option *)

Module ArgparseSeed.
Import Argparse ArgparseTypes ArgparseFacts ArgparseMore.

Section Seed.

Variable int_of_str : string -> option Z.
Variable float_of_str : string -> option Q.

Lemma consume_given_then (given : list (string * string)) (rest : list string) (st : state) :
  pending st = None ->
  (forall o v, In (o, v) given -> In o required_options /\ is_argument v = true) ->
  consume int_of_str float_of_str st (command_line given ++ rest) =
  consume int_of_str float_of_str (foldl give st given) rest.
Proof.
  revert st. induction given as [| [o v] given IH]; intros st Hp Hok; [reflexivity |].
  destruct (Hok o v (or_introl eq_refl)) as [Ho Hv].
  cbn [command_line flat_map app consume foldl].
  rewrite step_option by assumption.
  rewrite (step_value _ _ _ o v) by (assumption || reflexivity).
  apply IH; [reflexivity |].
  intros o' v' H. apply Hok. now right.
Qed.





End Seed.
End ArgparseSeed.



(** ** Command lines that end the process *)

Module ArgparseErrors.
Import Argparse ArgparseTypes ArgparseFacts ArgparseMore ArgparseSeed.

Section Errors.

Variable int_of_str : string -> option Z.
Variable float_of_str : string -> option Q.

Lemma step_declared (st : state) (a : action) :
  In a parser -> pending st = None ->
  step int_of_str float_of_str st (option_string a) =
  Some {| namespace := namespace st;
          seen_actions := seen_actions st;
          pending := Some a |}.
Proof.
  intros Ha Hp. unfold step. rewrite Hp.
  unfold parser in Ha. cbn [In] in Ha.
  destruct Ha as [<- | [<- | [<- | [<- | [<- | [<- | [<- | [<- | []]]]]]]]]; reflexivity.
Qed.

Lemma step_no_option (st : state) (s : string) :
  pending st = None -> option_of s = None ->
  step int_of_str float_of_str st s = None.
Proof.
  intros Hp Hs. unfold step. rewrite Hp.
  destruct (String.eqb s "--"); [reflexivity |].
  unfold option_of in Hs. now destruct (parse_optional s).
Qed.

Lemma step_help (st : state) (s o : string) :
  pending st = None -> option_of s = Some o -> o = "-h" \/ o = "--help" ->
  step int_of_str float_of_str st s = None.
Proof.
  intros Hp Hs Ho. unfold step. rewrite Hp.
  destruct (String.eqb s "--"); [reflexivity |].
  unfold option_of in Hs. destruct (parse_optional s) as [| o' e | |]; try discriminate.
  injection Hs as ->. now destruct Ho as [-> | ->].
Qed.

Lemma step_bad_value (st : state) (a : action) (v : string) :
  pending st = Some a -> get_value int_of_str float_of_str a v = None ->
  step int_of_str float_of_str st v = None.
Proof.
  intros Hp Hv. unfold step, store. rewrite Hp, Hv. now destruct (is_argument v).
Qed.

(** X17: command lines [parse_args] ends the process on, after any number of
    required options given with their values: an argument string in
    option position that stands for no option (a stray positional
    argument, an unknown option, an ambiguous abbreviation, [--]); a help
    option; a declared option that is the last string, without its value;
    a value that [int] or [float] rejects. *)
Theorem rejected_command_lines (given : list (string * string)) :
  (forall o v, In (o, v) given -> In o required_options /\ is_argument v = true) ->
  let parse := parse_args int_of_str float_of_str in
  (forall s rest, option_of s = None -> parse (command_line given ++ s :: rest) = SystemExit) /\
  (forall s rest, option_of s = Some "-h" \/ option_of s = Some "--help" ->
     parse (command_line given ++ s :: rest) = SystemExit) /\
  (forall a, In a parser -> parse (command_line given ++ [option_string a]) = SystemExit) /\
  (forall o v rest, o = "--inference_steps" \/ o = "--seed" -> int_of_str v = None ->
     parse (command_line given ++ o :: v :: rest) = SystemExit) /\
  (forall v rest, float_of_str v = None ->
     parse (command_line given ++ "--guidance_scale" :: v :: rest) = SystemExit).
Proof.
  intros Hok parse. subst parse. unfold parse_args.
  assert (Hp : pending (foldl give initial given) = None) by now apply give_pending.
  split; [| split; [| split; [| split]]].
  - intros s rest Hs. rewrite consume_given_then by (reflexivity || assumption).
    cbn [consume]. now rewrite step_no_option.
  - intros s rest Hs. rewrite consume_given_then by (reflexivity || assumption).
    cbn [consume]. destruct Hs as [Hs | Hs]; rewrite (step_help _ _ _ Hp Hs); auto.
  - intros a Ha. rewrite consume_given_then by (reflexivity || assumption).
    cbn [consume]. now rewrite step_declared.
  - intros o v rest Ho Hv. rewrite consume_given_then by (reflexivity || assumption).
    cbn [consume].
    destruct Ho as [-> | ->].
    + rewrite (step_declared _ (add_argument "--inference_steps" type_int false (VInt 20)))
        by (assumption || (cbn; tauto)).
      rewrite (step_bad_value _ (add_argument "--inference_steps" type_int false (VInt 20)));
        [reflexivity | reflexivity |].
      unfold get_value. cbn. now rewrite Hv.
    + rewrite (step_declared _ (add_argument "--seed" type_int false (VInt 1247)))
        by (assumption || (cbn; tauto)).
      rewrite (step_bad_value _ (add_argument "--seed" type_int false (VInt 1247)));
        [reflexivity | reflexivity |].
      unfold get_value. cbn. now rewrite Hv.
  - intros v rest Hv. rewrite consume_given_then by (reflexivity || assumption).
    cbn [consume].
    rewrite (step_declared _ (add_argument "--guidance_scale" type_float false (VFloat 1)))
      by (assumption || (cbn; tauto)).
    rewrite (step_bad_value _ (add_argument "--guidance_scale" type_float false (VFloat 1)));
      [reflexivity | reflexivity |].
    unfold get_value. cbn. now rewrite Hv.
Qed.

End Errors.

Lemma rejected_command_lines_witness :
  parse_args (fun _ => None) (fun _ => None)
    (command_line [("--video_path", "demo.mp4")] ++ ["clip.mp4"; "--audio_path"; "demo.wav"]) =
  SystemExit.
Proof.
  refine (proj1 (rejected_command_lines (fun _ => None) (fun _ => None)
                   [("--video_path", "demo.mp4")] _) "clip.mp4" ["--audio_path"; "demo.wav"] _).
  - intros o v [H | []]. injection H as <- <-.
    split; [rewrite required_options_eq; cbn; tauto | reflexivity].
  - reflexivity.
Defined.

End ArgparseErrors.

(** ** Printed output *)






(** * The run on floats *)

(** ** Rounding *)

Example round_tenth :
  exists y,
    Binary64.round (1 # 10) = Binary64.Finite y /\
    (y == 3602879701896397 # 36028797018963968)%Q.
Proof. eexists. split; [vm_compute; reflexivity | reflexivity]. Qed.

(** Ties go to the even mantissa. *)
Example round_ties :
  Binary64.of_int (2 ^ 53 + 1) = Binary64.Finite (inject_Z (2 ^ 53)) /\
  Binary64.of_int (2 ^ 53 + 3) = Binary64.Finite (inject_Z (2 ^ 53 + 4)).
Proof. split; vm_compute; reflexivity. Qed.

(** The subnormal numbers are the multiples of [2^-1074]. *)
Example round_subnormal :
  exists y z,
    Binary64.round (1 # 2 ^ 1075) = Binary64.Finite y /\ (y == 0)%Q /\
    Binary64.round (3 # 2 ^ 1075) = Binary64.Finite z /\ (z == 2 # 2 ^ 1074)%Q.
Proof.
  eexists. eexists.
  split; [vm_compute; reflexivity |]. split; [reflexivity |].
  split; [vm_compute; reflexivity | reflexivity].
Qed.

(** The largest float is [2^1024 - 2^971]; from half a unit above it a
    number rounds to infinity. *)
Example round_overflow :
  Binary64.of_int (2 ^ 1024 - 2 ^ 971) = Binary64.Finite (inject_Z (2 ^ 1024 - 2 ^ 971)) /\
  Binary64.of_int (2 ^ 1024 - 2 ^ 970 - 1) = Binary64.Finite (inject_Z (2 ^ 1024 - 2 ^ 971)) /\
  Binary64.of_int (2 ^ 1024 - 2 ^ 970) = Binary64.Infinity false.
Proof. repeat split; vm_compute; reflexivity. Qed.

Module Binary64Facts.
Import Binary64.

Section Facts.

Local Open Scope Q_scope.

Lemma pow2_pos (e : Z) : 0 < pow2 e.
Proof. apply Qpower_0_lt. reflexivity. Qed.

Lemma pow2_plus (a b : Z) : pow2 (a + b) == pow2 a * pow2 b.
Proof. apply Qpower_plus. discriminate. Qed.

Lemma pow2_le (a b : Z) : (a <= b)%Z -> pow2 a <= pow2 b.
Proof. intros H. apply Qpower_le_compat_l; [assumption | discriminate]. Qed.

Lemma pow2_lt_inv (a b : Z) : pow2 a < pow2 b -> (a < b)%Z.
Proof.
  intros H. destruct (Z_lt_le_dec a b) as [Hlt | Hle]; [assumption |].
  apply pow2_le in Hle. lra.
Qed.

Lemma pow2_inject (n : Z) : (0 <= n)%Z -> pow2 n == inject_Z (2 ^ n).
Proof. intros H. unfold pow2. now rewrite Zpower_Qpower. Qed.

(** The leading bit of a positive rational. *)
Lemma ilog2_spec (x : Q) : 0 < x -> pow2 (ilog2 x) <= x /\ x < pow2 (ilog2 x + 1).
Proof.
  intros Hx. destruct x as [n d].
  assert (Hn : (0 < n)%Z) by (unfold Qlt in Hx; cbn in Hx; lia).
  unfold ilog2. cbn [Qnum Qden].
  destruct (Z.log2_spec n Hn) as [Hn1 Hn2].
  destruct (Z.log2_spec (Z.pos d) (Pos2Z.is_pos d)) as [Hd1 Hd2].
  pose proof (Z.log2_nonneg n) as Ln. pose proof (Z.log2_nonneg (Z.pos d)) as Ld.
  set (a := Z.log2 n) in *. set (b := Z.log2 (Z.pos d)) in *.
  assert (Ha : pow2 a <= inject_Z n) by (rewrite pow2_inject, <- Zle_Qle; assumption).
  assert (Ha' : inject_Z n < pow2 (a + 1)).
  { rewrite pow2_inject, <- Zlt_Qlt by lia. now rewrite <- Z.add_1_r in Hn2. }
  assert (Hb : pow2 b <= inject_Z (Z.pos d)) by (rewrite pow2_inject, <- Zle_Qle; assumption).
  assert (Hb' : inject_Z (Z.pos d) < pow2 (b + 1)).
  { rewrite pow2_inject, <- Zlt_Qlt by lia. now rewrite <- Z.add_1_r in Hd2. }
  assert (Hdpos : 0 < inject_Z (Z.pos d)) by reflexivity.
  assert (Hx' : n # d == inject_Z n / inject_Z (Z.pos d)) by apply Qmake_Qdiv.
  assert (Hlow : pow2 (a - b - 1) < n # d).
  { rewrite Hx'. apply Qlt_shift_div_l; [assumption |].
    apply Qlt_le_trans with (pow2 (a - b - 1) * pow2 (b + 1)).
    - apply Qmult_lt_l; [apply pow2_pos | assumption].
    - rewrite <- pow2_plus. replace (a - b - 1 + (b + 1))%Z with a by lia. assumption. }
  assert (Hhigh : n # d < pow2 (a - b + 1)).
  { rewrite Hx'. apply Qlt_shift_div_r; [assumption |].
    apply Qlt_le_trans with (pow2 (a + 1)); [assumption |].
    replace (a + 1)%Z with (a - b + 1 + b)%Z by lia. rewrite pow2_plus.
    apply Qmult_le_l; [apply pow2_pos | assumption]. }
  destruct (Qle_bool (pow2 (a - b)) (n # d)) eqn:E.
  - apply Qle_bool_iff in E. split; assumption.
  - split; [now apply Qlt_le_weak |].
    replace (a - b - 1 + 1)%Z with (a - b)%Z by lia.
    apply Qnot_le_lt. intros H. apply Qle_bool_iff in H. congruence.
Qed.

Lemma rint_integer (x : Q) (m : Z) : x == inject_Z m -> rint x = m.
Proof.
  intros H. unfold rint.
  assert (Hf : Qfloor x = m) by (rewrite (Qfloor_comp _ _ H); apply Qfloor_Z).
  rewrite Hf.
  assert (Hlt : x - inject_Z m < 1 # 2) by (rewrite H; ring_simplify; reflexivity).
  destruct (Qcompare_spec (x - inject_Z m) (1 # 2)) as [E | E | E]; [lra | reflexivity | lra].
Qed.

Lemma nearest_zero (x : Q) : x == 0 -> nearest x == 0.
Proof.
  intros H. unfold nearest.
  pose proof (pow2_pos (ulp_exp x)) as Hp. set (p := pow2 (ulp_exp x)) in *.
  rewrite (rint_integer _ 0).
  - change (inject_Z 0) with 0. ring.
  - rewrite H. change (inject_Z 0) with 0. field. lra.
Qed.

Lemma Qabs_zero (x : Q) : Qabs x == 0 -> x == 0.
Proof. apply (Qabs_case x (fun y => y == 0 -> x == 0)); intros; lra. Qed.

Lemma Qabs_pos_nonzero (x : Q) : ~ x == 0 -> 0 < Qabs x.
Proof.
  intros H0. pose proof (Qabs_nonneg x) as Hn. apply Qle_lteq in Hn.
  destruct Hn as [Hn | Hn]; [assumption |]. exfalso. apply H0, Qabs_zero. now symmetry.
Qed.

(** A multiple of [2^k] below [2^(k+53)] is a float: rounding keeps it. *)
Lemma nearest_multiple (x : Q) (m k : Z) :
  x == inject_Z m * pow2 k -> (-1074 <= k)%Z -> Qabs x < pow2 (k + 53) ->
  nearest x == x.
Proof.
  intros Hx Hk Hlt.
  destruct (Qeq_dec x 0) as [H0 | H0]; [rewrite (nearest_zero x H0); now symmetry |].
  pose proof (Qabs_pos_nonzero x H0) as Hpos.
  destruct (ilog2_spec _ Hpos) as [Hlo _].
  assert (He : (ulp_exp x <= k)%Z).
  { unfold ulp_exp. apply Z.max_lub; [| assumption].
    assert (ilog2 (Qabs x) < k + 53)%Z by (apply pow2_lt_inv; lra). lia. }
  unfold nearest. set (e := ulp_exp x) in *.
  assert (Hs : pow2 k == pow2 (k - e) * pow2 e).
  { rewrite <- pow2_plus. now replace (k - e + e)%Z with k by lia. }
  pose proof (pow2_pos e) as Hp.
  assert (Hq : x / pow2 e == inject_Z (m * 2 ^ (k - e))).
  { rewrite inject_Z_mult, <- pow2_inject by lia. rewrite Hx, Hs. field. lra. }
  rewrite (rint_integer _ _ Hq).
  rewrite inject_Z_mult, <- pow2_inject by lia. rewrite Hx, Hs. ring.
Qed.

Lemma round_multiple (x : Q) (m k : Z) :
  x == inject_Z m * pow2 k -> (-1074 <= k)%Z -> (k + 53 <= 1024)%Z ->
  Qabs x < pow2 (k + 53) ->
  round x = Finite x.
Proof.
  intros Hx Hk Hk' Hlt. pose proof (nearest_multiple x m k Hx Hk Hlt) as Hn.
  unfold round.
  assert (H1 : Qle_bool (pow2 1024) (Qabs (nearest x)) = false).
  { destruct (Qle_bool _ _) eqn:E; [| reflexivity]. apply Qle_bool_iff in E.
    rewrite Hn in E. pose proof (pow2_le (k + 53) 1024 Hk'). lra. }
  rewrite H1. apply Qeq_bool_iff in Hn. now rewrite Hn.
Qed.

(** An integer below [2^53] is a float. *)
Lemma round_integer (x : Q) (n : Z) :
  x == inject_Z n -> (Z.abs n < 2 ^ 53)%Z -> round x = Finite x.
Proof.
  intros Hx Hn. apply (round_multiple x n 0); try lia.
  - rewrite Hx. unfold pow2. rewrite Qpower_0_r. ring.
  - rewrite Hx. rewrite pow2_inject by lia.
    change (Qabs (inject_Z n)) with (inject_Z (Z.abs n)).
    rewrite <- Zlt_Qlt. exact Hn.
Qed.

(** What a float is made of. *)
Lemma representable_multiple (d : Q) :
  representable d ->
  Qabs d < pow2 1024 /\ nearest d == d.
Proof.
  unfold representable, round. intros H.
  destruct (Qle_bool (pow2 1024) (Qabs (nearest d))) eqn:E1; [discriminate H |].
  assert (Hn : nearest d == d).
  { destruct (Qeq_bool (nearest d) d) eqn:E2; [now apply Qeq_bool_iff |].
    injection H as H. rewrite H. reflexivity. }
  split; [| assumption].
  apply Qnot_le_lt. intros Hle. rewrite <- Hn in Hle. apply Qle_bool_iff in Hle. congruence.
Qed.

(** A float below [2^53] is a multiple of a power of two that is at most
    1, with less than 53 bits. *)
Lemma representable_small (d : Q) :
  representable d -> Qabs d < pow2 53 ->
  exists m k, (-1074 <= k <= 0)%Z /\ d == inject_Z m * pow2 k /\ Qabs d < pow2 (k + 53).
Proof.
  intros Hr Hlt. destruct (representable_multiple d Hr) as [_ Hn].
  destruct (Qeq_dec d 0) as [H0 | H0].
  - exists 0%Z, 0%Z. split; [lia |]. split.
    + rewrite H0. change (inject_Z 0) with 0. ring.
    + rewrite (Qabs_wd _ _ H0). reflexivity.
  - pose proof (Qabs_pos_nonzero d H0) as Hpos.
    destruct (ilog2_spec _ Hpos) as [Hlo Hhi].
    assert (Hl : (ilog2 (Qabs d) < 53)%Z) by (apply pow2_lt_inv; lra).
    exists (rint (d / pow2 (ulp_exp d))), (ulp_exp d).
    split; [unfold ulp_exp; lia |]. split; [now symmetry |].
    eapply Qlt_le_trans; [exact Hhi |]. apply pow2_le. unfold ulp_exp. lia.
Qed.

(** Below [2^53], a float minus an integer is a float when it is no
    larger than the float. *)
Lemma round_sub_integer (d : Q) (a : Z) :
  representable d -> Qabs d < pow2 53 -> Qabs (d - inject_Z a) <= Qabs d ->
  round (d - inject_Z a) = Finite (d - inject_Z a).
Proof.
  intros Hr Hlt Hle. destruct (representable_small d Hr Hlt) as (m & k & Hk & Hd & Hb).
  apply (round_multiple _ (m - a * 2 ^ (- k)) k); try lia.
  - rewrite Hd. unfold Zminus. rewrite inject_Z_plus, inject_Z_opp, inject_Z_mult.
    rewrite <- pow2_inject by lia.
    assert (Hs : pow2 (- k) * pow2 k == 1).
    { rewrite <- pow2_plus. replace (- k + k)%Z with 0%Z by lia. reflexivity. }
    transitivity (inject_Z m * pow2 k - inject_Z a * (pow2 (- k) * pow2 k)); [| ring].
    rewrite Hs. ring.
  - lra.
Qed.

End Facts.
End Binary64Facts.

(** ** The executed run and the run in exact arithmetic *)

Module ExecFacts.
Import Binary64 Binary64Facts.

Ltac unfold_run :=
  cbv beta iota zeta delta
    [mbind mret Exec.run_mbind Exec.run_mret Exec.run_bind Exec.run_ret
     Exec.emit Exec.print Exec.raise Exec.ffmpeg_run].

Lemma run_for_returns {A B} (body : A -> Exec.run B) (ev : A -> list Exec.step) (val : A -> B)
    (l : list A) :
  (forall x, In x l -> body x = (ev x, Return (val x))) ->
  Exec.for_ l body = (flat_map ev l, Return (map val l)).
Proof.
  induction l as [| x l IH]; intros Hbody; [reflexivity |].
  cbn [Exec.for_ flat_map map]. rewrite Hbody by (now left).
  rewrite IH by (intros y Hy; apply Hbody; now right).
  unfold_run. now rewrite app_nil_r.
Qed.

Lemma run_for_ext {A B} (body body' : A -> Exec.run B) (l : list A) :
  (forall x, body x = body' x) -> Exec.for_ l body = Exec.for_ l body'.
Proof.
  intros H. induction l as [| x l IH]; [reflexivity |].
  cbn [Exec.for_]. now rewrite H, IH.
Qed.

Lemma run_for_map {A B C} (h : A -> B) (body : B -> Exec.run C) (l : list A) :
  Exec.for_ (map h l) body = Exec.for_ l (fun x => body (h x)).
Proof.
  induction l as [| x l IH]; [reflexivity |].
  cbn [Exec.for_ map]. now rewrite IH.
Qed.

Section Exact.

Local Open Scope Q_scope.

Lemma int_floor (x : Q) : 0 <= x -> Py.int x = Qfloor x.
Proof.
  intros H. destruct x as [n d]. unfold Py.int, Qfloor. cbn [Qnum Qden].
  apply Z.quot_div_nonneg; [| reflexivity].
  unfold Qle in H. cbn in H. lia.
Qed.

Lemma Qminus_inject_Z (a b : Z) : inject_Z a - inject_Z b = inject_Z (a - b).
Proof.
  unfold Qminus, Qplus, Qopp, inject_Z. cbn [Qnum Qden].
  change (1 * 1)%positive with 1%positive. f_equal. lia.
Qed.

Lemma float_of_int_small (n : Z) :
  (Z.abs n < 2 ^ 53)%Z -> Exec.float_of_int n = ([], Return (Finite (inject_Z n))).
Proof.
  intros H. unfold Exec.float_of_int, of_int.
  now rewrite (round_integer (inject_Z n) n) by (reflexivity || assumption).
Qed.

Lemma pow2_53 : pow2 53 == inject_Z (2 ^ 53).
Proof. apply pow2_inject. lia. Qed.

(** Below [2^53] the floor division of a duration by 5 is exact. *)
Lemma float_div_mod_exact (d : Q) :
  representable d -> 5 < d -> d < pow2 53 ->
  exists q r,
    Exec.float_div_mod (Finite d) (Finite (inject_Z 5)) = (Finite q, Finite r) /\
    q == inject_Z (Qfloor (d / 5)) /\ Py.int q = Qfloor (d / 5) /\
    r == Py.mod_ d (inject_Z 5).
Proof.
  intros Hr H5 Hlt. rewrite pow2_53 in Hlt.
  set (n := Qfloor (d / 5)).
  assert (Hq : Py.int (d / inject_Z 5) = n).
  { change (inject_Z 5) with 5. apply int_floor. apply Qle_shift_div_l; [reflexivity | lra]. }
  pose proof (Qfloor_le (d / 5)) as Hlo. pose proof (Qlt_floor (d / 5)) as Hhi.
  fold n in Hlo, Hhi. rewrite inject_Z_plus in Hhi. change (inject_Z 1) with 1 in Hhi.
  pose proof (div5 d) as Hd.
  assert (Hn1 : (1 <= n)%Z).
  { assert (H1 : 1 <= d / 5) by (apply Qle_shift_div_l; [reflexivity | lra]).
    apply Qfloor_resp_le in H1. exact H1. }
  assert (Hn2 : (5 * n < 2 ^ 53)%Z).
  { apply inject_Z_lt_inv. rewrite inject_Z_mult. change (inject_Z 5) with 5. lra. }
  unfold Exec.float_div_mod, fmod.
  change (Qeq_bool (inject_Z 5) 0) with false. cbv iota. rewrite Hq.
  set (m := d - inject_Z n * inject_Z 5).
  assert (Hm : m == d - 5 * inject_Z n) by (unfold m; change (inject_Z 5) with 5; ring).
  assert (Hm0 : 0 <= m) by lra.
  cbn [sub]. rewrite (round_integer (d - m) (5 * n)); cycle 1.
  { rewrite Hm, inject_Z_mult. change (inject_Z 5) with 5. ring. }
  { lia. }
  cbn [div]. change (Qeq_bool (inject_Z 5) 0) with false. cbv iota.
  assert (Hdiv : (d - m) / inject_Z 5 == inject_Z n).
  { rewrite Hm. change (inject_Z 5) with 5. field. }
  rewrite (round_integer _ n Hdiv) by lia.
  assert (Hsign : ltb (Finite m) (Finite 0) = false).
  { cbn [ltb]. unfold Qltb. apply negb_false_iff, Qle_bool_iff. exact Hm0. }
  assert (Hnz : is_zero (Finite ((d - m) / inject_Z 5)) = false).
  { cbn [is_zero]. destruct (Qeq_bool _ 0) eqn:E; [| reflexivity].
    apply Qeq_bool_iff in E. rewrite Hdiv in E.
    assert (inject_Z 1 <= inject_Z n) by (rewrite <- Zle_Qle; exact Hn1).
    change (inject_Z 1) with 1 in *. lra. }
  assert (Hfl : Qfloor ((d - m) / inject_Z 5) = n).
  { rewrite (Qfloor_comp _ _ Hdiv). apply Qfloor_Z. }
  assert (Hsnap : ltb (Finite (1 # 2))
                    (sub (Finite ((d - m) / inject_Z 5)) (floor (Finite ((d - m) / inject_Z 5)))) = false).
  { cbn [floor sub]. rewrite Hfl.
    assert (Hz : (d - m) / inject_Z 5 - inject_Z n == inject_Z 0).
    { rewrite Hdiv. change (inject_Z 0) with 0. ring. }
    rewrite (round_integer _ 0 Hz) by (cbn; lia).
    cbn [ltb]. unfold Qltb. apply negb_false_iff, Qle_bool_iff. rewrite Hdiv. lra. }
  exists (inject_Z n), (if Qeq_bool m 0 then 0 else m).
  split.
  - cbn [is_zero]. change (ltb (Finite (inject_Z 5)) (Finite 0)) with false.
    destruct (Qeq_bool m 0) eqn:E0; cbn [negb].
    + rewrite Hnz. cbn [negb]. rewrite Hsnap. cbn [floor]. now rewrite Hfl.
    + rewrite Hsign. cbn [Bool.eqb negb]. rewrite Hnz. cbn [negb]. rewrite Hsnap.
      cbn [floor]. now rewrite Hfl.
  - split; [reflexivity |]. split; [apply int_inject_Z |].
    unfold Py.mod_. change (inject_Z 5) with 5. fold n. destruct (Qeq_bool m 0) eqn:E0.
    + apply Qeq_bool_iff in E0. rewrite <- Hm. now symmetry.
    + exact Hm.
Qed.

Lemma float_rem_exact (d : Q) :
  0 <= d ->
  exists r,
    Exec.float_rem (Finite d) (Finite (inject_Z 5)) = ([], Return (Finite r)) /\
    r == Py.mod_ d (inject_Z 5).
Proof.
  intros Hd.
  assert (Hq : Py.int (d / inject_Z 5) = Qfloor (d / 5)).
  { change (inject_Z 5) with 5. apply int_floor. apply Qle_shift_div_l; [reflexivity | lra]. }
  pose proof (Qfloor_le (d / 5)) as Hlo. pose proof (div5 d) as Hd5.
  unfold Exec.float_rem, fmod.
  change (is_zero (Finite (inject_Z 5))) with false.
  change (Qeq_bool (inject_Z 5) 0) with false. cbv iota. rewrite Hq.
  set (m := d - inject_Z (Qfloor (d / 5)) * inject_Z 5).
  assert (Hm : m == Py.mod_ d (inject_Z 5)) by (unfold m, Py.mod_; change (inject_Z 5) with 5; ring).
  assert (Hm0 : 0 <= m) by (unfold m; change (inject_Z 5) with 5; lra).
  assert (Hsign : ltb (Finite m) (Finite 0) = false).
  { cbn [ltb]. unfold Qltb. apply negb_false_iff, Qle_bool_iff. exact Hm0. }
  exists (if Qeq_bool m 0 then 0 else m). split.
  - cbn [is_zero]. change (ltb (Finite (inject_Z 5)) (Finite 0)) with false.
    rewrite Hsign. now destruct (Qeq_bool m 0).
  - destruct (Qeq_bool m 0) eqn:E0; [| exact Hm].
    apply Qeq_bool_iff in E0. now rewrite <- Hm, E0.
Qed.

Lemma Qeq_bool_proper (x y : Q) : x == y -> Qeq_bool x 0 = Qeq_bool y 0.
Proof.
  intros H. destruct (Qeq_bool y 0) eqn:E.
  - apply Qeq_bool_iff. apply Qeq_bool_iff in E. now rewrite H.
  - destruct (Qeq_bool x 0) eqn:E'; [| reflexivity].
    apply Qeq_bool_iff in E'. rewrite H in E'. apply Qeq_bool_iff in E'. congruence.
Qed.

(** Below [2^53] lines 117-122 compute what they compute on rationals. *)
Lemma total_segments_exact (d : Q) :
  representable d -> d < pow2 53 ->
  Exec.total_segments (Finite d) = ([], Return (total_segments d)).
Proof.
  intros Hr Hlt. unfold Exec.total_segments, total_segments. cbn [leb].
  destruct (Qle_bool d (inject_Z segment_duration)) eqn:E; [reflexivity |].
  assert (H5 : 5 < d).
  { apply Qnot_le_lt. intros H. apply Qle_bool_iff in H. unfold segment_duration in E.
    change (inject_Z 5) with 5 in E. congruence. }
  rewrite float_of_int_small by reflexivity. unfold_run. cbn [app].
  unfold Exec.float_floor_div. change (is_zero (Finite (inject_Z segment_duration))) with false.
  cbv iota.
  destruct (float_div_mod_exact d Hr H5 Hlt) as (q & r & Ediv & _ & Hq & _).
  unfold segment_duration. rewrite Ediv. unfold_run. cbn [fst Exec.int app].
  destruct (float_rem_exact d) as (r' & Erem & Hr'); [lra |].
  rewrite Erem. unfold_run. cbn [app is_zero].
  rewrite (Qeq_bool_proper _ _ Hr'), Hq.
  unfold Py.floordiv. rewrite int_inject_Z. change (inject_Z 5) with 5.
  now destruct (Qeq_bool _ 0).
Qed.

(** The segments of a duration below [2^53] lie within it. *)
Lemma segment_within (d : Q) (i : nat) :
  d < pow2 53 -> (Z.of_nat i < total_segments d)%Z ->
  (Z.abs (Z.of_nat i * 5) < 2 ^ 53)%Z /\
  Qabs (d - inject_Z (Z.of_nat i * 5)) <= Qabs d.
Proof.
  intros Hlt Hi. rewrite pow2_53 in Hlt.
  destruct (Qlt_le_dec 0 d) as [Hpos | Hneg].
  - destruct (total_segments_bounds d Hpos) as [Hlo _].
    assert (Hs : inject_Z (Z.of_nat i * 5) <= inject_Z ((total_segments d - 1) * 5)).
    { rewrite <- Zle_Qle. lia. }
    assert (H0 : 0 <= inject_Z (Z.of_nat i * 5)).
    { change 0 with (inject_Z 0). rewrite <- Zle_Qle. lia. }
    split.
    + rewrite Z.abs_eq by lia. apply inject_Z_lt_inv. lra.
    + rewrite !Qabs_pos by lra. lra.
  - rewrite total_segments_short in Hi by lra.
    assert (i = 0%nat) by lia. subst i. split; [reflexivity |].
    change (inject_Z (Z.of_nat 0 * 5)) with 0.
    assert (E : d - 0 == d) by ring. rewrite (Qabs_wd _ _ E). apply Qle_refl.
Qed.

(** Below [2^53] the length of a clip is computed exactly. *)
Lemma clip_length_exact (d : Q) (i : nat) :
  representable d -> Qabs d < pow2 53 -> (Z.of_nat i < total_segments d)%Z ->
  exists t,
    Exec.sub (Exec.end_time (Finite d) i) (Exec.start_time i) = ([], Return t) /\
    Exec.value t = Some (end_time d i - start_time i).
Proof.
  intros Hr Hlt Hi.
  assert (Hlt' : d < pow2 53) by (pose proof (Qle_Qabs d); lra).
  destruct (segment_within d i Hlt' Hi) as [Hs Hle].
  unfold Exec.end_time, Exec.min, Exec.start_time, end_time, start_time, Py.min, segment_duration.
  cbn [ltb]. unfold Qltb.
  destruct (Qlt_le_dec d (inject_Z ((Z.of_nat i + 1) * 5))) as [H | H].
  - assert (E : Qle_bool (inject_Z ((Z.of_nat i + 1) * 5)) d = false).
    { destruct (Qle_bool _ d) eqn:E; [| reflexivity]. apply Qle_bool_iff in E. lra. }
    rewrite E. cbn [negb Exec.sub]. rewrite float_of_int_small by exact Hs.
    unfold_run. cbn [app sub].
    rewrite (round_sub_integer d _ Hr Hlt Hle).
    eexists. split; reflexivity.
  - apply Qle_bool_iff in H. rewrite H. cbn [negb Exec.sub].
    eexists. split; [reflexivity |]. cbn [Exec.value]. now rewrite Qminus_inject_Z.
Qed.

Lemma cut_video_exact (d : Q) (i : nat) (input_path output_path : string) :
  representable d -> Qabs d < pow2 53 -> (Z.of_nat i < total_segments d)%Z ->
  exists s,
    Exec.cut_video input_path output_path (Exec.start_time i) (Exec.end_time (Finite d) i) =
      ([s], Return output_path) /\
    Exec.value_step s =
      Some (Ffmpeg_run (video_job input_path output_path (start_time i) (end_time d i))).
Proof.
  intros Hr Hlt Hi. destruct (clip_length_exact d i Hr Hlt Hi) as (t & Et & Ev).
  unfold Exec.cut_video. rewrite Et. unfold_run. cbn [app].
  eexists. split; [reflexivity |].
  unfold Exec.value_step, Exec.value_job, Exec.video_job.
  cbn [Exec.ss Exec.t Exec.input Exec.output Exec.kwargs].
  rewrite Ev. reflexivity.
Qed.

Lemma cut_audio_exact (d : Q) (i : nat) (input_path output_path : string) :
  representable d -> Qabs d < pow2 53 -> (Z.of_nat i < total_segments d)%Z ->
  exists s,
    Exec.cut_audio input_path output_path (Exec.start_time i) (Exec.end_time (Finite d) i) =
      ([s], Return output_path) /\
    Exec.value_step s =
      Some (Ffmpeg_run (audio_job input_path output_path (start_time i) (end_time d i))).
Proof.
  intros Hr Hlt Hi. destruct (clip_length_exact d i Hr Hlt Hi) as (t & Et & Ev).
  unfold Exec.cut_audio. rewrite Et. unfold_run. cbn [app].
  eexists. split; [reflexivity |].
  unfold Exec.value_step, Exec.value_job, Exec.audio_job.
  cbn [Exec.ss Exec.t Exec.input Exec.output Exec.kwargs].
  rewrite Ev. reflexivity.
Qed.

End Exact.

(** A loop whose steps have values. *)
Lemma for_values {A B} (body : A -> Exec.run B) (ev : A -> event) (val : A -> B) (l : list A) :
  (forall x, In x l ->
     exists s, body x = ([s], Return (val x)) /\ Exec.value_step s = Some (ev x)) ->
  exists tr,
    Exec.for_ l body = (tr, Return (map val l)) /\
    mapM Exec.value_step tr = Some (map ev l).
Proof.
  induction l as [| x l IH]; intros Hbody.
  - exists []. split; reflexivity.
  - destruct (Hbody x (or_introl eq_refl)) as (s & Es & Hs).
    destruct IH as (tr & Etr & Htr); [intros y Hy; apply Hbody; now right |].
    exists (s :: tr). split.
    + cbn [Exec.for_ map]. rewrite Es, Etr. unfold_run. cbn [app]. now rewrite app_nil_r.
    + cbn [mapM map]. rewrite Hs, Htr. reflexivity.
Qed.

Lemma mapM_app {A B} (f : A -> option B) (l1 l2 : list A) (k1 k2 : list B) :
  mapM f l1 = Some k1 -> mapM f l2 = Some k2 -> mapM f (l1 ++ l2) = Some (k1 ++ k2).
Proof.
  rewrite !mapM_Some. apply Forall2_app.
Qed.

Lemma values_steps (l : list event) : mapM Exec.value_step (map Exec.Step l) = Some l.
Proof. change (map ?f ?l) with (f <$> l). now apply mapM_fmap_Some. Qed.

Lemma map_flat_map {A B C} (h : B -> C) (g : A -> list B) (l : list A) :
  map h (flat_map g l) = flat_map (fun x => map h (g x)) l.
Proof.
  induction l as [| x l IH]; [reflexivity |].
  cbn [flat_map]. now rewrite map_app, IH.
Qed.

(** The steps of [Exec.main] once the probe has read a duration below
    [2^53]: the cuts of the two loops, given by their values, between the
    steps that compute on no number. *)
Lemma main_steps (float_of_str : string -> option Binary64.t)
    (ffprobe : string -> list Probe.stream)
    (env : Env) (config : Config.t) (args : Args.t) (d : Q) :
  Exec.reads float_of_str ffprobe (Args.video_path args) (Binary64.Finite d) ->
  representable d -> (Qabs d < pow2 53)%Q ->
  exists trv tra,
    Exec.main float_of_str ffprobe env config args =
      (map Exec.Step (probe_steps args) ++ trv ++ tra ++
       map Exec.Step
         ([DDIMScheduler_from_pretrained "configs"] ++
          if supported config
          then load_steps env config args ++ seed_steps env args ++
               pipeline_steps env config args d ++ concat_steps args d
          else []),
       if supported config then Return tt else Raise NotImplemented) /\
    mapM Exec.value_step trv = Some (video_cut_steps args d) /\
    mapM Exec.value_step tra = Some (audio_cut_steps args d).
Proof.
  intros (video_info & rest & duration & Hf & Hd & Hfl) Hr Hlt.
  assert (Hlt' : (d < pow2 53)%Q) by (pose proof (Qle_Qabs d); lra).
  assert (Hin : forall i, In i (Py.range (total_segments d)) ->
                          (Z.of_nat i < total_segments d)%Z).
  { intros i Hi. unfold Py.range in Hi. apply in_seq in Hi.
    pose proof (total_segments_pos d). lia. }
  set (bodyv := fun i : nat =>
                  let part := Py.str (Z.of_nat i + 1) in
                  segment_video_output_path ←
                    Exec.cut_video (Args.video_path args)
                      (Py.os_path_join output_folder_path (part +:+ ".mp4"))
                      (Exec.start_time i) (Exec.end_time (Finite d) i);
                  (mret segment_video_output_path : Exec.run string)).
  set (bodya := fun i : nat =>
                  let part := Py.str (Z.of_nat i + 1) in
                  segment_video_output_path ←
                    Exec.cut_audio (Args.audio_path args)
                      (Py.os_path_join output_folder_path (part +:+ ".mp3"))
                      (Exec.start_time i) (Exec.end_time (Finite d) i);
                  (mret segment_video_output_path : Exec.run string)).
  destruct (for_values bodyv
              (fun i => Ffmpeg_run (video_job (Args.video_path args) (video_clip i)
                                      (start_time i) (end_time d i)))
              video_clip (Py.range (total_segments d)))
    as (trv & Ev & Hv).
  { intros i Hi.
    destruct (cut_video_exact d i (Args.video_path args) (video_clip i) Hr Hlt (Hin i Hi))
      as (s & Es & Hs).
    exists s. split; [| exact Hs]. unfold bodyv. cbv zeta. fold (video_clip i).
    rewrite Es. reflexivity. }
  destruct (for_values bodya
              (fun i => Ffmpeg_run (audio_job (Args.audio_path args) (audio_clip i)
                                      (start_time i) (end_time d i)))
              audio_clip (Py.range (total_segments d)))
    as (tra & Ea & Ha).
  { intros i Hi.
    destruct (cut_audio_exact d i (Args.audio_path args) (audio_clip i) Hr Hlt (Hin i Hi))
      as (s & Es & Hs).
    exists s. split; [| exact Hs]. unfold bodya. cbv zeta. fold (audio_clip i).
    rewrite Es. reflexivity. }
  exists trv, tra. split; [| split; [exact Hv | exact Ha]].
  unfold Exec.main. rewrite Hf. cbn [Exec.next]. unfold_run.
  rewrite Hd. cbv beta iota. rewrite Hfl. cbv beta iota.
  rewrite (total_segments_exact d Hr Hlt'). cbv beta iota.
  rewrite (run_for_ext _ bodyv) by reflexivity. rewrite Ev.
  rewrite (run_for_ext _ bodya) by reflexivity. rewrite Ea.
  cbn [app].
  unfold supported, load_steps, seed_steps, seeded, whisper_model_path.
  unfold probe_steps, pipeline_steps, concat_steps, Py.range.
  destruct (Config.cross_attention_dim (Config.model config) =? 768) eqn:E1;
    [| destruct (Config.cross_attention_dim (Config.model config) =? 384) eqn:E2];
    destruct (is_xformers_available env);
    destruct (negb (Args.seed args =? -1));
    cbn [orb app map]; rewrite ?app_nil_r; try reflexivity.
  all: rewrite enumerate_clips, run_for_map.
  all: rewrite (run_for_returns _
               (fun i =>
                  [ Exec.Step (Print ("Processing segment " +:+ Py.str (Z.of_nat i + 1) +:+ "/" +:+
                                      Py.str (total_segments d)));
                    Exec.Step (Pipeline_call (pipeline_kwargs env config args i)) ])
               output_name) by reflexivity.
  all: unfold Exec.lift; rewrite concatenate_videos_run; cbn [fst snd map app].
  all: rewrite ?map_app, ?map_flat_map; cbn [map app]; rewrite ?app_nil_r, <- ?app_assoc; cbn [app].
  all: try reflexivity.
Qed.

(** Once the probe has read a duration below [2^53], the run, with its
    numbers read by their values, is the run in exact arithmetic. *)
Lemma main_exact (float_of_str : string -> option Binary64.t)
    (ffprobe : string -> list Probe.stream)
    (env : Env) (config : Config.t) (args : Args.t) (d : Q) :
  Exec.reads float_of_str ffprobe (Args.video_path args) (Binary64.Finite d) ->
  representable d -> (Qabs d < pow2 53)%Q ->
  ffprobe_video_duration env (Args.video_path args) = d ->
  Exec.values (Exec.main float_of_str ffprobe env config args) = Some (main env config args).
Proof.
  intros Hreads Hr Hlt Henv.
  destruct (main_steps float_of_str ffprobe env config args d Hreads Hr Hlt)
    as (trv & tra & E & Hv & Ha).
  rewrite E, main_run, Henv. unfold Exec.values. cbn [Exec.trace Exec.outcome fst snd].
  rewrite (mapM_app _ _ _ _ _ (values_steps (probe_steps args))
             (mapM_app _ _ _ _ _ Hv (mapM_app _ _ _ _ _ Ha (values_steps _)))).
  cbn [mbind option_bind]. now destruct (supported config).
Qed.

End ExecFacts.

(** ** Any run *)

Module ExecRuns.
Import Binary64 Binary64Facts ExecFacts.

(** The [-] of a cut performs no step, and can only fail in the
    conversion of the int. *)
Lemma sub_pure (a : Exec.number) (n : Z) :
  (exists t, Exec.sub a n = ([], Return t)) \/ Exec.sub a n = ([], Raise OverflowError).
Proof.
  destruct a as [m | x]; [left; eexists; reflexivity |].
  unfold Exec.sub, Exec.float_of_int. destruct (of_int n); unfold_run; eauto.
Qed.

Lemma cut_video_cases (input_path output_path : string) (start_time : Z)
    (end_time : Exec.number) :
  (exists t,
     Exec.sub end_time start_time = ([], Return t) /\
     Exec.cut_video input_path output_path start_time end_time =
       ([Exec.Cut (Exec.video_job input_path output_path start_time t)], Return output_path)) \/
  Exec.sub end_time start_time = ([], Raise OverflowError) /\
  Exec.cut_video input_path output_path start_time end_time = ([], Raise OverflowError).
Proof.
  unfold Exec.cut_video.
  destruct (sub_pure end_time start_time) as [[t E] | E]; rewrite E; unfold_run; eauto.
Qed.

Lemma cut_audio_cases (input_path output_path : string) (start_time : Z)
    (end_time : Exec.number) :
  (exists t,
     Exec.sub end_time start_time = ([], Return t) /\
     Exec.cut_audio input_path output_path start_time end_time =
       ([Exec.Cut (Exec.audio_job input_path output_path start_time t)], Return output_path)) \/
  Exec.sub end_time start_time = ([], Raise OverflowError) /\
  Exec.cut_audio input_path output_path start_time end_time = ([], Raise OverflowError).
Proof.
  unfold Exec.cut_audio.
  destruct (sub_pure end_time start_time) as [[t E] | E]; rewrite E; unfold_run; eauto.
Qed.

(** Two loops over the same list whose bodies compute the same number
    and make one cut of it each: they make their cuts of the same
    numbers, and end the same way. *)
Section Paired.

Context {A B C : Type}.
Variable f : A -> Exec.run C.
Variables mk1 mk2 : A -> C -> Exec.job.
Variables v1 v2 : A -> B.
Variables body1 body2 : A -> Exec.run B.

Hypothesis body_cases : forall x,
  (exists t, f x = ([], Return t) /\
             body1 x = ([Exec.Cut (mk1 x t)], Return (v1 x)) /\
             body2 x = ([Exec.Cut (mk2 x t)], Return (v2 x))) \/
  f x = ([], Raise OverflowError) /\
  body1 x = ([], Raise OverflowError) /\ body2 x = ([], Raise OverflowError).

Lemma for_paired (l : list A) :
  exists ts : list (A * C),
    List.Forall (fun xt => f (fst xt) = ([], Return (snd xt))) ts /\
    (map fst ts = l /\
     Exec.for_ l body1 = (map (fun xt => Exec.Cut (mk1 (fst xt) (snd xt))) ts, Return (map v1 l)) /\
     Exec.for_ l body2 = (map (fun xt => Exec.Cut (mk2 (fst xt) (snd xt))) ts, Return (map v2 l))
     \/
     (length ts < length l)%nat /\
     Exec.for_ l body1 =
       (map (fun xt => Exec.Cut (mk1 (fst xt) (snd xt))) ts, Raise OverflowError) /\
     Exec.for_ l body2 =
       (map (fun xt => Exec.Cut (mk2 (fst xt) (snd xt))) ts, Raise OverflowError)).
Proof.
  induction l as [| x l IH].
  - exists []. split; [constructor |]. left. repeat split; reflexivity.
  - destruct (body_cases x) as [(t & Ef & E1 & E2) | (Ef & E1 & E2)].
    + destruct IH as (ts & Hts & [(Hl & H1 & H2) | (Hl & H1 & H2)]).
      * exists ((x, t) :: ts). split; [constructor; assumption |]. left.
        cbn [map fst snd Exec.for_]. rewrite Hl, E1, E2, H1, H2. unfold_run.
        cbn [app]. rewrite !app_nil_r. repeat split; reflexivity.
      * exists ((x, t) :: ts). split; [constructor; assumption |]. right.
        cbn [map fst snd Exec.for_ length]. rewrite E1, E2, H1, H2. unfold_run.
        cbn [app]. repeat split; try reflexivity. lia.
    + exists []. split; [constructor |]. right.
      cbn [map Exec.for_ length]. rewrite E1, E2. unfold_run.
      repeat split; try reflexivity. lia.
Qed.

End Paired.

(** Lines 117-122 perform no step, and raise nothing but what [int]
    raises. *)
Lemma total_segments_cases (x : Binary64.t) :
  (exists n, Exec.total_segments x = ([], Return n)) \/
  Exec.total_segments x = ([], Raise ValueError) \/
  Exec.total_segments x = ([], Raise OverflowError).
Proof.
  unfold Exec.total_segments.
  destruct (leb x _); [left; eexists; reflexivity |].
  rewrite float_of_int_small by reflexivity. unfold_run. cbn [app].
  unfold Exec.float_floor_div, Exec.float_rem.
  change (is_zero (Finite (inject_Z segment_duration))) with false. cbv iota.
  destruct (fst (Exec.float_div_mod x (Finite (inject_Z segment_duration)))) as [q | s |];
    cbn [Exec.int]; unfold_run; cbn [app]; eauto.
  left. destruct (negb (is_zero _)); eexists; reflexivity.
Qed.

(** The steps of [Exec.main] once the probe has read a float and lines
    117-122 have counted [n] segments: either both loops make their [n]
    cuts, of the same numbers, and the run goes on as the configuration
    decides; or the first loop stops at an int that is too large for a
    float. *)
Lemma main_general (float_of_str : string -> option Binary64.t)
    (ffprobe : string -> list Probe.stream)
    (env : Env) (config : Config.t) (args : Args.t) (x : Binary64.t) (n : Z) :
  Exec.reads float_of_str ffprobe (Args.video_path args) x ->
  Exec.total_segments x = ([], Return n) ->
  exists ts : list (nat * Exec.number),
    List.Forall
      (fun it => Exec.sub (Exec.end_time x (fst it)) (Exec.start_time (fst it)) =
                 ([], Return (snd it))) ts /\
    (map fst ts = Py.range n /\
     Exec.main float_of_str ffprobe env config args =
       (map Exec.Step (probe_steps args) ++
        map (fun it => Exec.Cut (Exec.video_job (Args.video_path args) (video_clip (fst it))
                                   (Exec.start_time (fst it)) (snd it))) ts ++
        map (fun it => Exec.Cut (Exec.audio_job (Args.audio_path args) (audio_clip (fst it))
                                   (Exec.start_time (fst it)) (snd it))) ts ++
        map Exec.Step
          ([DDIMScheduler_from_pretrained "configs"] ++
           if supported config
           then load_steps env config args ++ seed_steps env args ++
                flat_map
                  (fun i =>
                     [ Print ("Processing segment " +:+ Py.str (Z.of_nat i + 1) +:+ "/" +:+
                              Py.str n);
                       Pipeline_call (pipeline_kwargs env config args i) ])
                  (Py.range n) ++
                [ Print "Combining segments...";
                  Subprocess_run
                    (concat_command (map output_name (Py.range n)) (Args.video_out_path args))
                    true;
                  Print (Args.video_out_path args) ]
           else []),
        if supported config then Return tt else Raise NotImplemented)
     \/
     (length ts < length (Py.range n))%nat /\
     Exec.main float_of_str ffprobe env config args =
       (map Exec.Step (probe_steps args) ++
        map (fun it => Exec.Cut (Exec.video_job (Args.video_path args) (video_clip (fst it))
                                   (Exec.start_time (fst it)) (snd it))) ts,
        Raise OverflowError)).
Proof.
  intros (video_info & rest & duration & Hf & Hd & Hfl) Hn.
  set (bodyv := fun i : nat =>
                  let part := Py.str (Z.of_nat i + 1) in
                  segment_video_output_path ←
                    Exec.cut_video (Args.video_path args)
                      (Py.os_path_join output_folder_path (part +:+ ".mp4"))
                      (Exec.start_time i) (Exec.end_time x i);
                  (mret segment_video_output_path : Exec.run string)).
  set (bodya := fun i : nat =>
                  let part := Py.str (Z.of_nat i + 1) in
                  segment_video_output_path ←
                    Exec.cut_audio (Args.audio_path args)
                      (Py.os_path_join output_folder_path (part +:+ ".mp3"))
                      (Exec.start_time i) (Exec.end_time x i);
                  (mret segment_video_output_path : Exec.run string)).
  destruct (for_paired
              (fun i => Exec.sub (Exec.end_time x i) (Exec.start_time i))
              (fun i t => Exec.video_job (Args.video_path args) (video_clip i) (Exec.start_time i) t)
              (fun i t => Exec.audio_job (Args.audio_path args) (audio_clip i) (Exec.start_time i) t)
              video_clip audio_clip bodyv bodya) with (l := Py.range n)
    as (ts & Hts & Hloops).
  { intros i. unfold bodyv, bodya. cbv zeta. fold (video_clip i). fold (audio_clip i).
    destruct (cut_video_cases (Args.video_path args) (video_clip i)
                (Exec.start_time i) (Exec.end_time x i)) as [(t & Et & Ev) | (Et & Ev)];
      destruct (cut_audio_cases (Args.audio_path args) (audio_clip i)
                  (Exec.start_time i) (Exec.end_time x i)) as [(t' & Et' & Ea) | (Et' & Ea)];
      rewrite Ev, Ea; try congruence.
    - left. exists t. assert (t' = t) by congruence. subst t'. repeat split; assumption || reflexivity.
    - right. repeat split; assumption || reflexivity. }
  exists ts. split; [exact Hts |].
  destruct Hloops as [(Hl & H1 & H2) | (Hl & H1 & H2)]; [left | right];
    (split; [assumption |]).
  - unfold Exec.main. rewrite Hf. cbn [Exec.next]. unfold_run.
    rewrite Hd. cbv beta iota. rewrite Hfl. cbv beta iota.
    rewrite Hn. cbv beta iota.
    rewrite (run_for_ext _ bodyv) by reflexivity. rewrite H1.
    rewrite (run_for_ext _ bodya) by reflexivity. rewrite H2.
    cbn [app].
    unfold supported, load_steps, seed_steps, seeded, whisper_model_path.
    unfold probe_steps, Py.range.
    destruct (Config.cross_attention_dim (Config.model config) =? 768) eqn:E1;
      [| destruct (Config.cross_attention_dim (Config.model config) =? 384) eqn:E2];
      destruct (is_xformers_available env);
      destruct (negb (Args.seed args =? -1));
      cbn [orb app map]; rewrite ?app_nil_r; try reflexivity.
    all: rewrite enumerate_clips, run_for_map.
    all: rewrite (run_for_returns _
                 (fun i =>
                    [ Exec.Step (Print ("Processing segment " +:+ Py.str (Z.of_nat i + 1) +:+ "/" +:+
                                        Py.str n));
                      Exec.Step (Pipeline_call (pipeline_kwargs env config args i)) ])
                 output_name) by reflexivity.
    all: unfold Exec.lift; rewrite concatenate_videos_run; cbn [fst snd map app].
    all: rewrite ?map_app, ?map_flat_map; cbn [map app]; rewrite ?app_nil_r, <- ?app_assoc; cbn [app].
    all: try reflexivity.
  - unfold Exec.main. rewrite Hf. cbn [Exec.next]. unfold_run.
    rewrite Hd. cbv beta iota. rewrite Hfl. cbv beta iota.
    rewrite Hn. cbv beta iota.
    rewrite (run_for_ext _ bodyv) by reflexivity. rewrite H1.
    unfold probe_steps. cbn [app map]. reflexivity.
Qed.

Lemma Exec_cuts_app (l1 l2 : list Exec.step) :
  Exec.cuts (l1 ++ l2) = Exec.cuts l1 ++ Exec.cuts l2.
Proof. unfold Exec.cuts. apply omap_app. Qed.

Lemma Exec_steps_app (l1 l2 : list Exec.step) :
  Exec.steps (l1 ++ l2) = Exec.steps l1 ++ Exec.steps l2.
Proof. unfold Exec.steps. apply omap_app. Qed.

Lemma cuts_steps (l : list event) : Exec.cuts (map Exec.Step l) = [].
Proof. unfold Exec.cuts. rewrite omap_map. apply omap_None. Qed.

Lemma cuts_cuts {A} (g : A -> Exec.job) (l : list A) :
  Exec.cuts (map (fun x => Exec.Cut (g x)) l) = map g l.
Proof. unfold Exec.cuts. rewrite omap_map. apply omap_Some. Qed.

Lemma steps_steps (l : list event) : Exec.steps (map Exec.Step l) = l.
Proof. unfold Exec.steps. rewrite omap_map, omap_Some. apply map_id. Qed.

Lemma steps_cuts {A} (g : A -> Exec.job) (l : list A) :
  Exec.steps (map (fun x => Exec.Cut (g x)) l) = [].
Proof. unfold Exec.steps. rewrite omap_map. apply omap_None. Qed.

Lemma lookup_paired {A} (ts : list (nat * A)) (n i : nat) (it : nat * A) :
  map fst ts = seq 0 n -> ts !! i = Some it -> fst it = i /\ (i < n)%nat.
Proof.
  intros Hl Hi.
  assert (H : (map fst ts) !! i = Some (fst it)).
  { change (map ?f ?l) with (f <$> l). rewrite list_lookup_fmap, Hi. reflexivity. }
  rewrite Hl in H. apply lookup_seq in H. cbn in H. destruct H as [-> H]. now split.
Qed.

Lemma pipeline_calls_general (env : Env) (config : Config.t) (args : Args.t) (n : Z) :
  pipeline_calls
                (probe_steps args ++
                 [DDIMScheduler_from_pretrained "configs"] ++
                 (if supported config
                  then load_steps env config args ++ seed_steps env args ++
                       flat_map
                         (fun i =>
                            [ Print ("Processing segment " +:+ Py.str (Z.of_nat i + 1) +:+ "/" +:+
                                     Py.str n);
                              Pipeline_call (pipeline_kwargs env config args i) ])
                         (Py.range n) ++
                       [ Print "Combining segments...";
                         Subprocess_run
                           (concat_command (map output_name (Py.range n))
                              (Args.video_out_path args)) true;
                         Print (Args.video_out_path args) ]
                  else [])) =
  if supported config then map (pipeline_kwargs env config args) (Py.range n) else [].
Proof. unfold pipeline_calls. project env config args. Qed.

(** The cuts of a run, two by two: the [i]-th cut of the first loop and
    the [i]-th cut of the second are made of the same start and of the
    same length, the one lines 131-134 and the [-] of the cut function
    compute, and the [i]-th pipeline call, when there is one, receives
    the two files they wrote. *)
Lemma main_cuts_paired (float_of_str : string -> option Binary64.t)
    (ffprobe : string -> list Probe.stream)
    (env : Env) (config : Config.t) (args : Args.t) (x : Binary64.t) (n : Z) :
  Exec.reads float_of_str ffprobe (Args.video_path args) x ->
  Exec.total_segments x = ([], Return n) ->
  let tr := Exec.trace (Exec.main float_of_str ffprobe env config args) in
  forall i jv ja,
    Exec.cuts tr !! i = Some jv ->
    Exec.cuts tr !! (Z.to_nat n + i)%nat = Some ja ->
    (i < Z.to_nat n)%nat /\
    Exec.input jv = Args.video_path args /\
    Exec.input ja = Args.audio_path args /\
    Exec.ss jv = Exec.Int (Exec.start_time i) /\
    Exec.ss ja = Exec.Int (Exec.start_time i) /\
    Exec.sub (Exec.end_time x i) (Exec.start_time i) = ([], Return (Exec.t jv)) /\
    Exec.t ja = Exec.t jv /\
    (forall kw, pipeline_calls (Exec.steps tr) !! i = Some kw ->
       Pipeline.video_path kw = Exec.output jv /\
       Pipeline.audio_path kw = Exec.output ja).
Proof.
  intros Hreads Hn tr i jv ja Hv Ha. subst tr.
  destruct (main_general float_of_str ffprobe env config args x n Hreads Hn)
    as (ts & Hts & [(Hl & E) | (Hl & E)]); rewrite E in Hv, Ha |- *;
    cbn [Exec.trace fst] in *.
  - assert (Hlen : length ts = Z.to_nat n).
    { rewrite <- (length_map fst), Hl. unfold Py.range. apply length_seq. }
    rewrite !Exec_cuts_app, !cuts_steps, !cuts_cuts in Hv, Ha. cbn [app] in Hv, Ha.
    rewrite app_nil_r in Hv, Ha.
    assert (Hi : (i < Z.to_nat n)%nat).
    { destruct (Nat.lt_ge_cases i (Z.to_nat n)) as [H | H]; [assumption |]. exfalso.
      apply lookup_lt_Some in Ha. rewrite length_app, !length_map in Ha. lia. }
    rewrite lookup_app_l in Hv by (rewrite length_map; lia).
    rewrite lookup_app_r in Ha by (rewrite length_map; lia).
    rewrite length_map, Hlen in Ha. replace (Z.to_nat n + i - Z.to_nat n)%nat with i in Ha by lia.
    change (map ?f ?l) with (f <$> l) in Hv, Ha. rewrite list_lookup_fmap in Hv, Ha.
    destruct (ts !! i) as [it |] eqn:Hit; [| discriminate].
    cbn in Hv, Ha. injection Hv as <-. injection Ha as <-.
    destruct (lookup_paired ts (Z.to_nat n) i it Hl Hit) as [Hfst _].
    rewrite List.Forall_forall in Hts.
    pose proof (Hts it (proj1 (list_elem_of_In _ _) (list_elem_of_lookup_2 _ _ _ Hit))) as Hsub.
    rewrite Hfst in *.
    cbn [Exec.input Exec.ss Exec.t Exec.output Exec.video_job Exec.audio_job].
    repeat (split; [assumption || reflexivity |]).
    intros kw Hkw.
    rewrite !Exec_steps_app in Hkw.
    rewrite !steps_steps, !steps_cuts in Hkw. cbn [app] in Hkw.
    pose proof (pipeline_calls_general env config args n) as Hcalls.
    match type of Hkw with
    | pipeline_calls ?l !! _ = _ =>
        match type of Hcalls with
        | pipeline_calls ?l' = _ => change l with l' in Hkw
        end
    end.
    rewrite Hcalls in Hkw. destruct (supported config); [| discriminate].
    change (map ?f ?l) with (f <$> l) in Hkw. rewrite list_lookup_fmap in Hkw.
    unfold Py.range in Hkw. rewrite lookup_seq_lt in Hkw by assumption.
    cbn in Hkw. injection Hkw as <-. split; reflexivity.
  - exfalso. rewrite Exec_cuts_app, cuts_steps, cuts_cuts in Ha. cbn [app] in Ha.
    apply lookup_lt_Some in Ha. rewrite length_map in Ha.
    unfold Py.range in Hl. rewrite length_seq in Hl. lia.
Qed.

(** A run that gets past the two loops has made every cut. *)
Lemma main_cuts_complete (float_of_str : string -> option Binary64.t)
    (ffprobe : string -> list Probe.stream)
    (env : Env) (config : Config.t) (args : Args.t) (x : Binary64.t) (n : Z) :
  Exec.reads float_of_str ffprobe (Args.video_path args) x ->
  Exec.total_segments x = ([], Return n) ->
  let m := Exec.main float_of_str ffprobe env config args in
  Exec.outcome m <> Raise OverflowError ->
  length (Exec.cuts (Exec.trace m)) = (Z.to_nat n + Z.to_nat n)%nat /\
  length (pipeline_calls (Exec.steps (Exec.trace m))) =
    (if supported config then Z.to_nat n else 0%nat).
Proof.
  intros Hreads Hn m Hout. subst m.
  destruct (main_general float_of_str ffprobe env config args x n Hreads Hn)
    as (ts & Hts & [(Hl & E) | (Hl & E)]); rewrite E in Hout |- *;
    cbn [Exec.trace Exec.outcome fst snd] in *; [| congruence].
  assert (Hlen : length ts = Z.to_nat n).
  { rewrite <- (length_map fst), Hl. unfold Py.range. apply length_seq. }
  split.
  - rewrite !Exec_cuts_app, !cuts_steps, !cuts_cuts. cbn [app].
    rewrite app_nil_r, length_app, !length_map. lia.
  - rewrite !Exec_steps_app, !steps_steps, !steps_cuts. cbn [app].
    pose proof (pipeline_calls_general env config args n) as Hcalls.
    match goal with
    | |- length (pipeline_calls ?l) = _ =>
        match type of Hcalls with
        | pipeline_calls ?l' = _ => change l with l'
        end
    end.
    rewrite Hcalls. destruct (supported config); [| reflexivity].
    unfold Py.range. now rewrite length_map, length_seq.
Qed.

(** When lines 117-122 raise, the run ends there. *)
Lemma main_count_raises (float_of_str : string -> option Binary64.t)
    (ffprobe : string -> list Probe.stream)
    (env : Env) (config : Config.t) (args : Args.t) (x : Binary64.t) (e : exn) :
  Exec.reads float_of_str ffprobe (Args.video_path args) x ->
  Exec.total_segments x = ([], Raise e) ->
  Exec.main float_of_str ffprobe env config args = (map Exec.Step (probe_steps args), Raise e).
Proof.
  intros (video_info & rest & duration & Hf & Hd & Hfl) He.
  unfold Exec.main. rewrite Hf. cbn [Exec.next]. unfold_run.
  rewrite Hd. cbv beta iota. rewrite Hfl. cbv beta iota. rewrite He. reflexivity.
Qed.

End ExecRuns.

(** ** The segment count, the boundaries and the exceptions *)


Example scaling_factor_literal :
  Binary64.round (18215 # 100000) = Binary64.Finite scaling_factor.
Proof. vm_compute. reflexivity. Qed.

Example total_segments_1e23 :
  Binary64.round (100000000000000000000000 # 1) =
    Binary64.Finite (99999999999999991611392 # 1) /\
  Exec.total_segments (Binary64.Finite (99999999999999991611392 # 1)) =
    ([], Return 20000000000000000000001).
Proof. split; vm_compute; reflexivity. Qed.

Example total_segments_nan : Exec.total_segments Binary64.NaN = ([], Raise ValueError).
Proof. vm_compute. reflexivity. Qed.

Example total_segments_inf :
  Exec.total_segments (Binary64.Infinity false) = ([], Raise ValueError).
Proof. vm_compute. reflexivity. Qed.

Example total_segments_minus_inf :
  Exec.total_segments (Binary64.Infinity true) = ([], Return 1).
Proof. vm_compute. reflexivity. Qed.

(** At 54829767466865536.0 the start of the last segment rounds to the
    duration, and the last clip is cut with length 0.0. *)
Example last_clip_empty :
  Exec.sub (Exec.min (5 * 10965953493373109) (Binary64.Finite (54829767466865536 # 1)))
           (5 * (10965953493373109 - 1)) =
  ([], Return (Exec.Float (Binary64.Finite 0))).
Proof. vm_compute. reflexivity. Qed.

Lemma main_with_duration (float_of_str : string -> option Binary64.t)
    (ffprobe : string -> list Probe.stream)
    (env : Env) (config : Config.t) (args : Args.t) (d : Q) :
  Exec.reads float_of_str ffprobe (Args.video_path args) (Binary64.Finite d) ->
  Binary64.representable d -> (Qabs d < Binary64.pow2 53)%Q ->
  Exec.values (Exec.main float_of_str ffprobe env config args) =
  Some (main (with_duration env d) config args).
Proof.
  intros Hreads Hr Hlt.
  change (Exec.main float_of_str ffprobe env config args)
    with (Exec.main float_of_str ffprobe (with_duration env d) config args).
  apply (ExecFacts.main_exact _ _ _ _ _ d); (assumption || reflexivity).
Qed.

Lemma values_trace {A} (m : Exec.run A) (m' : M A) :
  Exec.values m = Some m' ->
  mapM Exec.value_step (Exec.trace m) = Some (trace m') /\ Exec.outcome m = outcome m'.
Proof.
  unfold Exec.values. destruct (mapM _ _) as [tr |]; [| discriminate].
  cbn. intros H. injection H as <-. now split.
Qed.

(** C1, as stated, fails: the float 21037269764931172.0 is a positive
    duration, lines 117-122 give 4207453952986234 segments for it, and
    the ceiling of a fifth of it is 4207453952986235. *)
Lemma total_segments_not_ceiling :
  Binary64.representable (21037269764931172 # 1) /\
  (0 < 21037269764931172 # 1)%Q /\
  Exec.total_segments (Binary64.Finite (21037269764931172 # 1)) =
    ([], Return 4207453952986234) /\
  Qceiling ((21037269764931172 # 1) / inject_Z segment_duration) = 4207453952986235.
Proof. repeat split; vm_compute; reflexivity. Qed.

(** C1, amended: for every float [d] with [0 < d < 2^53], lines 117-122
    return, and what they give is the ceiling of [d / 5]; it is 1
    whenever [d <= 5]; and for [d > 5] it is [floor (d / 5) + 1] exactly
    when [d] is not an integer multiple of 5, and [floor (d / 5)] exactly
    when it is. *)
Theorem total_segments_binary64 (d : Q) :
  Binary64.representable d -> (0 < d)%Q -> (d < Binary64.pow2 53)%Q ->
  exists n,
    Exec.total_segments (Binary64.Finite d) = ([], Return n) /\
    n = Qceiling (d / inject_Z segment_duration) /\
    ((d <= inject_Z segment_duration)%Q -> n = 1) /\
    ((inject_Z segment_duration < d)%Q ->
     (n = Qfloor (d / inject_Z segment_duration) + 1 <-> ~ is_multiple d) /\
     (n = Qfloor (d / inject_Z segment_duration) <-> is_multiple d)).
Proof.
  intros Hr Hpos Hlt. exists (total_segments d).
  split; [now apply ExecFacts.total_segments_exact |].
  exact (total_segments_rule d Hpos).
Qed.

(** The float 5.1: two segments. *)
Lemma total_segments_binary64_witness :
  exists n,
    Exec.total_segments (Binary64.Finite (2871044762448691 # 562949953421312)) =
      ([], Return n) /\
    n = Qceiling ((2871044762448691 # 562949953421312) / inject_Z segment_duration).
Proof.
  destruct (total_segments_binary64 (2871044762448691 # 562949953421312))
    as (n & H1 & H2 & _); [vm_compute; reflexivity | reflexivity | vm_compute; reflexivity |].
  exists n. split; [exact H1 | exact H2].
Defined.

(** C4, as stated, fails: with [cross_attention_dim = 512] and a report
    that has no video stream, [main] raises [StopIteration] at line 112,
    not [NotImplementedError]. *)
Lemma no_video_stream_raises_StopIteration :
  Config.cross_attention_dim (Config.model (config_of 512)) <> 768 /\
  Config.cross_attention_dim (Config.model (config_of 512)) <> 384 /\
  Exec.main (fun _ => None) audio_only (env_of (12 # 1)) (config_of 512) (args_of 1247) =
    (map Exec.Step (probe_steps (args_of 1247)), Raise StopIteration) /\
  ~ (exists msg,
       Exec.outcome
         (Exec.main (fun _ => None) audio_only (env_of (12 # 1)) (config_of 512) (args_of 1247)) =
       Raise (NotImplementedError msg)).
Proof.
  split; [discriminate |]. split; [discriminate |]. split; [reflexivity |].
  intros [msg H]. discriminate H.
Qed.

(** C4, amended: in every run, [main] raises [NotImplementedError] only
    if [config.model.cross_attention_dim] is neither 768 nor 384: with
    768 or 384 the error branch is unreachable.  When the report has no
    video stream, when its first video stream has no duration, when
    [float] rejects the duration, or when the duration is a NaN or the
    positive infinity, [main] raises [StopIteration], [KeyError] or
    [ValueError] before it cuts anything or looks at the configuration.
    When the probe reads a float below [2^53] in absolute value, [main]
    ends with [NotImplementedError] if [cross_attention_dim] is neither
    768 nor 384; with 768 or 384 it ends normally, and the audio encoder
    is created from the whisper model chosen for that dimension. *)
Theorem main_raises (float_of_str : string -> option Binary64.t)
    (ffprobe : string -> list Probe.stream)
    (env : Env) (config : Config.t) (args : Args.t) :
  let dim := Config.cross_attention_dim (Config.model config) in
  let videos :=
    List.filter (fun s => String.eqb (Probe.codec_type s) "video")
                (ffprobe (Args.video_path args)) in
  let m := Exec.main float_of_str ffprobe env config args in
  (forall msg, Exec.outcome m = Raise (NotImplementedError msg) -> dim <> 768 /\ dim <> 384) /\
  (videos = [] -> m = (map Exec.Step (probe_steps args), Raise StopIteration)) /\
  (forall video_info rest,
     videos = video_info :: rest -> Probe.duration video_info = None ->
     m = (map Exec.Step (probe_steps args), Raise (KeyError "duration"))) /\
  (forall video_info rest duration,
     videos = video_info :: rest -> Probe.duration video_info = Some duration ->
     float_of_str duration = None \/
     float_of_str duration = Some Binary64.NaN \/
     float_of_str duration = Some (Binary64.Infinity false) ->
     m = (map Exec.Step (probe_steps args), Raise ValueError)) /\
  (forall d,
     Exec.reads float_of_str ffprobe (Args.video_path args) (Binary64.Finite d) ->
     Binary64.representable d -> (Qabs d < Binary64.pow2 53)%Q ->
     (dim <> 768 /\ dim <> 384 -> Exec.outcome m = Raise NotImplemented) /\
     (dim = 768 \/ dim = 384 ->
      Exec.outcome m = Return tt /\
      In (Exec.Step
            (Audio2Feature_init
               (if dim =? 768 then "checkpoints/whisper/small.pt"
                else "checkpoints/whisper/tiny.pt")
               "cuda" (Config.num_frames (Config.data config))))
         (Exec.trace m))).
Proof.
  intros dim videos m.
  assert (H1 : videos = [] -> m = (map Exec.Step (probe_steps args), Raise StopIteration)).
  { subst videos m. intros H. unfold Exec.main. rewrite H. reflexivity. }
  assert (H2 : forall video_info rest,
             videos = video_info :: rest -> Probe.duration video_info = None ->
             m = (map Exec.Step (probe_steps args), Raise (KeyError "duration"))).
  { subst videos m. intros video_info rest H Hd. unfold Exec.main. rewrite H. cbn [Exec.next].
    ExecFacts.unfold_run. rewrite Hd. reflexivity. }
  assert (H3 : forall video_info rest duration,
             videos = video_info :: rest -> Probe.duration video_info = Some duration ->
             float_of_str duration = None \/
             float_of_str duration = Some Binary64.NaN \/
             float_of_str duration = Some (Binary64.Infinity false) ->
             m = (map Exec.Step (probe_steps args), Raise ValueError)).
  { subst videos m. intros video_info rest duration H Hd Hf. unfold Exec.main. rewrite H.
    cbn [Exec.next]. ExecFacts.unfold_run. rewrite Hd. cbv beta iota.
    destruct Hf as [-> | [-> | ->]]; reflexivity. }
  split; [| split; [exact H1 | split; [exact H2 | split; [exact H3 |]]]].
  - intros msg Hm. apply supported_false_iff.
    destruct videos as [| video_info rest] eqn:Ev.
    { rewrite H1 in Hm by reflexivity. discriminate Hm. }
    destruct (Probe.duration video_info) as [duration |] eqn:Ed;
      [| rewrite (H2 _ _ eq_refl Ed) in Hm; discriminate Hm].
    destruct (float_of_str duration) as [x |] eqn:Ef;
      [| rewrite (H3 _ _ _ eq_refl Ed (or_introl Ef)) in Hm; discriminate Hm].
    assert (Hreads : Exec.reads float_of_str ffprobe (Args.video_path args) x).
    { exists video_info, rest, duration. repeat split; assumption. }
    subst m.
    destruct (ExecRuns.total_segments_cases x) as [[n En] | [En | En]].
    + destruct (ExecRuns.main_general float_of_str ffprobe env config args x n Hreads En)
        as (ts & _ & [(_ & E) | (_ & E)]); rewrite E in Hm; cbn [Exec.outcome snd] in Hm.
      * now destruct (supported config).
      * discriminate Hm.
    + rewrite (ExecRuns.main_count_raises _ _ env config args x _ Hreads En) in Hm.
      discriminate Hm.
    + rewrite (ExecRuns.main_count_raises _ _ env config args x _ Hreads En) in Hm.
      discriminate Hm.
  - subst dim videos m. intros d Hreads Hr Hlt.
    destruct (ExecFacts.main_steps float_of_str ffprobe env config args d Hreads Hr Hlt)
      as (trv & tra & E & _ & _).
    rewrite E. cbn [Exec.outcome Exec.trace fst snd]. split.
    + intros H. apply supported_false_iff in H. now rewrite H.
    + intros H. pose proof H as Hs. apply supported_iff in Hs. rewrite Hs.
      split; [reflexivity |].
      rewrite !in_app_iff. do 3 right. apply in_map.
      unfold load_steps, whisper_model_path. cbn [app In]. right. left. reflexivity.
Qed.

(** A 12 second video and dimension 384. *)
Lemma main_raises_witness :
  Exec.outcome
    (Exec.main (float_of "12.000000" (Binary64.Finite (12 # 1))) (report_of "12.000000")
       (env_of (12 # 1)) (config_of 384) (args_of 1247)) = Return tt.
Proof.
  refine (proj1 (proj2 (proj2 (proj2 (proj2 (proj2
            (main_raises (float_of "12.000000" (Binary64.Finite (12 # 1)))
               (report_of "12.000000") (env_of (12 # 1)) (config_of 384) (args_of 1247)))))
            (12 # 1) _ _ _) _)).
  - exists {| Probe.codec_type := "video"; Probe.duration := Some "12.000000" |}, [], "12.000000".
    repeat split; reflexivity.
  - vm_compute. reflexivity.
  - vm_compute. reflexivity.
  - right. reflexivity.
Defined.

(** C8, as stated, fails: for the float 21037269764931172.0, a positive
    duration, lines 117-122 give 4207453952986234 segments, and the last
    of them ends at [min (21037269764931170, video_duration)], the int
    21037269764931170, two seconds before the end of the video: the
    segments do not cover [[0, video_duration]]. *)
Lemma segments_leave_gap :
  Binary64.representable (21037269764931172 # 1) /\
  (0 < 21037269764931172 # 1)%Q /\
  Exec.total_segments (Binary64.Finite (21037269764931172 # 1)) =
    ([], Return 4207453952986234) /\
  Exec.end_time (Binary64.Finite (21037269764931172 # 1))
                (Z.to_nat (4207453952986234 - 1)) =
    Exec.Int 21037269764931170 /\
  (inject_Z 21037269764931170 < 21037269764931172 # 1)%Q.
Proof.
  split; [vm_compute; reflexivity |]. split; [reflexivity |].
  split; [vm_compute; reflexivity |]. split; [| reflexivity].
  unfold Exec.end_time. rewrite Z2Nat.id by (vm_compute; discriminate).
  vm_compute. reflexivity.
Qed.

(** C8, amended: segment [i] starts at [i * 5] and ends at
    [min ((i + 1) * 5, video_duration)]; in every run, the [i]-th cut of
    the first loop and the [i]-th cut of the second read the two input
    files with the same start and with the same length, the one the cut
    function computes from the boundaries of segment [i], and the [i]-th
    pipeline call, when there is one, receives the two files they wrote;
    a run that does not stop in the loops makes as many cuts of each kind
    as lines 117-122 count segments, and with a supported configuration
    as many pipeline calls; and when the probe reads a float [d] below
    [2^53] in absolute value, the run does not stop in the loops, the
    values of the numbers of the cuts are [i * 5] and
    [min ((i + 1) * 5, d) - i * 5], and for a positive [d] the segments
    tile [[0, d]]: the first starts at 0, each ends where the next
    starts, the last ends at [d], and none is empty. *)
Theorem segment_boundaries_binary64 (float_of_str : string -> option Binary64.t)
    (ffprobe : string -> list Probe.stream)
    (env : Env) (config : Config.t) (args : Args.t) :
  let m := Exec.main float_of_str ffprobe env config args in
  (forall x i,
     Exec.start_time i = Z.of_nat i * 5 /\
     Exec.end_time x i = Exec.min ((Z.of_nat i + 1) * 5) x) /\
  (forall x n,
     Exec.reads float_of_str ffprobe (Args.video_path args) x ->
     Exec.total_segments x = ([], Return n) ->
     (forall i jv ja,
        Exec.cuts (Exec.trace m) !! i = Some jv ->
        Exec.cuts (Exec.trace m) !! (Z.to_nat n + i)%nat = Some ja ->
        (i < Z.to_nat n)%nat /\
        Exec.input jv = Args.video_path args /\
        Exec.input ja = Args.audio_path args /\
        Exec.ss jv = Exec.Int (Exec.start_time i) /\
        Exec.ss ja = Exec.Int (Exec.start_time i) /\
        Exec.sub (Exec.end_time x i) (Exec.start_time i) = ([], Return (Exec.t jv)) /\
        Exec.t ja = Exec.t jv /\
        (forall kw, pipeline_calls (Exec.steps (Exec.trace m)) !! i = Some kw ->
           Pipeline.video_path kw = Exec.output jv /\
           Pipeline.audio_path kw = Exec.output ja)) /\
     (Exec.outcome m <> Raise OverflowError ->
      length (Exec.cuts (Exec.trace m)) = (Z.to_nat n + Z.to_nat n)%nat /\
      length (pipeline_calls (Exec.steps (Exec.trace m))) =
        (if supported config then Z.to_nat n else 0%nat))) /\
  (forall d,
     Exec.reads float_of_str ffprobe (Args.video_path args) (Binary64.Finite d) ->
     Binary64.representable d -> (Qabs d < Binary64.pow2 53)%Q ->
     let n := Z.to_nat (total_segments d) in
     exists tr,
       Exec.total_segments (Binary64.Finite d) = ([], Return (Z.of_nat n)) /\
       Exec.outcome m <> Raise OverflowError /\
       mapM Exec.value_step (Exec.trace m) = Some tr /\
       (forall i, (i < n)%nat ->
          exists jv ja,
            ffmpeg_jobs tr !! i = Some jv /\
            ffmpeg_jobs tr !! (n + i)%nat = Some ja /\
            Ffmpeg.ss jv = inject_Z (Z.of_nat i * 5) /\
            Ffmpeg.ss ja = inject_Z (Z.of_nat i * 5) /\
            Ffmpeg.t jv = (end_time d i - start_time i)%Q /\
            Ffmpeg.t ja = (end_time d i - start_time i)%Q) /\
       (forall i,
          start_time i = inject_Z (Z.of_nat i * 5) /\
          (end_time d i == Qmin (inject_Z ((Z.of_nat i + 1) * 5)) d)%Q) /\
       ((0 < d)%Q ->
        (1 <= n)%nat /\
        (start_time 0 == 0)%Q /\
        (forall i, (S i < n)%nat -> (end_time d i == start_time (S i))%Q) /\
        (end_time d (n - 1) == d)%Q /\
        (forall i, (i < n)%nat -> (start_time i < end_time d i)%Q))).
Proof.
  intros m. subst m. split; [| split].
  - intros x i. split; reflexivity.
  - intros x n Hreads Hn. split.
    + exact (ExecRuns.main_cuts_paired float_of_str ffprobe env config args x n Hreads Hn).
    + exact (ExecRuns.main_cuts_complete float_of_str ffprobe env config args x n Hreads Hn).
  - intros d Hreads Hr Hlt n.
    destruct (values_trace _ _ (main_with_duration _ _ env config args d Hreads Hr Hlt))
      as [Htr Hout].
    exists (trace (main (with_duration env d) config args)).
    assert (Hlt' : (d < Binary64.pow2 53)%Q) by (pose proof (Qle_Qabs d); lra).
    split.
    { rewrite (ExecFacts.total_segments_exact d Hr Hlt'). subst n.
      rewrite Z2Nat.id by (pose proof (total_segments_pos d); lia). reflexivity. }
    split.
    { rewrite Hout, main_outcome. destruct (supported config); discriminate. }
    split; [exact Htr |].
    destruct (segment_boundaries (with_duration env d) config args) as (H1 & H2 & _ & _ & H5).
    split; [| split; [exact H1 | exact H5]].
    intros i Hi. destruct (H2 i Hi) as (jv & ja & Hv & Ha & _ & _ & Hsv & Hsa & Htv & Hta & _).
    exists jv, ja. repeat split; assumption.
Qed.

(** A 12 second video: the third segment ends at 12. *)
Lemma segment_boundaries_binary64_witness :
  exists tr,
    mapM Exec.value_step
      (Exec.trace
         (Exec.main (float_of "12.000000" (Binary64.Finite (12 # 1))) (report_of "12.000000")
            (env_of (12 # 1)) (config_of 384) (args_of 1247))) = Some tr /\
    (end_time (12 # 1) 2 == 12 # 1)%Q.
Proof.
  destruct (proj2 (proj2 (segment_boundaries_binary64
              (float_of "12.000000" (Binary64.Finite (12 # 1))) (report_of "12.000000")
              (env_of (12 # 1)) (config_of 384) (args_of 1247))) (12 # 1))
    as (tr & _ & _ & Htr & _ & _ & Htile).
  - exists {| Probe.codec_type := "video"; Probe.duration := Some "12.000000" |}, [], "12.000000".
    repeat split; reflexivity.
  - vm_compute. reflexivity.
  - vm_compute. reflexivity.
  - exists tr. split; [exact Htr |]. apply Htile. reflexivity.
Defined.

(** X5: when the probe reads a float [d] with [0 < d < 2^53], the
    lengths the cuts are given are, by their values, those of the
    segments of [d], video clips first and audio clips after them: no
    clip is empty or longer than the segment duration, every clip but the
    last is exactly one segment duration long, and the lengths of the
    video clips (and of the audio clips) add up to [d]. *)
Theorem clip_lengths_binary64 (float_of_str : string -> option Binary64.t)
    (ffprobe : string -> list Probe.stream)
    (env : Env) (config : Config.t) (args : Args.t) (d : Q) :
  Exec.reads float_of_str ffprobe (Args.video_path args) (Binary64.Finite d) ->
  Binary64.representable d -> (0 < d)%Q -> (d < Binary64.pow2 53)%Q ->
  let n := Z.to_nat (total_segments d) in
  exists tr,
    Exec.total_segments (Binary64.Finite d) = ([], Return (Z.of_nat n)) /\
    mapM Exec.value_step (Exec.trace (Exec.main float_of_str ffprobe env config args)) =
      Some tr /\
    map Ffmpeg.t (ffmpeg_jobs tr) =
      map (clip_length d) (seq 0 n) ++ map (clip_length d) (seq 0 n) /\
    (forall i, (i < n)%nat ->
       (0 < clip_length d i)%Q /\ (clip_length d i <= inject_Z segment_duration)%Q) /\
    (forall i, (S i < n)%nat -> (clip_length d i == inject_Z segment_duration)%Q) /\
    (Qsum (map (clip_length d) (seq 0 n)) == d)%Q.
Proof.
  intros Hreads Hr Hpos Hlt n.
  assert (Habs : (Qabs d < Binary64.pow2 53)%Q) by (rewrite Qabs_pos; lra).
  destruct (values_trace _ _ (main_with_duration _ _ env config args d Hreads Hr Habs))
    as [Htr _].
  exists (trace (main (with_duration env d) config args)).
  split.
  { rewrite (ExecFacts.total_segments_exact d Hr Hlt). subst n.
    rewrite Z2Nat.id by (pose proof (total_segments_pos d); lia). reflexivity. }
  split; [exact Htr |].
  exact (clip_lengths (with_duration env d) config args Hpos).
Qed.

Lemma clip_lengths_binary64_witness :
  (Qsum (map (clip_length (12 # 1)) (seq 0 3)) == 12 # 1)%Q.
Proof.
  destruct (clip_lengths_binary64
              (float_of "12.000000" (Binary64.Finite (12 # 1))) (report_of "12.000000")
              (env_of (12 # 1)) (config_of 384) (args_of 1247) (12 # 1))
    as (tr & _ & _ & _ & _ & _ & Hsum).
  - exists {| Probe.codec_type := "video"; Probe.duration := Some "12.000000" |}, [], "12.000000".
    repeat split; reflexivity.
  - vm_compute. reflexivity.
  - reflexivity.
  - vm_compute. reflexivity.
  - exact Hsum.
Defined.

(** X6: when the probe reads a float below [2^53] in absolute value, an
    unsupported [cross_attention_dim] is found only after every clip has
    been cut: the run probes, runs all 2N cuts, loads the scheduler and
    raises; nothing else is loaded, seeded, processed or written. *)
Theorem unsupported_fails_after_cutting_binary64
    (float_of_str : string -> option Binary64.t) (ffprobe : string -> list Probe.stream)
    (env : Env) (config : Config.t) (args : Args.t) (d : Q) :
  Exec.reads float_of_str ffprobe (Args.video_path args) (Binary64.Finite d) ->
  Binary64.representable d -> (Qabs d < Binary64.pow2 53)%Q ->
  supported config = false ->
  let n := Z.to_nat (total_segments d) in
  let m := Exec.main float_of_str ffprobe env config args in
  Exec.outcome m = Raise NotImplemented /\
  mapM Exec.value_step (Exec.trace m) =
    Some (probe_steps args ++ video_cut_steps args d ++ audio_cut_steps args d ++
          [DDIMScheduler_from_pretrained "configs"]) /\
  length (video_cut_steps args d) = n /\
  length (audio_cut_steps args d) = n /\
  (1 <= n)%nat.
Proof.
  intros Hreads Hr Hlt Hs n m. subst m.
  destruct (values_trace _ _ (main_with_duration _ _ env config args d Hreads Hr Hlt))
    as [Htr Hout].
  rewrite Htr, Hout, main_run, Hs. cbn [trace outcome fst snd].
  split; [reflexivity |]. split; [reflexivity |].
  unfold video_cut_steps, audio_cut_steps, Py.range.
  rewrite !length_map, !length_seq.
  split; [reflexivity |]. split; [reflexivity |].
  pose proof (total_segments_pos d). subst n. lia.
Qed.

Lemma unsupported_fails_after_cutting_binary64_witness :
  Exec.outcome
    (Exec.main (float_of "12.000000" (Binary64.Finite (12 # 1))) (report_of "12.000000")
       (env_of (12 # 1)) (config_of 512) (args_of 1247)) = Raise NotImplemented.
Proof.
  refine (proj1 (unsupported_fails_after_cutting_binary64
                   (float_of "12.000000" (Binary64.Finite (12 # 1))) (report_of "12.000000")
                   (env_of (12 # 1)) (config_of 512) (args_of 1247) (12 # 1) _ _ _ _)).
  - exists {| Probe.codec_type := "video"; Probe.duration := Some "12.000000" |}, [], "12.000000".
    repeat split; reflexivity.
  - vm_compute. reflexivity.
  - vm_compute. reflexivity.
  - reflexivity.
Defined.
